(** * The automated data-collection orchestrator of so101-autogen

    A shallow embedding of [scripts/data_collection_automatic.py]: the
    episode loop of [main] (lines 270-447), the handlers of its [try]
    statement (lines 449-469) and the part of the set-up that decides which
    locals the clean-up block finds bound.

    The collaborators of the loop (the simulation world, the keyboard
    handler, the grasp state machine, the IK controller, the visualizers,
    the camera controller) are not part of the script: they are reached only
    through method calls.  The embedding keeps them opaque: one abstract
    world [W] holds all of their state and one handler answers every method
    call.  The script itself becomes a program in a small monad that threads
    the locals of [main], records every call and every printed line in a
    history, and propagates exceptions the way Python does.

    What comes before the [try] statement (the banner, the scene
    configuration, the logging set-up: lines 27-53) is left out, and so are
    the progress lines of the set-up, the rule of line 272, the two readings
    of the clock with the line that reports the elapsed time (lines 289,
    445-446) and the traceback of line 454: none of them calls a
    collaborator of the loop or changes a local the loop reads.  An
    object that the script tests for truth ([camera_controller],
    [data_collection_manager]) counts as true when it is not [None].

    The modules that [main] calls before the loop to read the configuration
    and to build the scene, [src/utils/config_utils.py] and
    [src/utils/scene_factory.py], are embedded after the script, in modules
    of their own: their data are Python values, and what they reach of
    numpy, of Isaac Sim and of the file system is again kept opaque.

    The file has two halves.  The definitions: the script and the
    vocabulary to read its history, a scripted state machine to run it
    against, the two modules and a scripted outside to run them against.
    Then the facts: about the monad and the phases of the script, about
    whole episodes and runs, and about the two modules. *)

From Stdlib Require Import ZArith List String Bool Lia Ascii Sorted.
From Stdlib Require Import DecimalString DecimalPos DecimalZ.
From Stdlib Require Import PrimFloat SpecFloat FloatOps.
Import ListNotations.
Open Scope string_scope.
Open Scope list_scope.
Open Scope Z_scope.

Set Implicit Arguments.

(** ** Exceptions and completions *)

(** The exception classes the script distinguishes.  [KeyboardInterrupt] and
    [SystemExit] derive from [BaseException] only; the others from
    [Exception]. *)
Inductive Exn : Type :=
| KeyboardInterrupt
| SystemExit
| RuntimeError (msg : string)
| UnboundLocalError (name : string)
| OtherException (msg : string).

Definition is_Exception (e : Exn) : bool :=
  match e with
  | KeyboardInterrupt | SystemExit => false
  | RuntimeError _ | UnboundLocalError _ | OtherException _ => true
  end.

(** What a method call of a collaborator hands back. *)
Inductive Reply (A : Type) : Type :=
| Ok (a : A)
| Throw (e : Exn).
Arguments Ok {A} a.
Arguments Throw {A} e.

(** How a piece of the script ends: normally with a value, by an exception,
    by the [return] statement of [main], or not within the given number of
    iterations of the episode loop. *)
Inductive Completion (A : Type) : Type :=
| Normal (a : A)
| Raised (e : Exn)
| Returned (code : Z)
| OutOfFuel.
Arguments Normal {A} a.
Arguments Raised {A} e.
Arguments Returned {A} code.
Arguments OutOfFuel {A}.

(** A local of [main] that the clean-up block may find unassigned. *)
Inductive Local (A : Type) : Type :=
| Unbound
| Bound (a : A).
Arguments Unbound {A}.
Arguments Bound {A} a.

(** [break], or falling through to the next test of the loop condition
    (by [continue] or by reaching the end of the body). *)
Inductive LoopCtl : Type := Next | Break.

(** The stages of the set-up, lines 57-268, grouped by what the clean-up
    block can observe of them. *)
Inductive SetupStage : Type :=
| LoadConfiguration      (* lines 57-60 *)
| BuildWorldAndScene     (* lines 69-122 *)
| InitControllers        (* lines 136-185 *)
| ConnectSystems         (* lines 199-219 *)
| InitStateMachine.      (* lines 238-268 *)

Section Orchestrator.

(** The state of all collaborators, a joint value, a position and a
    rotation as the kinematics returns them. *)
Variables (W J Pos Rot : Type).

Definition IkData : Type := (Pos * Rot * Pos * Rot)%type.

(** ** The method calls of the script, indexed by what they return *)
Inductive Call : Type -> Type :=
(* keyboard_handler.simulate_key_press(key) *)
| simulate_key_press (key : string) : Call unit
(* world.step(render=...) and world.is_playing() *)
| world_step (render : bool) : Call unit
| world_is_playing : Call bool
(* robot.get_joint_positions() *)
| get_joint_positions : Call (list J)
(* ik_controller.compute_forward_kinematics(frame_name=, joint_positions=) *)
| compute_forward_kinematics (frame_name : string) (joint_positions : list J)
  : Call (Pos * Rot)
(* debug_visualizer.update_calculations(world, ik_data, target_configs, frame_count) *)
| update_calculations (ik_data : IkData) (frame_count : Z) : Call unit
(* state_machine.update() *)
| state_machine_update : Call unit
(* ik_controller.execute_control(robot, state_machine) *)
| execute_control : Call unit
(* debug_visualizer.draw_visualizations(world, target_configs, frame_count) *)
| draw_visualizations (frame_count : Z) : Call unit
(* camera_controller.update_frame_count() *)
| update_frame_count : Call unit
(* state_machine.is_busy(), .fail_current_task(),
   .get_and_clear_hard_reset_flag(), .get_last_attempt_status(),
   .get_current_state() *)
| is_busy : Call bool
| fail_current_task : Call unit
| get_and_clear_hard_reset_flag : Call bool
| get_last_attempt_status : Call bool
| get_current_state : Call string
(* debug_visualizer.is_enabled *)
| debug_visualizer_is_enabled : Call bool
(* the set-up and the tear-down *)
| setup_stage (s : SetupStage) : Call unit
| start_simulation : Call unit
| scene_get_robot : Call bool
| create_camera_controller : Call unit
| create_data_collection_manager : Call unit
| data_collection_manager_close : Call unit
| simulation_app_close : Call unit.

(** The collaborators: every call answers or throws, and moves the world. *)
Variable handle : forall A : Type, Call A -> W -> Reply A * W.

(** ** Printed lines of the modelled part of [main] *)
Inductive Message : Type :=
| MsgEnteringLoop                                   (* lines 271-272 *)
| MsgHidingDebug                                    (* line 278 *)
| MsgDebugStillVisible                              (* line 285 *)
| MsgDebugDisabled                                  (* line 287 *)
| MsgStartingRun (total_runs successful_grasps total_success_episodes : Z)
                                                    (* line 294 *)
| MsgAttempting (target_index : Z)                  (* line 302 *)
| MsgWaitingForStart                                (* line 309 *)
| MsgTimedOut (target_index : Z)                    (* line 361 *)
| MsgHardReset                                      (* line 366 *)
| MsgSuccess (target_index successful_grasps : Z)   (* line 375 *)
| MsgFailed (target_index : Z)                      (* line 377 *)
| MsgWaitingForIdle                                 (* line 380 *)
| MsgIdleTimeoutWarning                             (* line 402 *)
| MsgResettingScene                                 (* line 408 *)
| MsgTaskCompleted (successful_grasps : Z)          (* lines 446-447 *)
| MsgKeyboardInterrupt                              (* line 450 *)
| MsgError (e : Exn)                                (* lines 452-454 *)
| MsgCleaningUp                                     (* line 459 *)
| MsgCleanupError (e : Exn)                         (* line 466 *)
| MsgExitedNormally.                                (* line 468 *)

(** ** The history *)

(** What the run looked like at the moment of an event: the world and the
    two counters. *)
Record Snapshot : Type := mkSnapshot {
  snap_world : W;
  snap_successful_grasps : Z;
  snap_total_runs : Z
}.

Inductive Event : Type :=
| EvCall (s : Snapshot) (A : Type) (c : Call A) (r : Reply A)
| EvPrint (s : Snapshot) (m : Message).

Definition ev_snapshot (ev : Event) : Snapshot :=
  match ev with
  | EvCall s _ _ => s
  | EvPrint s _ => s
  end.

(** ** The locals of [main] and the history, most recent event first *)
Record State : Type := mkState {
  world : W;
  trace : list Event;
  successful_grasps : Z;
  total_runs : Z;
  frame_count : Z;
  camera_controller : bool;            (* truthiness of camera_controller *)
  data_collection_manager : Local bool; (* bound to None, or to a manager *)
  simulation_app : Local unit
}.

Definition snapshot (st : State) : Snapshot :=
  mkSnapshot (world st) (successful_grasps st) (total_runs st).

Definition set_world (w : W) (st : State) : State :=
  mkState w (trace st) (successful_grasps st) (total_runs st) (frame_count st)
          (camera_controller st) (data_collection_manager st) (simulation_app st).

Definition log_event (ev : Event) (st : State) : State :=
  mkState (world st) (ev :: trace st) (successful_grasps st) (total_runs st)
          (frame_count st) (camera_controller st) (data_collection_manager st)
          (simulation_app st).

Definition set_successful_grasps (n : Z) (st : State) : State :=
  mkState (world st) (trace st) n (total_runs st) (frame_count st)
          (camera_controller st) (data_collection_manager st) (simulation_app st).

Definition set_total_runs (n : Z) (st : State) : State :=
  mkState (world st) (trace st) (successful_grasps st) n (frame_count st)
          (camera_controller st) (data_collection_manager st) (simulation_app st).

Definition set_frame_count (n : Z) (st : State) : State :=
  mkState (world st) (trace st) (successful_grasps st) (total_runs st) n
          (camera_controller st) (data_collection_manager st) (simulation_app st).

Definition set_camera_controller (b : bool) (st : State) : State :=
  mkState (world st) (trace st) (successful_grasps st) (total_runs st)
          (frame_count st) b (data_collection_manager st) (simulation_app st).

Definition set_data_collection_manager (l : Local bool) (st : State) : State :=
  mkState (world st) (trace st) (successful_grasps st) (total_runs st)
          (frame_count st) (camera_controller st) l (simulation_app st).

Definition set_simulation_app (l : Local unit) (st : State) : State :=
  mkState (world st) (trace st) (successful_grasps st) (total_runs st)
          (frame_count st) (camera_controller st) (data_collection_manager st) l.

(** ** The monad of the script *)
Definition M (A : Type) : Type := State -> Completion A * State.

Definition ret {A : Type} (a : A) : M A := fun st => (Normal a, st).

Definition bind {A B : Type} (m : M A) (k : A -> M B) : M B :=
  fun st =>
    match m st with
    | (Normal a, st') => k a st'
    | (Raised e, st') => (Raised e, st')
    | (Returned code, st') => (Returned code, st')
    | (OutOfFuel, st') => (OutOfFuel, st')
    end.

Notation "x <- m ;; k" := (bind m (fun x => k))
  (at level 61, m at next level, right associativity).
Notation "m ;; k" := (bind m (fun _ => k))
  (at level 61, right associativity).
Notation "' pat <- m ;; k" := (bind m (fun x => match x with pat => k end))
  (at level 61, pat pattern, m at next level, right associativity).

Definition raise {A : Type} (e : Exn) : M A := fun st => (Raised e, st).
Definition return_ {A : Type} (code : Z) : M A := fun st => (Returned code, st).
Definition out_of_fuel {A : Type} : M A := fun st => (OutOfFuel, st).

Definition get {A : Type} (f : State -> A) : M A := fun st => (Normal (f st), st).
Definition modify (f : State -> State) : M unit := fun st => (Normal tt, f st).

(** A method call: the handler answers from the current world, the call and
    its answer enter the history. *)
Definition call {A : Type} (c : Call A) : M A :=
  fun st =>
    let (r, w') := handle c (world st) in
    let st' := set_world w' (log_event (EvCall (snapshot st) c r) st) in
    match r with
    | Ok a => (Normal a, st')
    | Throw e => (Raised e, st')
    end.

Definition print (m : Message) : M unit :=
  fun st => (Normal tt, log_event (EvPrint (snapshot st) m) st).

(** [when b: m], an [if] without [else]. *)
Definition when (b : bool) (m : M unit) : M unit := if b then m else ret tt.

(** [for _ in range(n): body] *)
Fixpoint for_range (n : nat) (body : M unit) : M unit :=
  match n with
  | O => ret tt
  | S n' => body ;; for_range n' body
  end.

(** [while cond(v): v = body(v)] for a loop that carries one local [v]; the
    loop stops with [OutOfFuel] after [fuel] tests of the condition that came
    out true. *)
Fixpoint while_ {V : Type} (fuel : nat) (cond : V -> M bool) (body : V -> M V)
         (v : V) : M V :=
  b <- cond v ;;
  if b then
    match fuel with
    | O => out_of_fuel
    | S fuel' => v' <- body v ;; while_ fuel' cond body v'
    end
  else ret v.

(** [try: body except ...: handler]; [handler e] is [None] when no clause
    matches [e], which then propagates. *)
Definition try_except {A : Type} (body : M A) (handler : Exn -> option (M A))
  : M A :=
  fun st =>
    match body st with
    | (Raised e, st') =>
        match handler e with
        | Some h => h st'
        | None => (Raised e, st')
        end
    | other => other
    end.

(** [try: body finally: finalizer]: the finalizer runs however the body
    ended, and the body's completion stands unless the finalizer itself ends
    abruptly. *)
Definition try_finally {A : Type} (body : M A) (finalizer : M unit) : M A :=
  fun st =>
    match body st with
    | (OutOfFuel, st') => (OutOfFuel, st')
    | (c, st') =>
        match finalizer st' with
        | (Normal _, st'') => (c, st'')
        | (Raised e, st'') => (Raised e, st'')
        | (Returned code, st'') => (Returned code, st'')
        | (OutOfFuel, st'') => (OutOfFuel, st'')
        end
    end.

(** ** The per-tick update sequence, once per waiting phase

    The script spells the sequence out four times; each copy is embedded
    from its own lines. *)

(** WARMUP, lines 315-325. *)
Definition warmup_updates (headless : bool) : M unit :=
  current_joint_positions <- call get_joint_positions ;;
  '(ee_pos, ee_rot) <- call (compute_forward_kinematics "wrist_link"
                               (firstn 5 current_joint_positions)) ;;
  '(gripper_pos, gripper_rot) <- call (compute_forward_kinematics
                               "gripper_frame_link"
                               (firstn 5 current_joint_positions)) ;;
  let ik_data := (ee_pos, ee_rot, gripper_pos, gripper_rot) in
  fc <- get frame_count ;;
  call (update_calculations ik_data fc) ;;
  call state_machine_update ;;
  call execute_control ;;
  when (negb headless) (fc <- get frame_count ;; call (draw_visualizations fc)) ;;
  cam <- get camera_controller ;;
  when cam (call update_frame_count).

(** AWAIT_COMPLETION, lines 335-356. *)
Definition completion_updates (headless : bool) : M unit :=
  (* 1. Calculate IK and FK data *)
  current_joint_positions <- call get_joint_positions ;;
  '(ee_pos, ee_rot) <- call (compute_forward_kinematics "wrist_link"
                               (firstn 5 current_joint_positions)) ;;
  '(gripper_pos, gripper_rot) <- call (compute_forward_kinematics
                               "gripper_frame_link"
                               (firstn 5 current_joint_positions)) ;;
  let ik_data := (ee_pos, ee_rot, gripper_pos, gripper_rot) in
  (* 2. Always update visualization calculations *)
  fc <- get frame_count ;;
  call (update_calculations ik_data fc) ;;
  (* 3. Update state machine *)
  call state_machine_update ;;
  (* 4. Execute IK control *)
  call execute_control ;;
  (* 5. Draw visualizations if needed *)
  when (negb headless) (fc <- get frame_count ;; call (draw_visualizations fc)) ;;
  (* 6. Update cameras *)
  cam <- get camera_controller ;;
  when cam (call update_frame_count).

(** AWAIT_IDLE, lines 387-398. *)
Definition idle_updates (headless : bool) : M unit :=
  current_joint_positions <- call get_joint_positions ;;
  '(ee_pos, ee_rot) <- call (compute_forward_kinematics "wrist_link"
                               (firstn 5 current_joint_positions)) ;;
  '(gripper_pos, gripper_rot) <- call (compute_forward_kinematics
                               "gripper_frame_link"
                               (firstn 5 current_joint_positions)) ;;
  let ik_data := (ee_pos, ee_rot, gripper_pos, gripper_rot) in
  fc <- get frame_count ;;
  call (update_calculations ik_data fc) ;;
  call state_machine_update ;;
  call execute_control ;;
  when (negb headless) (fc <- get frame_count ;; call (draw_visualizations fc)) ;;
  cam <- get camera_controller ;;
  when cam (call update_frame_count).

(** The wait after RESET, lines 420-441. *)
Definition reset_updates (headless : bool) : M unit :=
  (* 1. Calculate IK and FK data *)
  current_joint_positions <- call get_joint_positions ;;
  '(ee_pos, ee_rot) <- call (compute_forward_kinematics "wrist_link"
                               (firstn 5 current_joint_positions)) ;;
  '(gripper_pos, gripper_rot) <- call (compute_forward_kinematics
                               "gripper_frame_link"
                               (firstn 5 current_joint_positions)) ;;
  let ik_data := (ee_pos, ee_rot, gripper_pos, gripper_rot) in
  (* 2. Always update visualization calculations *)
  fc <- get frame_count ;;
  call (update_calculations ik_data fc) ;;
  (* 3. Update state machine *)
  call state_machine_update ;;
  (* 4. Execute IK control *)
  call execute_control ;;
  (* 5. Draw visualizations if needed *)
  when (negb headless) (fc <- get frame_count ;; call (draw_visualizations fc)) ;;
  (* 6. Update cameras *)
  cam <- get camera_controller ;;
  when cam (call update_frame_count).

(** [frame_count += 1] *)
Definition incr_frame_count : M unit :=
  modify (fun st => set_frame_count (frame_count st + 1) st).

(** One iteration of each waiting loop: lines 311-325, 331-358, 384-399 and
    416-443.  The three [while] loops count their iterations in a local that
    the body increments last. *)
Definition warmup_tick (headless : bool) : M unit :=
  call (world_step (negb headless)) ;;
  incr_frame_count ;;
  playing <- call world_is_playing ;;
  when playing (warmup_updates headless).

Definition completion_tick (headless : bool) (step_count : Z) : M Z :=
  call (world_step (negb headless)) ;;
  incr_frame_count ;;
  playing <- call world_is_playing ;;
  when playing (completion_updates headless) ;;
  ret (step_count + 1).

Definition idle_tick (headless : bool) (idle_step_count : Z) : M Z :=
  call (world_step (negb headless)) ;;
  incr_frame_count ;;
  playing <- call world_is_playing ;;
  when playing (idle_updates headless) ;;
  ret (idle_step_count + 1).

Definition reset_tick (headless : bool) (step_count : Z) : M Z :=
  call (world_step (negb headless)) ;;
  incr_frame_count ;;
  playing <- call world_is_playing ;;
  when playing (reset_updates headless) ;;
  ret (step_count + 1).

(** ** The phases of one episode *)

(** [target_index = 1] (line 297) and [str(target_index)]. *)
Definition target_index : Z := 1.
Definition str_target_index : string := "1".

(** The budgets of the three waits: lines 328, 381 and 412. *)
Definition completion_timeout : Z := 60 * 60.
Definition idle_wait_timeout : Z := 60 * 5.
Definition reset_timeout : Z := 60 * 5.

(** [total_runs += 1] and [successful_grasps += 1] *)
Definition incr_total_runs : M unit :=
  modify (fun st => set_total_runs (total_runs st + 1) st).
Definition incr_successful_grasps : M unit :=
  modify (fun st => set_successful_grasps (successful_grasps st + 1) st).

(** TRIGGER, lines 302-305. *)
Definition trigger : M unit :=
  print (MsgAttempting target_index) ;;
  call (simulate_key_press str_target_index).

(** WARMUP, lines 309-325. *)
Definition warmup (headless : bool) : M unit :=
  print MsgWaitingForStart ;;
  for_range 10 (warmup_tick headless).

(** AWAIT_COMPLETION, lines 328-358; the result is the final [step_count]. *)
Definition await_completion (headless : bool) : M Z :=
  let step_timeout := completion_timeout in
  while_ (Z.to_nat step_timeout)
         (fun step_count =>
            busy <- call is_busy ;;
            ret (busy && (step_count <? step_timeout)))
         (completion_tick headless)
         0.

(** Lines 360-362. *)
Definition handle_timeout (step_count : Z) : M unit :=
  let step_timeout := completion_timeout in
  when (step_timeout <=? step_count)
       (print (MsgTimedOut target_index) ;;
        call fail_current_task).

(** Lines 372-377. *)
Definition record_outcome : M unit :=
  was_successful <- call get_last_attempt_status ;;
  if was_successful then
    incr_successful_grasps ;;
    n <- get successful_grasps ;;
    print (MsgSuccess target_index n)
  else
    print (MsgFailed target_index).

(** AWAIT_IDLE, lines 380-402. *)
Definition await_idle_loop (headless : bool) : M Z :=
  while_ (Z.to_nat idle_wait_timeout)
         (fun idle_step_count =>
            state <- call get_current_state ;;
            ret (negb (String.eqb state "IDLE")
                 && (idle_step_count <? idle_wait_timeout)))
         (idle_tick headless)
         0.

Definition await_idle (headless : bool) : M unit :=
  print MsgWaitingForIdle ;;
  idle_step_count <- await_idle_loop headless ;;
  when (idle_wait_timeout <=? idle_step_count) (print MsgIdleTimeoutWarning).

(** RESET, lines 407-443. *)
Definition reset_wait_loop (headless : bool) : M Z :=
  let step_timeout := reset_timeout in
  while_ (Z.to_nat step_timeout)
         (fun step_count =>
            state <- call get_current_state ;;
            ret (negb (String.eqb state "IDLE")
                 && (step_count <? step_timeout)))
         (reset_tick headless)
         0.

Definition reset_scene (headless : bool) : M unit :=
  print MsgResettingScene ;;
  call (simulate_key_press "r") ;;
  reset_wait_loop headless ;;
  ret tt.

(** EVALUATE onwards, lines 364-443: what follows the completion wait and
    its timeout handling. *)
Definition evaluate (headless : bool) (total_success_episodes : Z)
  : M LoopCtl :=
  hard_reset <- call get_and_clear_hard_reset_flag ;;
  if hard_reset then
    print MsgHardReset ;;
    call (simulate_key_press "r") ;;
    ret Next                                  (* continue *)
  else
    record_outcome ;;
    await_idle headless ;;
    n <- get successful_grasps ;;
    if total_success_episodes <=? n then ret Break
    else
      reset_scene headless ;;
      ret Next.

(** TRIGGER to the handling of the timeout, lines 302-362. *)
Definition attempt (headless : bool) : M unit :=
  trigger ;;
  warmup headless ;;
  step_count <- await_completion headless ;;
  handle_timeout step_count.

(** The body of the episode loop, lines 293-443. *)
Definition loop_body (headless : bool) (total_success_episodes : Z)
  : M LoopCtl :=
  incr_total_runs ;;
  t <- get total_runs ;;
  n <- get successful_grasps ;;
  print (MsgStartingRun t n total_success_episodes) ;;
  n <- get successful_grasps ;;
  if total_success_episodes <=? n then ret Break
  else
    attempt headless ;;
    evaluate headless total_success_episodes.

(** [while successful_grasps < total_success_episodes: ...], line 292.  The
    loop has no bound of its own: [fuel] bounds the number of episodes. *)
Fixpoint automated_loop (fuel : nat) (headless : bool)
         (total_success_episodes : Z) : M unit :=
  n <- get successful_grasps ;;
  if n <? total_success_episodes then
    match fuel with
    | O => out_of_fuel
    | S fuel' =>
        ctl <- loop_body headless total_success_episodes ;;
        match ctl with
        | Break => ret tt
        | Next => automated_loop fuel' headless total_success_episodes
        end
    end
  else ret tt.

(** Step 17, lines 271-447. *)
Definition collection_run (fuel : nat) (headless : bool)
           (total_success_episodes : Z) : M unit :=
  print MsgEnteringLoop ;;
  modify (set_successful_grasps 0) ;;
  modify (set_total_runs 0) ;;
  print MsgHidingDebug ;;
  call (simulate_key_press "v") ;;
  for_range 10 (call (world_step (negb headless))) ;;
  enabled <- call debug_visualizer_is_enabled ;;
  (if enabled then print MsgDebugStillVisible else print MsgDebugDisabled) ;;
  modify (set_frame_count 0) ;;
  automated_loop fuel headless total_success_episodes ;;
  n <- get successful_grasps ;;
  print (MsgTaskCompleted n).

(** ** Set-up, handlers and clean-up of [main] *)

(** Steps 1-16, lines 57-268.  The calls are grouped into stages; what is
    kept apart is what binds [simulation_app] (line 65), the [raise] of
    line 132, the inner [try] around the camera controller (lines 189-196)
    and the two assignments of [data_collection_manager] (lines 222-232). *)
Definition setup (enable_data_collection : bool) : M unit :=
  call (setup_stage LoadConfiguration) ;;
  call start_simulation ;;
  modify (set_simulation_app (Bound tt)) ;;
  call (setup_stage BuildWorldAndScene) ;;
  robot <- call scene_get_robot ;;
  (if robot then ret tt else raise (RuntimeError "Robot object not found")) ;;
  call (setup_stage InitControllers) ;;
  modify (set_camera_controller false) ;;
  try_except
    (call create_camera_controller ;;
     modify (set_camera_controller true))
    (fun e => if is_Exception e
              then Some (modify (set_camera_controller false))
              else None) ;;
  call (setup_stage ConnectSystems) ;;
  modify (set_data_collection_manager (Bound false)) ;;
  when enable_data_collection
       (call create_data_collection_manager ;;
        modify (set_data_collection_manager (Bound true))) ;;
  call (setup_stage InitStateMachine).

(** The [finally] block, lines 457-466. *)
Definition cleanup : M unit :=
  print MsgCleaningUp ;;
  try_except
    (manager <- get data_collection_manager ;;
     match manager with
     | Unbound => raise (UnboundLocalError "data_collection_manager")
     | Bound true => call data_collection_manager_close
     | Bound false => ret tt
     end ;;
     app <- get simulation_app ;;
     match app with
     | Bound _ => call simulation_app_close  (* 'simulation_app' in locals() *)
     | Unbound => ret tt
     end)
    (fun e => if is_Exception e
              then Some (print (MsgCleanupError e))
              else None).

(** The [try] statement of [main] and what follows it, lines 55-469. *)
Definition main (fuel : nat) (enable_data_collection headless : bool)
           (total_success_episodes : Z) : M unit :=
  try_finally
    (try_except
       (setup enable_data_collection ;;
        collection_run fuel headless total_success_episodes)
       (fun e =>
          match e with
          | KeyboardInterrupt => Some (print MsgKeyboardInterrupt)
          | _ => if is_Exception e
                 then Some (print (MsgError e) ;; return_ 1)
                 else None
          end))
    cleanup ;;
  print MsgExitedNormally ;;
  return_ 0.

(** The locals before line 55: nothing is bound and nothing has happened. *)
Definition initial_state (w : W) : State :=
  mkState w [] 0 0 0 false Unbound Unbound.

(** ** Reading the history

    An event is observed through the kind of the call (or the printed line)
    and through what was answered. *)
Inductive Kind : Type :=
| KKeyPress (key : string)
| KWorldStep
| KIsPlaying
| KGetJointPositions
| KForwardKinematics (frame_name : string)
| KUpdateCalculations
| KStateMachineUpdate
| KExecuteControl
| KDrawVisualizations
| KUpdateFrameCount
| KIsBusy
| KFailCurrentTask
| KGetAndClearHardResetFlag
| KGetLastAttemptStatus
| KGetCurrentState
| KDebugIsEnabled
| KSetup
| KCloseManager
| KCloseApp
| KPrint (m : Message).

Inductive Answer : Type :=
| ABool (b : bool)
| AString (s : string)
| ADone
| AThrow (e : Exn).

Definition kind_of_call {A : Type} (c : Call A) : Kind :=
  match c with
  | simulate_key_press key => KKeyPress key
  | world_step _ => KWorldStep
  | world_is_playing => KIsPlaying
  | get_joint_positions => KGetJointPositions
  | compute_forward_kinematics frame_name _ => KForwardKinematics frame_name
  | update_calculations _ _ => KUpdateCalculations
  | state_machine_update => KStateMachineUpdate
  | execute_control => KExecuteControl
  | draw_visualizations _ => KDrawVisualizations
  | update_frame_count => KUpdateFrameCount
  | is_busy => KIsBusy
  | fail_current_task => KFailCurrentTask
  | get_and_clear_hard_reset_flag => KGetAndClearHardResetFlag
  | get_last_attempt_status => KGetLastAttemptStatus
  | get_current_state => KGetCurrentState
  | debug_visualizer_is_enabled => KDebugIsEnabled
  | setup_stage _ | start_simulation | scene_get_robot
  | create_camera_controller | create_data_collection_manager => KSetup
  | data_collection_manager_close => KCloseManager
  | simulation_app_close => KCloseApp
  end.

Definition answer_of_bool (r : Reply bool) : Answer :=
  match r with Ok b => ABool b | Throw e => AThrow e end.
Definition answer_of_string (r : Reply string) : Answer :=
  match r with Ok s => AString s | Throw e => AThrow e end.
Definition answer_of_any {A : Type} (r : Reply A) : Answer :=
  match r with Ok _ => ADone | Throw e => AThrow e end.

Definition answer_of_call {A : Type} (c : Call A) : Reply A -> Answer :=
  match c in Call T return Reply T -> Answer with
  | world_is_playing => answer_of_bool
  | is_busy => answer_of_bool
  | get_and_clear_hard_reset_flag => answer_of_bool
  | get_last_attempt_status => answer_of_bool
  | debug_visualizer_is_enabled => answer_of_bool
  | scene_get_robot => answer_of_bool
  | get_current_state => answer_of_string
  | _ => answer_of_any
  end.

Definition kind (ev : Event) : Kind :=
  match ev with
  | EvCall _ c _ => kind_of_call c
  | EvPrint _ m => KPrint m
  end.

Definition answer (ev : Event) : Answer :=
  match ev with
  | EvCall _ c r => answer_of_call c r
  | EvPrint _ _ => ADone
  end.

Definition is_throw (ev : Event) : bool :=
  match answer ev with AThrow _ => true | _ => false end.

Definition is_step (ev : Event) : bool :=
  match kind ev with KWorldStep => true | _ => false end.

Definition is_fail (ev : Event) : bool :=
  match kind ev with KFailCurrentTask => true | _ => false end.

Definition is_status_read (ev : Event) : bool :=
  match kind ev with KGetLastAttemptStatus => true | _ => false end.

Definition is_flag_read (ev : Event) : bool :=
  match kind ev with KGetAndClearHardResetFlag => true | _ => false end.

Definition is_key_press (ev : Event) : bool :=
  match kind ev with KKeyPress _ => true | _ => false end.

(** The select-target key of TRIGGER. *)
Definition is_trigger (ev : Event) : bool :=
  match kind ev with
  | KKeyPress key => String.eqb key str_target_index
  | _ => false
  end.

Definition is_busy_poll (ev : Event) : bool :=
  match kind ev with KIsBusy => true | _ => false end.

Definition is_state_poll (ev : Event) : bool :=
  match kind ev with KGetCurrentState => true | _ => false end.

Definition is_print (ev : Event) : bool :=
  match kind ev with KPrint _ => true | _ => false end.

Definition is_warning (ev : Event) : bool :=
  match kind ev with
  | KPrint MsgIdleTimeoutWarning => true
  | _ => false
  end.

(** A busy poll that found the state machine idle. *)
Definition reported_idle (ev : Event) : bool :=
  match kind ev, answer ev with
  | KIsBusy, ABool false => true
  | _, _ => false
  end.

(** A read of the critical-failure flag that found it set. *)
Definition flag_was_set (ev : Event) : bool :=
  match kind ev, answer ev with
  | KGetAndClearHardResetFlag, ABool true => true
  | _, _ => false
  end.

(** The calls of the per-tick routine: the step, the running test and the
    update sequence. *)
Definition is_tick_call (ev : Event) : bool :=
  match kind ev with
  | KWorldStep | KIsPlaying | KGetJointPositions | KForwardKinematics _
  | KUpdateCalculations | KStateMachineUpdate | KExecuteControl
  | KDrawVisualizations | KUpdateFrameCount => true
  | _ => false
  end.

Definition count (p : Event -> bool) (evs : list Event) : Z :=
  Z.of_nat (List.length (filter p evs)).

(** The symbolic state a poll would be answered with in a world. *)
Definition symbolic_state (w : W) : Answer :=
  answer_of_string (fst (handle get_current_state w)).

(** The outcome of its last attempt that the state machine would report in
    a world. *)
Definition reported_outcome (w : W) : Answer :=
  answer_of_bool (fst (handle get_last_attempt_status w)).

(** A busy poll that found the state machine idle, made in a world in
    which the state machine reports its last attempt as a success. *)
Definition idle_with_success (ev : Event) : bool :=
  reported_idle ev &&
  match reported_outcome (snap_world (ev_snapshot ev)) with
  | ABool true => true
  | _ => false
  end.

(** A read of the last-attempt outcome that was not answered with a
    success. *)
Definition reported_failure (ev : Event) : bool :=
  match kind ev, answer ev with
  | KGetLastAttemptStatus, ABool true => false
  | KGetLastAttemptStatus, _ => true
  | _, _ => false
  end.

(** The counters as an event saw them. *)
Definition counters_at (ev : Event) : Z * Z :=
  (snap_successful_grasps (ev_snapshot ev), snap_total_runs (ev_snapshot ev)).

Definition counters (st : State) : Z * Z :=
  (successful_grasps st, total_runs st).

(** ** Specifications of pieces of the script *)

(** The locals that only the episode loop itself and the set-up assign. *)
Definition same_locals (st st' : State) : Prop :=
  successful_grasps st' = successful_grasps st /\
  total_runs st' = total_runs st /\
  camera_controller st' = camera_controller st /\
  data_collection_manager st' = data_collection_manager st /\
  simulation_app st' = simulation_app st.

(** [runs m allowed Q]: from any state, [m] only appends events to the
    history, all of them [allowed] and all of them seeing the counters of the
    initial state; it leaves the locals above alone; it ends normally without
    any call having thrown and then [Q] holds of its value and of the events
    it appended, or it ends with the exception that its last call threw. *)
Definition runs {A : Type} (m : M A) (allowed : Event -> bool)
           (Q : A -> list Event -> Prop) : Prop :=
  forall st, exists evs,
    trace (snd (m st)) = evs ++ trace st /\
    same_locals st (snd (m st)) /\
    Forall (fun ev => allowed ev = true /\ counters_at ev = counters st) evs /\
    match fst (m st) with
    | Normal a => existsb is_throw evs = false /\ Q a evs
    | Raised e => exists ev rest, evs = ev :: rest /\ answer ev = AThrow e
    | Returned _ => False
    | OutOfFuel => False
    end.

Definition quiet {A : Type} (m : M A) (allowed : Event -> bool) : Prop :=
  runs m allowed (fun _ _ => True).

(** The events of [n] rounds of a [for] loop, each round satisfying [Qb]. *)
Inductive blocks (Qb : list Event -> Prop) : nat -> list Event -> Prop :=
| blocks_O : blocks Qb O []
| blocks_S : forall n b rest,
    Qb b -> blocks Qb n rest -> blocks Qb (S n) (rest ++ b).

(** The events of a bounded wait that started with its counter at [v] and
    ended with it at [vf]: polls that pass (the awaited condition does not
    hold yet) alternate with ticks, until a poll does not pass or the budget
    [T] is used up. *)
Inductive wait_trace (is_poll passes : Event -> bool)
          (Qt : list Event -> Prop) (T : Z) : Z -> Z -> list Event -> Prop :=
| wait_stop : forall v ev,
    is_poll ev = true ->
    passes ev && (v <? T) = false ->
    wait_trace is_poll passes Qt T v v [ev]
| wait_step : forall v vf ev tick_evs rest,
    is_poll ev = true ->
    passes ev = true ->
    v < T ->
    Qt tick_evs ->
    wait_trace is_poll passes Qt T (v + 1) vf rest ->
    wait_trace is_poll passes Qt T v vf (rest ++ tick_evs ++ [ev]).

(** What the polls of the two kinds of wait let pass. *)
Definition still_busy (ev : Event) : bool :=
  match answer ev with ABool true => true | _ => false end.

Definition not_yet_idle (ev : Event) : bool :=
  match answer ev with
  | AString s => negb (String.eqb s "IDLE")
  | _ => false
  end.

(** The calls of the update sequence proper. *)
Definition is_update_call (ev : Event) : bool :=
  is_tick_call ev && negb (is_step ev).

(** What one tick appends: one step, then calls of the routine only. *)
Definition one_tick (evs : list Event) : Prop :=
  count is_step evs = 1 /\ Forall (fun ev => is_tick_call ev = true) evs.

(** The events of the two kinds of wait. *)
Definition in_completion_wait (ev : Event) : bool :=
  is_tick_call ev || is_busy_poll ev.

Definition in_idle_wait (ev : Event) : bool :=
  is_tick_call ev || is_state_poll ev.

(** The events of the phases of an episode. *)
Definition is_attempt_event (ev : Event) : bool :=
  in_completion_wait ev ||
  match kind ev with
  | KKeyPress key => String.eqb key str_target_index
  | KPrint (MsgAttempting _) => true
  | KPrint MsgWaitingForStart => true
  | KPrint (MsgTimedOut _) => true
  | KFailCurrentTask => true
  | _ => false
  end.

Definition is_idle_event (ev : Event) : bool :=
  in_idle_wait ev ||
  match kind ev with
  | KPrint MsgWaitingForIdle => true
  | KPrint MsgIdleTimeoutWarning => true
  | _ => false
  end.

Definition is_reset_event (ev : Event) : bool :=
  in_idle_wait ev ||
  match kind ev with
  | KKeyPress key => String.eqb key "r"
  | KPrint MsgResettingScene => true
  | _ => false
  end.

(** What lines 360-362 append after a completion wait that ended with
    [step_count = vf]. *)
Definition timeout_tail (vf : Z) (tail : list Event) : Prop :=
  if completion_timeout <=? vf
  then exists sa sb,
      tail = [EvCall sa fail_current_task (Ok tt);
              EvPrint sb (MsgTimedOut target_index)]
  else tail = [].

(** The events of an attempt that ran to its end, most recent first: the
    handling of the timeout, the completion wait, the ten warm-up ticks and
    the trigger. *)
Definition attempt_shape (evs : list Event) : Prop :=
  exists tail wait warm s0 s1 s2 vf,
    evs = tail ++ wait ++ warm ++
          [EvPrint s2 MsgWaitingForStart;
           EvCall s1 (simulate_key_press str_target_index) (Ok tt);
           EvPrint s0 (MsgAttempting target_index)] /\
    blocks one_tick 10 warm /\
    wait_trace is_busy_poll still_busy one_tick completion_timeout 0 vf wait /\
    timeout_tail vf tail.

(** The events of AWAIT_IDLE: the wait, and the warning when the budget was
    used up. *)
Definition idle_shape (evs : list Event) : Prop :=
  exists warning wait s0 vf,
    evs = warning ++ wait ++ [EvPrint s0 MsgWaitingForIdle] /\
    wait_trace is_state_poll not_yet_idle one_tick idle_wait_timeout 0 vf wait /\
    (if idle_wait_timeout <=? vf
     then exists s1, warning = [EvPrint s1 MsgIdleTimeoutWarning]
     else warning = []).

(** The events of RESET: the reset key and the wait. *)
Definition reset_shape (evs : list Event) : Prop :=
  exists wait s0 s1 vf,
    evs = wait ++ [EvCall s1 (simulate_key_press "r") (Ok tt);
                   EvPrint s0 MsgResettingScene] /\
    wait_trace is_state_poll not_yet_idle one_tick reset_timeout 0 vf wait.

(** The calls of the per-tick update sequence, in the order of the script:
    the two forward-kinematics computations on the joint positions, the
    visualization calculations, the state machine, the IK control, the
    drawing unless headless, the camera bookkeeping if there is a camera
    controller. *)
Definition update_sequence (headless camera : bool) : list Kind :=
  [KGetJointPositions;
   KForwardKinematics "wrist_link";
   KForwardKinematics "gripper_frame_link";
   KUpdateCalculations;
   KStateMachineUpdate;
   KExecuteControl]
  ++ (if headless then [] else [KDrawVisualizations])
  ++ (if camera then [KUpdateFrameCount] else []).

(** The events appended between two states of one run, most recent first:
    the history only grows. *)
Definition new_events (st st' : State) : list Event :=
  firstn (List.length (trace st') - List.length (trace st)) (trace st').

(** The events of EVALUATE and of what follows it. *)
Definition is_post_event (ev : Event) : bool :=
  is_idle_event ev || is_reset_event ev ||
  match kind ev with
  | KGetAndClearHardResetFlag => true
  | KGetLastAttemptStatus => true
  | KPrint MsgHardReset => true
  | KPrint (MsgSuccess _ _) => true
  | KPrint (MsgFailed _) => true
  | _ => false
  end.

(** ** The ways one episode can go *)

(** All events of [evs] saw the counters [c]. *)
Definition stamped (c : Z * Z) (evs : list Event) : Prop :=
  Forall (fun ev => counters_at ev = c) evs.

(** An event of the given kind and answer that saw the counters [c]. *)
Definition observed (ev : Event) (k : Kind) (a : Answer) (c : Z * Z) : Prop :=
  kind ev = k /\ answer ev = a /\ counters_at ev = c.

(** A phase that ended by the exception [e] of its last call. *)
Definition aborted (allowed : Event -> bool) (c : Z * Z) (e : Exn)
           (evs : list Event) : Prop :=
  stamped c evs /\
  Forall (fun ev => allowed ev = true) evs /\
  exists ev rest, evs = ev :: rest /\ answer ev = AThrow e.

(** A phase that ran to its end. *)
Definition completed (allowed : Event -> bool) (shape : list Event -> Prop)
           (c : Z * Z) (evs : list Event) : Prop :=
  stamped c evs /\
  Forall (fun ev => allowed ev = true) evs /\
  existsb is_throw evs = false /\
  shape evs.

(** The events of an attempt, however it ended, begin with the line of
    line 302 and the select-target key. *)
Definition triggered (att : list Event) : Prop :=
  exists rest key msg,
    att = rest ++ [key; msg] /\
    is_trigger key = true /\
    kind msg = KPrint (MsgAttempting target_index).

(** AWAIT_IDLE and RESET after an outcome was recorded, with the counters at
    [(s, t)] and the quota at [Q]: how they end and what they append. *)
Inductive conclusion (Q s t : Z) : Completion LoopCtl -> list Event -> Prop :=
| concl_idle_raised : forall e idle,
    aborted is_idle_event (s, t) e idle ->
    conclusion Q s t (Raised e) idle
| concl_break : forall idle,
    completed is_idle_event idle_shape (s, t) idle ->
    Q <= s ->
    conclusion Q s t (Normal Break) idle
| concl_reset_raised : forall e idle reset,
    completed is_idle_event idle_shape (s, t) idle ->
    s < Q ->
    aborted is_reset_event (s, t) e reset ->
    conclusion Q s t (Raised e) (reset ++ idle)
| concl_next : forall idle reset,
    completed is_idle_event idle_shape (s, t) idle ->
    s < Q ->
    completed is_reset_event reset_shape (s, t) reset ->
    conclusion Q s t (Normal Next) (reset ++ idle).

(** One run of the loop body entered with [successful_grasps = s] and left
    with [successful_grasps = s'], [t] being [total_runs] after its
    increment: how it ends and what it appends, most recent event first. *)
Inductive episode (Q s t : Z) : Completion LoopCtl -> Z -> list Event -> Prop :=
| ep_quota_met : forall start,
    observed start (KPrint (MsgStartingRun t s Q)) ADone (s, t) ->
    Q <= s ->
    episode Q s t (Normal Break) s [start]
| ep_attempt_raised : forall e start att,
    observed start (KPrint (MsgStartingRun t s Q)) ADone (s, t) ->
    s < Q ->
    aborted is_attempt_event (s, t) e att ->
    triggered att ->
    episode Q s t (Raised e) s (att ++ [start])
| ep_flag_raised : forall e start att flag,
    observed start (KPrint (MsgStartingRun t s Q)) ADone (s, t) ->
    s < Q ->
    completed is_attempt_event attempt_shape (s, t) att ->
    observed flag KGetAndClearHardResetFlag (AThrow e) (s, t) ->
    episode Q s t (Raised e) s (flag :: att ++ [start])
| ep_void : forall start att flag msg key,
    observed start (KPrint (MsgStartingRun t s Q)) ADone (s, t) ->
    s < Q ->
    completed is_attempt_event attempt_shape (s, t) att ->
    observed flag KGetAndClearHardResetFlag (ABool true) (s, t) ->
    observed msg (KPrint MsgHardReset) ADone (s, t) ->
    observed key (KKeyPress "r") ADone (s, t) ->
    episode Q s t (Normal Next) s (key :: msg :: flag :: att ++ [start])
| ep_void_raised : forall e start att flag msg key,
    observed start (KPrint (MsgStartingRun t s Q)) ADone (s, t) ->
    s < Q ->
    completed is_attempt_event attempt_shape (s, t) att ->
    observed flag KGetAndClearHardResetFlag (ABool true) (s, t) ->
    observed msg (KPrint MsgHardReset) ADone (s, t) ->
    observed key (KKeyPress "r") (AThrow e) (s, t) ->
    episode Q s t (Raised e) s (key :: msg :: flag :: att ++ [start])
| ep_status_raised : forall e start att flag status,
    observed start (KPrint (MsgStartingRun t s Q)) ADone (s, t) ->
    s < Q ->
    completed is_attempt_event attempt_shape (s, t) att ->
    observed flag KGetAndClearHardResetFlag (ABool false) (s, t) ->
    observed status KGetLastAttemptStatus (AThrow e) (s, t) ->
    episode Q s t (Raised e) s (status :: flag :: att ++ [start])
| ep_evaluated : forall c start att flag status was_successful s' verdict tail,
    observed start (KPrint (MsgStartingRun t s Q)) ADone (s, t) ->
    s < Q ->
    completed is_attempt_event attempt_shape (s, t) att ->
    observed flag KGetAndClearHardResetFlag (ABool false) (s, t) ->
    observed status KGetLastAttemptStatus (ABool was_successful) (s, t) ->
    s' = (if was_successful then s + 1 else s) ->
    observed verdict
             (KPrint (if was_successful
                      then MsgSuccess target_index s'
                      else MsgFailed target_index))
             ADone (s', t) ->
    conclusion Q s' t c tail ->
    episode Q s t c s' (tail ++ verdict :: status :: flag :: att ++ [start]).

(** ** Triggers and the symbolic state *)

Definition is_idle_answer (a : Answer) : bool :=
  match a with
  | AString s => String.eqb s "IDLE"
  | _ => false
  end.

(** The select-target key pressed in a world whose symbolic state is not
    IDLE. *)
Definition trigger_off_idle (ev : Event) : bool :=
  is_trigger ev &&
  negb (is_idle_answer (symbolic_state (snap_world (ev_snapshot ev)))).

(** No trigger of the history was emitted while the symbolic state was other
    than IDLE. *)
Definition triggers_only_when_idle (tr : list Event) : Prop :=
  Forall (fun ev => is_trigger ev = true ->
                    symbolic_state (snap_world (ev_snapshot ev))
                    = AString "IDLE") tr.

(** The most recent events, back to the first one that satisfies [p]. *)
Fixpoint newest_until (p : Event -> bool) (evs : list Event) : list Event :=
  match evs with
  | [] => []
  | ev :: rest => if p ev then [] else ev :: newest_until p rest
  end.

Definition is_reset_key (ev : Event) : bool :=
  match kind ev with
  | KKeyPress key => String.eqb key "r"
  | _ => false
  end.

Definition is_idle_poll (ev : Event) : bool :=
  is_state_poll ev && is_idle_answer (answer ev).

(** A call of [fail_current_task] that came, after one printed line, right
    after a poll of [is_busy] that had found the state machine idle. *)
Fixpoint force_failed_idle (evs : list Event) : bool :=
  match evs with
  | [] => false
  | ev :: rest =>
      (is_fail ev &&
       match rest with
       | _ :: poll :: _ => reported_idle poll
       | _ => false
       end)
      || force_failed_idle rest
  end.

Definition is_close_app (ev : Event) : bool :=
  match kind ev with KCloseApp => true | _ => false end.

(** ** The counters along a run *)

(** The counters at every point of the run so far, most recent first: the
    current ones, then those every event saw. *)
Definition counter_history (st : State) : list (Z * Z) :=
  counters st :: map counters_at (trace st).

(** [0 <= successful_grasps <= total_runs] *)
Definition in_range (c : Z * Z) : Prop := 0 <= fst c <= snd c.

(** From one point to the next each counter stays or goes up by one. *)
Definition one_step (newer older : Z * Z) : Prop :=
  (fst newer = fst older \/ fst newer = fst older + 1) /\
  (snd newer = snd older \/ snd newer = snd older + 1).

Inductive steady : list (Z * Z) -> Prop :=
| steady_nil : steady []
| steady_one : forall c, steady [c]
| steady_cons : forall newer older rest,
    one_step newer older ->
    steady (older :: rest) ->
    steady (newer :: older :: rest).

(** A property of the counters and of the history that survives any event
    that sees the current counters. *)
Definition extensible (R : Z * Z -> list Event -> Prop) : Prop :=
  forall c tr ev, R c tr -> counters_at ev = c -> R c (ev :: tr).

Definition lifted (R : Z * Z -> list Event -> Prop) (st : State) : Prop :=
  R (counters st) (trace st).

(** [m] keeps [P], however it ends. *)
Definition keeps (P : State -> Prop) {A : Type} (m : M A) : Prop :=
  forall st, P st -> P (snd (m st)).

(** [m] takes the states of [P] to states of [P'], however it ends. *)
Definition leads (P P' : State -> Prop) {A : Type} (m : M A) : Prop :=
  forall st, P st -> P' (snd (m st)).

(** Before the episode loop both counters are zero and no event has seen
    anything else. *)
Definition at_zero (c : Z * Z) (tr : list Event) : Prop :=
  c = (0, 0) /\ Forall (fun ev => counters_at ev = (0, 0)) tr.

(** From the loop on: the counters are in range and change by single
    increments, and the most recent event has seen the current ones. *)
Definition in_step (c : Z * Z) (tr : list Event) : Prop :=
  Forall in_range (c :: map counters_at tr) /\
  steady (c :: map counters_at tr) /\
  match tr with
  | [] => True
  | ev :: _ => counters_at ev = c
  end.

(** The exit status of the process: what [main] returns, if it returns. *)
Definition exit_code (c : Completion unit) : option Z :=
  match c with
  | Returned code => Some code
  | _ => None
  end.

End Orchestrator.

Arguments simulate_key_press {J Pos Rot} key.
Arguments world_step {J Pos Rot} render.
Arguments world_is_playing {J Pos Rot}.
Arguments get_joint_positions {J Pos Rot}.
Arguments compute_forward_kinematics {J Pos Rot} frame_name joint_positions.
Arguments update_calculations {J Pos Rot} ik_data frame_count.
Arguments state_machine_update {J Pos Rot}.
Arguments execute_control {J Pos Rot}.
Arguments draw_visualizations {J Pos Rot} frame_count.
Arguments update_frame_count {J Pos Rot}.
Arguments is_busy {J Pos Rot}.
Arguments fail_current_task {J Pos Rot}.
Arguments get_and_clear_hard_reset_flag {J Pos Rot}.
Arguments get_last_attempt_status {J Pos Rot}.
Arguments get_current_state {J Pos Rot}.
Arguments debug_visualizer_is_enabled {J Pos Rot}.
Arguments setup_stage {J Pos Rot} s.
Arguments start_simulation {J Pos Rot}.
Arguments scene_get_robot {J Pos Rot}.
Arguments create_camera_controller {J Pos Rot}.
Arguments create_data_collection_manager {J Pos Rot}.
Arguments data_collection_manager_close {J Pos Rot}.
Arguments simulation_app_close {J Pos Rot}.
Arguments initial_state {W J Pos Rot} w.
Arguments EvCall {W J Pos Rot} s {A} c r.
Arguments EvPrint {W J Pos Rot} s m.
Arguments ret {W J Pos Rot A} a _.
Arguments bind {W J Pos Rot A B} m k _.
Arguments print {W J Pos Rot} m _.
Arguments get {W J Pos Rot A} f _.
Arguments modify {W J Pos Rot} f _.

Arguments kind {W J Pos Rot} _.
Arguments answer {W J Pos Rot} _.
Arguments is_throw {W J Pos Rot} _.
Arguments is_step {W J Pos Rot} _.
Arguments is_fail {W J Pos Rot} _.
Arguments is_status_read {W J Pos Rot} _.
Arguments is_flag_read {W J Pos Rot} _.
Arguments is_key_press {W J Pos Rot} _.
Arguments is_trigger {W J Pos Rot} _.
Arguments is_busy_poll {W J Pos Rot} _.
Arguments is_state_poll {W J Pos Rot} _.
Arguments is_print {W J Pos Rot} _.
Arguments is_warning {W J Pos Rot} _.
Arguments reported_idle {W J Pos Rot} _.
Arguments flag_was_set {W J Pos Rot} _.
Arguments reported_failure {W J Pos Rot} _.
Arguments is_tick_call {W J Pos Rot} _.
Arguments still_busy {W J Pos Rot} _.
Arguments not_yet_idle {W J Pos Rot} _.
Arguments counters_at {W J Pos Rot} _.
Arguments counters {W J Pos Rot} _.
Arguments ev_snapshot {W J Pos Rot} _.
Arguments is_update_call {W J Pos Rot} _.
Arguments in_completion_wait {W J Pos Rot} _.
Arguments in_idle_wait {W J Pos Rot} _.
Arguments is_attempt_event {W J Pos Rot} _.
Arguments is_idle_event {W J Pos Rot} _.
Arguments is_reset_event {W J Pos Rot} _.
Arguments one_tick {W J Pos Rot} _.
Arguments attempt_shape {W J Pos Rot} _.
Arguments idle_shape {W J Pos Rot} _.
Arguments reset_shape {W J Pos Rot} _.
Arguments timeout_tail {W J Pos Rot} vf tail.
Arguments stamped {W J Pos Rot} c evs.
Arguments observed {W J Pos Rot} ev k a c.
Arguments aborted {W J Pos Rot} allowed c e evs.
Arguments completed {W J Pos Rot} allowed shape c evs.
Arguments triggered {W J Pos Rot} att.
Arguments extensible {W J Pos Rot} R.
Arguments lifted {W J Pos Rot} R st.
Arguments keeps {W J Pos Rot} P {A} m.
Arguments leads {W J Pos Rot} P P' {A} m.
Arguments at_zero {W J Pos Rot} c tr.
Arguments in_step {W J Pos Rot} c tr.
Arguments is_idle_poll {W J Pos Rot} _.
Arguments is_reset_key {W J Pos Rot} _.
Arguments is_close_app {W J Pos Rot} _.
Arguments force_failed_idle {W J Pos Rot} _.
Arguments newest_until {W J Pos Rot} p evs.
Arguments counter_history {W J Pos Rot} st.
Arguments is_post_event {W J Pos Rot} _.
Arguments raise {W J Pos Rot A} e _.
Arguments incr_frame_count {W J Pos Rot} _.
Arguments incr_total_runs {W J Pos Rot} _.
Arguments incr_successful_grasps {W J Pos Rot} _.
Arguments return_ {W J Pos Rot A} code _.
Arguments out_of_fuel {W J Pos Rot A} _.

Notation "x <- m ;; k" := (bind m (fun x => k))
  (at level 61, m at next level, right associativity).
Notation "m ;; k" := (bind m (fun _ => k))
  (at level 61, right associativity).

(** ** A scripted state machine

    A stand-in for the collaborators, built to the contract the script relies
    on: a trigger starts the next planned task, the task ends after a planned
    number of updates with a planned outcome, and a scene reset keeps the
    symbolic state away from IDLE for a fixed number of updates. *)
Module Mock.

Record Plan : Type := mkPlan {
  duration : nat;      (* updates until the task ends *)
  succeeds : bool;     (* its outcome *)
  hard_reset : bool;   (* whether it ends by raising the critical flag *)
  settle : nat         (* updates from the end of the task back to IDLE *)
}.

Record World : Type := mkWorld {
  plans : list Plan;        (* the tasks still to be triggered *)
  current : Plan;
  busy : bool;
  countdown : nat;          (* updates left in the running task *)
  state : string;           (* the symbolic state *)
  state_countdown : nat;    (* updates left before the state is IDLE again *)
  last_status : bool;
  hard_flag : bool;
  reset_ticks : nat;        (* updates a scene reset takes *)
  playing : bool;
  robot_found : bool;
  fault : option (nat * Exn) (* [world.step] throws after that many steps *)
}.

Definition press (key : string) (w : World) : World :=
  if String.eqb key "r" then
    mkWorld (plans w) (current w) (busy w) (countdown w)
            (if Nat.eqb (reset_ticks w) 0 then "IDLE" else "RESETTING")
            (reset_ticks w) (last_status w) (hard_flag w) (reset_ticks w)
            (playing w) (robot_found w) (fault w)
  else if String.eqb key "1" then
    match plans w with
    | p :: ps =>
        mkWorld ps p true (duration p) "GRASPING" 0 (last_status w)
                (hard_flag w) (reset_ticks w) (playing w) (robot_found w)
                (fault w)
    | [] => w
    end
  else w.

Definition update (w : World) : World :=
  if busy w then
    if Nat.leb (countdown w) 1 then
      mkWorld (plans w) (current w) false 0
              (if Nat.eqb (settle (current w)) 0 then "IDLE" else "RETURNING")
              (settle (current w)) (succeeds (current w))
              (hard_reset (current w)) (reset_ticks w) (playing w)
              (robot_found w) (fault w)
    else
      mkWorld (plans w) (current w) true (pred (countdown w)) (state w)
              (state_countdown w) (last_status w) (hard_flag w)
              (reset_ticks w) (playing w) (robot_found w) (fault w)
  else
    match state_countdown w with
    | O => w
    | S n =>
        mkWorld (plans w) (current w) false (countdown w)
                (if Nat.eqb n 0 then "IDLE" else state w) n (last_status w)
                (hard_flag w) (reset_ticks w) (playing w) (robot_found w)
                (fault w)
    end.

Definition fail (w : World) : World :=
  mkWorld (plans w) (current w) false 0 "IDLE" 0 false (hard_flag w)
          (reset_ticks w) (playing w) (robot_found w) (fault w).

Definition clear_flag (w : World) : World :=
  mkWorld (plans w) (current w) (busy w) (countdown w) (state w)
          (state_countdown w) (last_status w) false (reset_ticks w)
          (playing w) (robot_found w) (fault w).

Definition step (w : World) : Reply unit * World :=
  match fault w with
  | Some (O, e) => (Throw e, w)
  | Some (S n, e) =>
      (Ok tt,
       mkWorld (plans w) (current w) (busy w) (countdown w) (state w)
               (state_countdown w) (last_status w) (hard_flag w)
               (reset_ticks w) (playing w) (robot_found w) (Some (n, e)))
  | None => (Ok tt, w)
  end.

Definition handle (A : Type) (c : Call Z unit unit A) (w : World)
  : Reply A * World :=
  match c in Call _ _ _ T return Reply T * World with
  | simulate_key_press key => (Ok tt, press key w)
  | world_step _ => step w
  | world_is_playing => (Ok (playing w), w)
  | get_joint_positions => (Ok [0; 0; 0; 0; 0; 0], w)
  | compute_forward_kinematics _ _ => (Ok (tt, tt), w)
  | update_calculations _ _ => (Ok tt, w)
  | state_machine_update => (Ok tt, update w)
  | execute_control => (Ok tt, w)
  | draw_visualizations _ => (Ok tt, w)
  | update_frame_count => (Ok tt, w)
  | is_busy => (Ok (busy w), w)
  | fail_current_task => (Ok tt, fail w)
  | get_and_clear_hard_reset_flag => (Ok (hard_flag w), clear_flag w)
  | get_last_attempt_status => (Ok (last_status w), w)
  | get_current_state => (Ok (state w), w)
  | debug_visualizer_is_enabled => (Ok false, w)
  | setup_stage _ => (Ok tt, w)
  | start_simulation => (Ok tt, w)
  | scene_get_robot => (Ok (robot_found w), w)
  | create_camera_controller => (Ok tt, w)
  | create_data_collection_manager => (Ok tt, w)
  | data_collection_manager_close => (Ok tt, w)
  | simulation_app_close => (Ok tt, w)
  end.

(** A world at rest with the given tasks ahead. *)
Definition idle_world (ps : list Plan) (reset : nat) : World :=
  mkWorld ps (mkPlan 0 false false 0) false 0 "IDLE" 0 false false reset
          true true None.

(** The runs used below start from the state in which the episode loop is
    entered: counters at zero, no camera controller, no data collection
    manager, the simulation application bound. *)
Definition at_loop_entry (w : World) : State World Z unit unit :=
  mkState w [] 0 0 0 false (Bound false) (Bound tt).

(** A task that ends by a critical failure, then one that succeeds. *)
Definition void_then_success : State World Z unit unit :=
  at_loop_entry
    (idle_world [mkPlan 5 true true 0; mkPlan 5 true false 0] 3).

(** A simulation that is not playing: the state machine never gets an
    update, so a triggered task never ends. *)
Definition never_idle : State World Z unit unit :=
  at_loop_entry
    (mkWorld [mkPlan 5 true false 0] (mkPlan 0 false false 0) false 0 "IDLE"
             0 false false 3 false true None).

(** Two tasks that succeed, and scene resets that take 1000 updates. *)
Definition slow_reset : State World Z unit unit :=
  at_loop_entry
    (idle_world [mkPlan 5 true false 0; mkPlan 5 true false 0] 1000).

(** Two tasks that succeed, and scene resets that take 3 updates. *)
Definition quick_reset : State World Z unit unit :=
  at_loop_entry
    (idle_world [mkPlan 5 true false 0; mkPlan 5 true false 0] 3).

(** A task that succeeds on its 3610th update: the last update of the
    completion wait, after the 10 updates of the warm-up. *)
Definition done_on_last_tick : State World Z unit unit :=
  at_loop_entry (idle_world [mkPlan 3610 true false 0] 3).

(** As many tasks as one likes, each of which succeeds on its 3610th
    update. *)
Definition last_tick_successes (n : nat) : State World Z unit unit :=
  at_loop_entry (idle_world (repeat (mkPlan 3610 true false 0) n) 3).

(** The world between two episodes of a run without camera controller:
    the state machine at rest, its last attempt recorded as a failure. *)
Definition at_rest (ps : list Plan) (last : Plan) : World :=
  mkWorld ps last false 0 "IDLE" 0 false false 3 true true None.

(** A user who interrupts the run during its 16th step. *)
Definition interrupted : State World Z unit unit :=
  initial_state
    (mkWorld [mkPlan 5 true false 0] (mkPlan 0 false false 0) false 0 "IDLE"
             0 false false 3 true true (Some (15%nat, KeyboardInterrupt))).

(** A scene without the robot. *)
Definition no_robot : State World Z unit unit :=
  initial_state
    (mkWorld [] (mkPlan 0 false false 0) false 0 "IDLE" 0 false false 3 true
             false None).

End Mock.


(** * More ways to read the history *)

Section Readings.

Variables (W J Pos Rot : Type).

(** A call that puts something on the screen: a step of the world with
    [render=True], or [draw_visualizations]. *)
Definition renders (ev : Event W J Pos Rot) : bool :=
  match ev with
  | EvCall _ c _ =>
      match c with
      | world_step render => render
      | draw_visualizations _ => true
      | _ => false
      end
  | EvPrint _ _ => false
  end.

(** A step of the world that returned. *)
Definition completed_step (ev : Event W J Pos Rot) : bool :=
  is_step ev && negb (is_throw ev).

(** [camera_controller.update_frame_count()] *)
Definition is_camera_update (ev : Event W J Pos Rot) : bool :=
  match kind ev with KUpdateFrameCount => true | _ => false end.

(** The creation of the camera controller (lines 190-192), when it
    returned. *)
Definition camera_created (ev : Event W J Pos Rot) : bool :=
  match ev with
  | EvCall _ c r =>
      match c with create_camera_controller => true | _ => false end
      && match r with Ok _ => true | Throw _ => false end
  | EvPrint _ _ => false
  end.

(** Every call of [update_frame_count] in the history comes after a creation
    of the camera controller that returned. *)
Fixpoint camera_updates_follow_creation (tr : list (Event W J Pos Rot))
  : bool :=
  match tr with
  | [] => true
  | ev :: older =>
      (negb (is_camera_update ev) || existsb camera_created older)
      && camera_updates_follow_creation older
  end.

(** Nothing has been put on the screen so far. *)
Definition unrendered (st : State W J Pos Rot) : Prop :=
  existsb renders (trace st) = false.

(** The camera bookkeeping so far came after the creation of the
    controller, and the local holds a controller only if one was created. *)
Definition camera_sound (st : State W J Pos Rot) : Prop :=
  camera_updates_follow_creation (trace st) = true /\
  (camera_controller st = true ->
   existsb camera_created (trace st) = true).

(** The frame number that a call hands to the visualizer. *)
Definition frame_of (ev : Event W J Pos Rot) : option Z :=
  match ev with
  | EvCall _ c _ =>
      match c with
      | update_calculations _ frame_count => Some frame_count
      | draw_visualizations frame_count => Some frame_count
      | _ => None
      end
  | EvPrint _ _ => None
  end.

(** Every frame number of the history, most recent event first, is [base]
    plus the number of steps completed before the call. *)
Fixpoint frames_in_step (base : Z) (tr : list (Event W J Pos Rot)) : bool :=
  match tr with
  | [] => true
  | ev :: older =>
      match frame_of ev with
      | Some frame_count =>
          frame_count =? base + count completed_step older
      | None => true
      end
      && frames_in_step base older
  end.

(** Since the state [st0], the frame counter has followed the completed
    steps and every frame number handed out was the counter's value. *)
Definition frames_sound (st0 st : State W J Pos Rot) : Prop :=
  exists evs,
    trace st = evs ++ trace st0 /\
    frame_count st = frame_count st0 + count completed_step evs /\
    frames_in_step (frame_count st0) evs = true.

End Readings.

Arguments renders {W J Pos Rot} ev.
Arguments completed_step {W J Pos Rot} ev.
Arguments is_camera_update {W J Pos Rot} ev.
Arguments camera_created {W J Pos Rot} ev.
Arguments camera_updates_follow_creation {W J Pos Rot} tr.
Arguments unrendered {W J Pos Rot} st.
Arguments camera_sound {W J Pos Rot} st.
Arguments frame_of {W J Pos Rot} ev.
Arguments frames_in_step {W J Pos Rot} base tr.
Arguments frames_sound {W J Pos Rot} st0 st.

Set Warnings "-inexact-float,-register-all".

(** * The library modules the script builds its scene with

    [src/utils/config_utils.py] and [src/utils/scene_factory.py].  Their
    data are Python values (a configuration read from YAML, lists of
    numbers, strings); what they reach of Isaac Sim, of numpy and of the
    file system stays opaque, as operations that a handler answers. *)

Module Python.

(** ** Values

    What [yaml.safe_load] builds from the core YAML types, and tuples.  The
    entries of a dict are in insertion order, with pairwise distinct keys;
    looking a key up takes the first entry that has it. *)
Inductive Value : Type :=
| VNone
| VBool (b : bool)
| VInt (n : Z)
| VFloat (x : PrimFloat.float)
| VStr (s : string)
| VList (items : list Value)
| VTuple (items : list Value)
| VDict (entries : list (Value * Value)).

(** [isinstance(v, dict)] *)
Definition is_dict (v : Value) : bool :=
  match v with VDict _ => true | _ => false end.

(** [k == key] for a string [key]: a string equals only strings. *)
Definition is_key (key : string) (k : Value) : bool :=
  match k with VStr s => String.eqb s key | _ => false end.

(** The value of the entry with the string key [key], if there is one. *)
Fixpoint find_entry (key : string) (entries : list (Value * Value))
  : option Value :=
  match entries with
  | [] => None
  | (k, v) :: rest => if is_key key k then Some v else find_entry key rest
  end.

(** A list of floats. *)
Definition floats (xs : list PrimFloat.float) : Value :=
  VList (map VFloat xs).

(** [bool(v)] *)
Definition truth (v : Value) : bool :=
  match v with
  | VNone => false
  | VBool b => b
  | VInt n => negb (n =? 0)
  | VFloat x => negb (PrimFloat.eqb x PrimFloat.zero)
  | VStr s => negb (String.eqb s "")
  | VList items | VTuple items =>
      match items with [] => false | _ => true end
  | VDict entries =>
      match entries with [] => false | _ => true end
  end.

(** ** Strings *)

(** [s.split(sep)] for a separator of one character. *)
Fixpoint str_split (sep : ascii) (s : string) : list string :=
  match s with
  | EmptyString => [""]
  | String c rest =>
      if Ascii.eqb c sep then "" :: str_split sep rest
      else match str_split sep rest with
           | [] => [String c ""]
           | first :: others => String c first :: others
           end
  end.

(** [s.replace(old, new)]: the occurrences of [old] are replaced from left
    to right, without overlap; [skip] counts the characters of an
    occurrence still to pass over.  An empty [old] puts [new] before every
    character and at the end. *)
Fixpoint replace_from (old new : string) (skip : nat) (s : string) : string :=
  match s with
  | EmptyString => ""
  | String c rest =>
      match skip with
      | S k => replace_from old new k rest
      | O =>
          if String.prefix old s
          then new ++ replace_from old new (String.length old - 1) rest
          else String c (replace_from old new 0 rest)
      end
  end.

Fixpoint intersperse (new s : string) : string :=
  match s with
  | EmptyString => new
  | String c rest => new ++ String c (intersperse new rest)
  end.

Definition str_replace (old new s : string) : string :=
  match old with
  | EmptyString => intersperse new s
  | String _ _ => replace_from old new 0 s
  end.

(** [sub in s] *)
Fixpoint str_contains (sub s : string) : bool :=
  String.prefix sub s
  || match s with
     | EmptyString => false
     | String _ rest => str_contains sub rest
     end.

(** [s.lower()], on ASCII letters. *)
Definition lower_char (c : ascii) : ascii :=
  let n := nat_of_ascii c in
  if (65 <=? n)%nat && (n <=? 90)%nat then ascii_of_nat (n + 32) else c.

Fixpoint str_lower (s : string) : string :=
  match s with
  | EmptyString => ""
  | String c rest => String (lower_char c) (str_lower rest)
  end.

(** [str(n)] for an integer. *)
Definition str_of_int (n : Z) : string :=
  NilZero.string_of_int (Z.to_int n).

(** The white space that [int] strips: the ASCII characters of
    [str.isspace]. *)
Definition is_space (c : ascii) : bool :=
  let n := nat_of_ascii c in
  ((9 <=? n)%nat && (n <=? 13)%nat)
  || ((28 <=? n)%nat && (n <=? 32)%nat).

Fixpoint lstrip (s : string) : string :=
  match s with
  | EmptyString => ""
  | String c rest => if is_space c then lstrip rest else s
  end.

Fixpoint rstrip (s : string) : string :=
  match s with
  | EmptyString => ""
  | String c rest =>
      match rstrip rest with
      | EmptyString => if is_space c then "" else String c ""
      | rest' => String c rest'
      end
  end.

Definition is_digit (c : ascii) : bool :=
  let n := nat_of_ascii c in (48 <=? n)%nat && (n <=? 57)%nat.

(** The digits of a literal in which single underscores may separate
    digits; [after_digit] tells whether the previous character was a
    digit. *)
Fixpoint digits_of (after_digit : bool) (s : string) : option string :=
  match s with
  | EmptyString => if after_digit then Some "" else None
  | String c rest =>
      if is_digit c then option_map (String c) (digits_of true rest)
      else if Ascii.eqb c "_"
           then if after_digit
                then match rest with
                     | EmptyString => None
                     | String c' _ =>
                         if is_digit c' then digits_of false rest else None
                     end
                else None
           else None
  end.

Definition unsigned_of_str (s : string) : option Z :=
  match digits_of false s with
  | Some ds => option_map Z.of_uint (NilZero.uint_of_string ds)
  | None => None
  end.

(** [int(s)] in base ten; [None] stands for [ValueError]. *)
Definition int_of_str (s : string) : option Z :=
  match rstrip (lstrip s) with
  | String "+" rest => unsigned_of_str rest
  | String "-" rest => option_map Z.opp (unsigned_of_str rest)
  | body => unsigned_of_str body
  end.

(** [os.path.join(a, b)] of [posixpath]. *)
Definition ends_with_slash (s : string) : bool :=
  match String.get (String.length s - 1) s with
  | Some c => Ascii.eqb c "/"
  | None => false
  end.

Definition path_join (a b : string) : string :=
  if String.prefix "/" b then b
  else if String.eqb a "" || ends_with_slash a then a ++ b
       else a ++ "/" ++ b.

(** ** Exceptions *)

(** The classes that the modules raise themselves or tell apart in an
    [except] clause; [OtherException] is any other class derived from
    [Exception]; [KeyboardInterrupt] and [SystemExit] derive from
    [BaseException] only. *)
Inductive Error : Type :=
| AttributeError
| IndexError
| KeyError
| TypeError
| ValueError
| ImportError
| UnboundLocalError
| OtherException (msg : string)
| KeyboardInterrupt
| SystemExit.

Definition is_Exception (e : Error) : bool :=
  match e with
  | KeyboardInterrupt | SystemExit => false
  | _ => true
  end.

Definition is_ImportError (e : Error) : bool :=
  match e with ImportError => true | _ => false end.

(** What an operation of a collaborator hands back. *)
Inductive Outcome (A : Type) : Type :=
| Gives (a : A)
| Throws (e : Error).
Arguments Gives {A} a.
Arguments Throws {A} e.

(** How a piece of a function body ends: by falling through with a value,
    by an exception, or by a [return] statement. *)
Inductive Ending (R A : Type) : Type :=
| Done (a : A)
| Failed (e : Error)
| Returns (r : R).
Arguments Done {R A} a.
Arguments Failed {R A} e.
Arguments Returns {R A} r.

(** A printed line: the text of the format string (without its
    pictographs), and those of the values that go into it that are Python
    values. *)
Inductive Line : Type :=
| Printed (template : string) (args : list Value).

(** ** Function bodies

    A body runs on the state of the collaborators, on the object [self] of
    the method and on a log of what was done and printed, most recent
    first. *)
Section Programs.

Variables (World : Type) (Op : Type -> Type) (Self : Type).

Inductive Entry : Type :=
| Did (A : Type) (op : Op A) (answer : Outcome A)
| Said (line : Line).

Record Mem : Type := mkMem {
  world : World;
  self : Self;
  log : list Entry
}.

Definition Prog (R A : Type) : Type := Mem -> Ending R A * Mem.

Definition ret {R A : Type} (a : A) : Prog R A := fun m => (Done a, m).

Definition bind {R A B : Type} (p : Prog R A) (k : A -> Prog R B)
  : Prog R B :=
  fun m =>
    match p m with
    | (Done a, m') => k a m'
    | (Failed e, m') => (Failed e, m')
    | (Returns r, m') => (Returns r, m')
    end.

Definition raise {R A : Type} (e : Error) : Prog R A :=
  fun m => (Failed e, m).

(** [return r] *)
Definition return_ {R A : Type} (r : R) : Prog R A :=
  fun m => (Returns r, m).

Definition say {R : Type} (template : string) (args : list Value)
  : Prog R unit :=
  fun m => (Done tt,
            mkMem (world m) (self m) (Said (Printed template args) :: log m)).

Definition get_self {R : Type} : Prog R Self := fun m => (Done (self m), m).

Definition set_self {R : Type} (s : Self) : Prog R unit :=
  fun m => (Done tt, mkMem (world m) s (log m)).

(** The collaborators: every operation answers or throws, and moves the
    world. *)
Variable perform : forall A : Type, Op A -> World -> Outcome A * World.

Definition call {R A : Type} (op : Op A) : Prog R A :=
  fun m =>
    let (answer, w) := perform op (world m) in
    let m' := mkMem w (self m) (Did op answer :: log m) in
    match answer with
    | Gives a => (Done a, m')
    | Throws e => (Failed e, m')
    end.

(** A call of a function with the given body: what the body returns, or
    [default] ([None]) when it falls off its end. *)
Definition function {R R' : Type} (default : R) (body : Prog R unit)
  : Prog R' R :=
  fun m =>
    match body m with
    | (Done _, m') => (Done default, m')
    | (Failed e, m') => (Failed e, m')
    | (Returns r, m') => (Done r, m')
    end.

(** A call of a function whose body leaves by [return] on every path, or
    falls off its end with the value to return. *)
Definition returning {R R' : Type} (body : Prog R R) : Prog R' R :=
  fun m =>
    match body m with
    | (Done r, m') => (Done r, m')
    | (Failed e, m') => (Failed e, m')
    | (Returns r, m') => (Done r, m')
    end.

(** [try: body except ...: handler]; [handler e] is [None] when no clause
    matches [e], which then propagates. *)
Definition try_except {R A : Type} (body : Prog R A)
           (handler : Error -> option (Prog R A)) : Prog R A :=
  fun m =>
    match body m with
    | (Failed e, m') =>
        match handler e with
        | Some h => h m'
        | None => (Failed e, m')
        end
    | other => other
    end.

(** [for x in xs: body] *)
Fixpoint for_each {R X : Type} (xs : list X) (body : X -> Prog R unit)
  : Prog R unit :=
  match xs with
  | [] => ret tt
  | x :: rest => bind (body x) (fun _ => for_each rest body)
  end.

(** [if b: body] *)
Definition when {R : Type} (b : bool) (body : Prog R unit) : Prog R unit :=
  if b then body else ret tt.

End Programs.

Arguments Did {Op A} op answer.
Arguments Said {Op} line.
Arguments mkMem {World Op Self} world self log.
Arguments world {World Op Self} m.
Arguments self {World Op Self} m.
Arguments log {World Op Self} m.
Arguments ret {World Op Self R A} a m.
Arguments bind {World Op Self R A B} p k m.
Arguments raise {World Op Self R A} e m.
Arguments return_ {World Op Self R A} r m.
Arguments say {World Op Self R} template args m.
Arguments get_self {World Op Self R} m.
Arguments set_self {World Op Self R} s m.
Arguments call {World Op Self} perform {R A} op m.
Arguments function {World Op Self R R'} default body m.
Arguments returning {World Op Self R R'} body m.
Arguments try_except {World Op Self R A} body handler m.
Arguments for_each {World Op Self R X} xs body m.
Arguments when {World Op Self R} b body m.

Declare Scope prog_scope.
Notation "x <- p ;; k" := (bind p (fun x => k))
  (at level 61, p at next level, right associativity) : prog_scope.
Notation "p ;; k" := (bind p (fun _ => k))
  (at level 61, right associativity) : prog_scope.

(** A piece that keeps a local of its own where [self] is, for a local that
    an [except] clause reads after the [try] block has assigned it. *)
Definition with_local {World : Type} {Op : Type -> Type}
           {Self R A L : Type} (init : L) (body : Prog World Op L R A)
  : Prog World Op Self R A :=
  fun m =>
    let (ending, m') := body (mkMem (world m) init (log m)) in
    (ending, mkMem (world m') (self m) (log m')).

(** [for x in xs: acc = body(x, acc)]: a loop that builds up a local. *)
Fixpoint for_fold {World : Type} {Op : Type -> Type} {Self R X S : Type}
         (xs : list X) (acc : S) (body : X -> S -> Prog World Op Self R S)
  : Prog World Op Self R S :=
  match xs with
  | [] => ret acc
  | x :: rest => bind (body x acc) (fun acc' => for_fold rest acc' body)
  end.

(** [range(n)] *)
Definition range (n : Z) : list Z := map Z.of_nat (seq 0 (Z.to_nat n)).

(** [xs[i]]; a negative index counts from the end; [None] stands for
    [IndexError]. *)
Definition item {X : Type} (xs : list X) (i : Z) : option X :=
  let n := Z.of_nat (List.length xs) in
  if i <? 0
  then if i + n <? 0 then None else nth_error xs (Z.to_nat (i + n))
  else nth_error xs (Z.to_nat i).

(** [d[key] = v] on the entries of a dict with string keys. *)
Fixpoint dict_set {X : Type} (key : string) (v : X)
         (entries : list (string * X)) : list (string * X) :=
  match entries with
  | [] => [(key, v)]
  | (k, x) :: rest =>
      if String.eqb k key then (k, v) :: rest
      else (k, x) :: dict_set key v rest
  end.

(** ** Operations on values *)

(** [x == n] for a float and an integer: the float is that integer
    exactly. *)
Definition float_is_int (x : PrimFloat.float) (n : Z) : bool :=
  match FloatOps.Prim2SF x with
  | SpecFloat.S754_zero _ => n =? 0
  | SpecFloat.S754_finite s m e =>
      let magnitude :=
        if 0 <=? e then Some (Z.pos m * 2 ^ e)
        else if (Z.pos m) mod (2 ^ (- e)) =? 0
             then Some (Z.pos m / 2 ^ (- e))
             else None in
      match magnitude with
      | Some a => (if s then - a else a) =? n
      | None => false
      end
  | _ => false
  end.

Inductive Number : Type :=
| Whole (n : Z)
| Real (x : PrimFloat.float).

(** The number that a value is: a bool is the integer 0 or 1. *)
Definition number (v : Value) : option Number :=
  match v with
  | VBool b => Some (Whole (if b then 1 else 0))
  | VInt n => Some (Whole n)
  | VFloat x => Some (Real x)
  | _ => None
  end.

Definition number_eq (a b : Number) : bool :=
  match a, b with
  | Whole m, Whole n => m =? n
  | Whole m, Real x | Real x, Whole m => float_is_int x m
  | Real x, Real y => PrimFloat.eqb x y
  end.

(** [hash(v)] is defined. *)
Fixpoint hashable (v : Value) : bool :=
  match v with
  | VList _ | VDict _ => false
  | VTuple items => forallb hashable items
  | _ => true
  end.

(** [a == b] for values that can be keys of a dict. *)
Fixpoint key_eq (a b : Value) : bool :=
  match number a, number b with
  | Some x, Some y => number_eq x y
  | _, _ =>
      match a, b with
      | VNone, VNone => true
      | VStr s, VStr t => String.eqb s t
      | VTuple xs, VTuple ys =>
          (fix all2 (xs ys : list Value) : bool :=
             match xs, ys with
             | [], [] => true
             | x :: xs', y :: ys' => key_eq x y && all2 xs' ys'
             | _, _ => false
             end) xs ys
      | _, _ => false
      end
  end.

Fixpoint find_key (key : Value) (entries : list (Value * Value))
  : option Value :=
  match entries with
  | [] => None
  | (k, v) :: rest => if key_eq key k then Some v else find_key key rest
  end.

(** The character of a string at an index, as a string. *)
Definition char_at (s : string) (i : Z) : option string :=
  option_map (fun c => String c "") (item (list_ascii_of_string s) i).

Section ValuePrograms.

Variables (World : Type) (Op : Type -> Type) (Self R : Type).

Local Abbreviation Prog := (Prog World Op Self R).

(** [d.get(key, default)] for a string [key]: only a dict has the
    method. *)
Definition dict_get (d : Value) (key : string) (default : Value)
  : Prog Value :=
  match d with
  | VDict entries =>
      ret (match find_entry key entries with
           | Some v => v
           | None => default
           end)
  | _ => raise AttributeError
  end.

(** [d.get(key, default)] for any [key]: the key has to be hashable. *)
Definition value_get (d key default : Value) : Prog Value :=
  match d with
  | VDict entries =>
      if hashable key
      then ret (match find_key key entries with
                | Some v => v
                | None => default
                end)
      else raise TypeError
  | _ => raise AttributeError
  end.

(** [d[key]] for a string [key]. *)
Definition subscript (d : Value) (key : string) : Prog Value :=
  match d with
  | VDict entries =>
      match find_entry key entries with
      | Some v => ret v
      | None => raise KeyError
      end
  | _ => raise TypeError
  end.

(** [len(v)] *)
Definition py_len (v : Value) : Prog Z :=
  match v with
  | VStr s => ret (Z.of_nat (String.length s))
  | VList items | VTuple items => ret (Z.of_nat (List.length items))
  | VDict entries => ret (Z.of_nat (List.length entries))
  | _ => raise TypeError
  end.

(** [v[i]] for an integer [i]. *)
Definition getitem (v : Value) (i : Z) : Prog Value :=
  match v with
  | VList items | VTuple items =>
      match item items i with
      | Some x => ret x
      | None => raise IndexError
      end
  | VStr s =>
      match char_at s i with
      | Some c => ret (VStr c)
      | None => raise IndexError
      end
  | VDict entries =>
      match find_key (VInt i) entries with
      | Some x => ret x
      | None => raise KeyError
      end
  | _ => raise TypeError
  end.

(** [range(v)]: the argument has to be an integer. *)
Definition range_of (v : Value) : Prog (list Z) :=
  match v with
  | VInt n => ret (range n)
  | VBool b => ret (range (if b then 1 else 0))
  | _ => raise TypeError
  end.

(** [v.copy()]: lists and dicts have the method. *)
Definition copy (v : Value) : Prog Value :=
  match v with
  | VList _ | VDict _ => ret v
  | _ => raise AttributeError
  end.

(** [list(v.keys())] *)
Definition keys_of (v : Value) : Prog (list Value) :=
  match v with
  | VDict entries => ret (map fst entries)
  | _ => raise AttributeError
  end.

(** [v.replace(old, new)]: a string has the method. *)
Definition replace_method (v : Value) (old new : string) : Prog string :=
  match v with
  | VStr s => ret (str_replace old new s)
  | _ => raise AttributeError
  end.

(** [[x] * n] for a value [n]: the number of copies has to be an
    integer. *)
Definition repeat_of {X : Type} (x : X) (n : Value) : Prog (list X) :=
  match n with
  | VInt k => ret (repeat x (Z.to_nat k))
  | VBool b => ret (repeat x (if b then 1 else 0)%nat)
  | _ => raise TypeError
  end.

End ValuePrograms.

Arguments dict_get {World Op Self R} d key default m.
Arguments value_get {World Op Self R} d key default m.
Arguments subscript {World Op Self R} d key m.
Arguments py_len {World Op Self R} v m.
Arguments getitem {World Op Self R} v i m.
Arguments range_of {World Op Self R} v m.
Arguments copy {World Op Self R} v m.
Arguments keys_of {World Op Self R} v m.
Arguments replace_method {World Op Self R} v old new m.
Arguments repeat_of {World Op Self R X} x n m.

(** ** What a piece does

    [post p m Q]: run from the memory [m], the piece [p] ends in a way and
    in a memory that [Q] accepts. *)
Definition post {World : Type} {Op : Type -> Type} {Self R A : Type}
           (p : Prog World Op Self R A) (m : Mem World Op Self)
           (Q : Ending R A -> Mem World Op Self -> Prop) : Prop :=
  Q (fst (p m)) (snd (p m)).

End Python.

(** ** What the modules reach outside

    The objects of numpy, of Isaac Sim and of the modules of the project
    that are not in the sources at hand are references of an opaque type;
    what is done with them is an operation that the handler answers. *)
Module Outside.

Import Python.

Section Ops.

Variable Obj : Type.

(** A Python value, or a reference to an object from outside. *)
Inductive Any : Type :=
| Val (v : Value)
| Ref (o : Obj).

Inductive Op : Type -> Type :=
(* os.path.exists(path) *)
| os_path_exists (path : string) : Op bool
(* with open(path, 'r', encoding='utf-8') as f: yaml.safe_load(f) *)
| yaml_safe_load (path : string) : Op Value
(* import module, from module import names *)
| import_module (module : string) : Op unit
(* str(v) of a value that is not a string; bool(o) of an object *)
| py_repr (v : Value) : Op string
| object_truth (o : Obj) : Op bool
(* np.array(x), a.tolist(), and the formatting of the coordinates a[0],
   a[1], a[2] with a format like .3f *)
| np_array (x : Any) : Op Obj
| tolist (a : Obj) : Op Value
| format_coordinates (a : Obj) (format : string) : Op unit
(* add_reference_to_stage(usd_path=..., prim_path=...) *)
| add_reference_to_stage (usd_path prim_path : string) : Op unit
(* SingleRigidPrim(prim_path=..., name=..., position=..., mass=...) *)
| SingleRigidPrim (prim_path name : string) (position : Any) (mass : Value)
  : Op Obj
(* world.scene.add(prim) *)
| scene_add (prim : Obj) : Op Obj
(* omni.usd.get_context().get_stage() *)
| get_stage : Op (option Obj)
(* stage.GetPrimAtPath(path), stage.DefinePrim(path, type_name),
   prim.IsValid() *)
| GetPrimAtPath (stage : Obj) (path : string) : Op Obj
| DefinePrim (stage : Obj) (path type_name : string) : Op Obj
| IsValid (prim : Obj) : Op bool
(* Gf.Vec3f( *color ), attr.Set(value) *)
| Vec3f_of (color : Value) : Op Obj
| Set_ (attribute : Obj) (value : Any) : Op unit
(* UsdShade.Material(prim), UsdShade.Shader(prim),
   shader.CreateIdAttr(name), shader.CreateInput(name, type_name),
   material.CreateSurfaceOutput(), shader.ConnectableAPI(),
   output.ConnectToSource(source, name), binding_api.Bind(material) *)
| Material (prim : Obj) : Op Obj
| Shader (prim : Obj) : Op Obj
| CreateIdAttr (shader : Obj) (name : string) : Op unit
| CreateInput (shader : Obj) (name type_name : string) : Op Obj
| CreateSurfaceOutput (material : Obj) : Op Obj
| ConnectableAPI (shader : Obj) : Op Obj
| ConnectToSource (output source : Obj) (name : string) : Op unit
| Bind (binding material : Obj) : Op unit
(* stage.RemovePrim(path), prim.GetChildren(), str(prim.GetPath()),
   UsdShade.MaterialBindingAPI.Apply(prim) *)
| RemovePrim (stage : Obj) (path : string) : Op unit
| GetChildren (prim : Obj) : Op (list Obj)
| GetPath (prim : Obj) : Op string
| MaterialBindingAPI_Apply (prim : Obj) : Op Obj
(* obj.prim_path, hasattr(obj, 'prim_path') *)
| prim_path_of (obj : Obj) : Op string
| has_prim_path (obj : Obj) : Op bool
(* SmartPlacement(config_path=..., plate_position=...),
   .clear_placement_history(),
   .placed_objects.append({"position": ..., "type": "plate",
                           "name": "plate_object"}),
   .object_sizes['plate']['radius'],
   .generate_safe_positions(types, names) *)
| SmartPlacement (config_path : string) (plate_position : Value) : Op Obj
| clear_placement_history (placement : Obj) : Op unit
| placed_objects_append (placement position : Obj) : Op unit
| object_sizes_plate_radius (placement : Obj) : Op unit
| generate_safe_positions (placement : Obj) (types names : list string)
  : Op (list Obj).

End Ops.

Arguments Val {Obj} v.
Arguments Ref {Obj} o.
Arguments os_path_exists {Obj} path.
Arguments yaml_safe_load {Obj} path.
Arguments import_module {Obj} module.
Arguments py_repr {Obj} v.
Arguments object_truth {Obj} o.
Arguments np_array {Obj} x.
Arguments tolist {Obj} a.
Arguments format_coordinates {Obj} a format.
Arguments add_reference_to_stage {Obj} usd_path prim_path.
Arguments SingleRigidPrim {Obj} prim_path name position mass.
Arguments scene_add {Obj} prim.
Arguments get_stage {Obj}.
Arguments GetPrimAtPath {Obj} stage path.
Arguments DefinePrim {Obj} stage path type_name.
Arguments IsValid {Obj} prim.
Arguments Vec3f_of {Obj} color.
Arguments Set_ {Obj} attribute value.
Arguments Material {Obj} prim.
Arguments Shader {Obj} prim.
Arguments CreateIdAttr {Obj} shader name.
Arguments CreateInput {Obj} shader name type_name.
Arguments CreateSurfaceOutput {Obj} material.
Arguments ConnectableAPI {Obj} shader.
Arguments ConnectToSource {Obj} output source name.
Arguments Bind {Obj} binding material.
Arguments RemovePrim {Obj} stage path.
Arguments GetChildren {Obj} prim.
Arguments GetPath {Obj} prim.
Arguments MaterialBindingAPI_Apply {Obj} prim.
Arguments prim_path_of {Obj} obj.
Arguments has_prim_path {Obj} obj.
Arguments SmartPlacement {Obj} config_path plate_position.
Arguments clear_placement_history {Obj} placement.
Arguments placed_objects_append {Obj} placement position.
Arguments object_sizes_plate_radius {Obj} placement.
Arguments generate_safe_positions {Obj} placement types names.

Section Strings.

Variables (World Obj Self R : Type).
Variable perform : forall A : Type, Op Obj A -> World -> Outcome A * World.

(** [str(v)], as an f-string puts a value into a text. *)
Definition py_str (v : Value) : Prog World (Op Obj) Self R string :=
  match v with
  | VStr s => ret s
  | _ => call perform (py_repr v)
  end.

End Strings.

Arguments py_str {World Obj Self R} perform v m.

End Outside.

(** ** [src/utils/config_utils.py] *)
Module config_utils.

Import Python Outside.
Local Open Scope prog_scope.

(** [isinstance(current, dict) and key in current], and then
    [current[key]]. *)
Definition entry (key : string) (current : Value) : option Value :=
  match current with
  | VDict entries => find_entry key entries
  | _ => None
  end.

(** What is stored in a configuration under a list of keys. *)
Fixpoint stored (keys : list string) (current : Value) : option Value :=
  match keys with
  | [] => Some current
  | key :: keys' =>
      match entry key current with
      | Some v => stored keys' v
      | None => None
      end
  end.

(** What a dotted path designates in a configuration, with a default for
    what is not stored. *)
Definition value_at (config : Value) (key_path : string) (default : Value)
  : Value :=
  match stored (str_split "." key_path) config with
  | Some v => v
  | None => default
  end.


(** [class ConfigManager] *)
Module ConfigManager.

Section Methods.

Variables (World Obj Self : Type).
Variable perform : forall A : Type, Op Obj A -> World -> Outcome A * World.

Local Abbreviation Prog := (Prog World (Op Obj) Self).

Record Fields : Type := mkFields {
  project_root : string;
  config_path : string
}.

(** Lines 14-21. *)
Definition __init__ (project_root : string) : Fields :=
  mkFields
    project_root
    (path_join (path_join project_root "config") "scene_config.yaml").

(** Lines 23-36. *)
Definition load_scene_config {R : Type} (self : Fields) : Prog R Value :=
  function VNone
    (found <- call perform (os_path_exists (config_path self)) ;;
     if found then
       config <- call perform (yaml_safe_load (config_path self)) ;;
       say "Scene configuration file loaded: {self.config_path}"
           [VStr (config_path self)] ;;
       return_ config
     else
       say "Configuration file not found: {self.config_path}"
           [VStr (config_path self)] ;;
       return_ VNone).

(** The loop of lines 52-57, over the keys still to follow. *)
Fixpoint follow (key_path : string) (default_value : Value)
         (keys : list string) (current : Value) : Prog Value Value :=
  match keys with
  | [] => ret current
  | key :: keys' =>
      match entry key current with
      | Some v => follow key_path default_value keys' v
      | None =>
          say ("Configuration path '{key_path}' not found. "
               ++ "Using default value: {default_value}")
              [VStr key_path; default_value] ;;
          return_ default_value
      end
  end.

(** Lines 38-59. *)
Definition get_config_with_defaults {R : Type} (config : Value)
           (key_path : string) (default_value : Value) : Prog R Value :=
  function VNone
    (let keys := str_split "." key_path in
     current <- follow key_path default_value keys config ;;
     return_ current).

(** Lines 61-75. *)
Definition get_plate_config {R : Type} (config : Value) : Prog R Value :=
  function VNone
    (position <- get_config_with_defaults config "scene.plate.position"
                   (floats [0.28; 0.0; 0.1]%float) ;;
     radius <- get_config_with_defaults config
                 "scene.plate.virtual_config.radius" (VFloat 0.1) ;;
     height <- get_config_with_defaults config
                 "scene.plate.virtual_config.height" (VFloat 0.02) ;;
     scale <- get_config_with_defaults config "scene.plate.scale"
                (VFloat 1.0) ;;
     return_ (VDict [(VStr "position", position);
                     (VStr "radius", radius);
                     (VStr "height", height);
                     (VStr "scale", scale)])).

(** Lines 77-102. *)
Definition get_orange_config {R : Type} (config : Value) : Prog R Value :=
  function VNone
    (orange_generation <- get_config_with_defaults config
                            "scene.oranges.generation" (VDict []) ;;
     count <- get_config_with_defaults config "scene.oranges.count"
                (VInt 1) ;;
     mass <- get_config_with_defaults config "scene.oranges.physics.mass"
               (VFloat 0.15) ;;
     models <- get_config_with_defaults config "scene.oranges.models"
                 (VList [VStr "Orange001"]) ;;
     usd_paths <- get_config_with_defaults config "scene.oranges.usd_paths"
                    (VList [VStr "assets/objects/Orange001/Orange001.usd"]) ;;
     x_range <- dict_get orange_generation "x_range"
                  (floats [0.1; 0.2]%float) ;;
     y_range <- dict_get orange_generation "y_range"
                  (floats [0.03; 0.23]%float) ;;
     z_drop_height <- dict_get orange_generation "z_drop_height"
                        (VFloat 0.1) ;;
     orange_radius <- dict_get orange_generation "orange_radius"
                        (VFloat 0.025) ;;
     min_distance <- dict_get orange_generation "min_distance"
                       (VFloat 0.06) ;;
     max_attempts <- dict_get orange_generation "max_attempts" (VInt 50) ;;
     return_ (VDict [(VStr "count", count);
                     (VStr "mass", mass);
                     (VStr "models", models);
                     (VStr "usd_paths", usd_paths);
                     (VStr "x_range", x_range);
                     (VStr "y_range", y_range);
                     (VStr "z_drop_height", z_drop_height);
                     (VStr "orange_radius", orange_radius);
                     (VStr "min_distance", min_distance);
                     (VStr "max_attempts", max_attempts)])).

(** Lines 104-121. *)
Definition get_target_configs {R : Type} (config : Value) : Prog R Value :=
  function VNone
    (target_configs <-
       get_config_with_defaults config "target_configs"
         (VDict
            [(VStr "/World/orange1",
              VDict [(VStr "name", VStr "orange1_object");
                     (VStr "draw_aabb", VBool true);
                     (VStr "aabb_color",
                      VTuple (map VFloat [1.0; 1.0; 0.0; 0.5]%float));
                     (VStr "draw_obb", VBool true);
                     (VStr "obb_color",
                      VTuple (map VFloat [0.0; 1.0; 1.0; 1.0]%float))])]) ;;
     return_ target_configs).

End Methods.

End ConfigManager.

Section Functions.

Variables (World Obj Self : Type).
Variable perform : forall A : Type, Op Obj A -> World -> Outcome A * World.

Local Abbreviation Prog := (Prog World (Op Obj) Self).

(** Lines 125-128. *)
Definition load_scene_config {R : Type} (project_root : string)
  : Prog R Value :=
  function VNone
    (let config_manager := ConfigManager.__init__ project_root in
     config <- ConfigManager.load_scene_config perform config_manager ;;
     return_ config).

(** Lines 131-134. *)
Definition get_config_with_defaults {R : Type} (config : Value)
           (key_path : string) (default_value : Value) : Prog R Value :=
  function VNone
    (let config_manager := ConfigManager.__init__ "" in
     v <- ConfigManager.get_config_with_defaults
            config key_path default_value ;;
     return_ v).

End Functions.

End config_utils.

(** ** [src/utils/scene_factory.py] *)
Module scene_factory.

Import Python Outside.
Local Open Scope prog_scope.

(** The class that [_create_virtual_plate] defines, lines 260-274. *)
Module VirtualPlateObject.

Section Methods.

Variables (World Obj : Type).
Variable perform : forall A : Type, Op Obj A -> World -> Outcome A * World.

Record Fields : Type := mkFields {
  position : Obj;
  radius : Value;
  height : Value
}.

(** Lines 261-264. *)
Definition __init__ {Self R : Type} (position radius height : Value)
  : Prog World (Op Obj) Self R Fields :=
  array <- call perform (np_array (Val position)) ;;
  ret (mkFields array radius height).

Local Abbreviation Prog := (Prog World (Op Obj) Fields).

(** Lines 266-267. *)
Definition get_world_pose {R : Type} : Prog R (Obj * Obj) :=
  returning (
    self <- get_self ;;
    orientation <- call perform
                     (np_array (Val (VList [VInt 1; VInt 0; VInt 0;
                                            VInt 0]))) ;;
    return_ (position self, orientation)).

(** Lines 269-271. *)
Definition set_world_pose {R : Type} (position : Any Obj)
           (orientation : option Obj) : Prog R unit :=
  function tt (
    self <- get_self ;;
    array <- call perform (np_array position) ;;
    set_self (mkFields array (radius self) (height self)) ;;
    call perform (format_coordinates array ".4f") ;;
    say "Virtual plate position updated: [{self.position[0]:.4f}, {self.position[1]:.4f}, {self.position[2]:.4f}]" []).

(** Lines 273-274. *)
Definition get_linear_velocity {R : Type} : Prog R Obj :=
  returning (
    velocity <- call perform
                  (np_array (Val (VList [VInt 0; VInt 0; VInt 0]))) ;;
    return_ velocity).

End Methods.

End VirtualPlateObject.

(** What a scene holds under a name: a rigid prim of Isaac Sim, or a
    virtual plate. *)
Inductive SceneObject (Obj : Type) : Type :=
| Rigid (prim : Obj)
| Virtual (plate : VirtualPlateObject.Fields Obj).
Arguments Rigid {Obj} prim.
Arguments Virtual {Obj} plate.

(** [f"orange{i+1}_object"], lines 89 and 144; [f"/World/orange{i+1}"],
    line 143. *)
Definition scene_name (i : Z) : string :=
  "orange" ++ str_of_int (i + 1) ++ "_object".

Definition orange_prim_path (i : Z) : string :=
  "/World/orange" ++ str_of_int (i + 1).

(** [int(object_name.replace('orange', '').replace('_object', '')) - 1],
    line 333; [None] stands for [ValueError]. *)
Definition object_index (object_name : string) : option Z :=
  option_map (fun n => n - 1)
    (int_of_str
       (str_replace "_object" "" (str_replace "orange" "" object_name))).

(** [class SceneFactory] *)
Module SceneFactory.

Section Methods.

Variables (World Obj Self : Type).
Variable perform : forall A : Type, Op Obj A -> World -> Outcome A * World.

Local Abbreviation Prog := (Prog World (Op Obj) Self).

(** What the factory keeps of its arguments, lines 22-24; its world and
    its configuration manager are reached through the operations. *)
Record Fields : Type := mkFields {
  project_root : string
}.

(** Lines 159-201. *)
Definition _load_single_orange {R : Type} (self : Fields)
           (usd_path prim_path : string) (position : Value) (name : string)
           (mass : Value) : Prog R (option Obj) :=
  function None (
    found <- call perform (os_path_exists usd_path) ;;
    (if negb found then
       say "Orange USD file not found: {usd_path}" [VStr usd_path] ;;
       return_ None
     else ret tt) ;;
    try_except
      (say "Loading orange USD: {os.path.basename(usd_path)}"
           [VStr usd_path] ;;
       (* Step 1: Load the USD to the stage *)
       call perform (import_module "isaacsim.core.utils.stage") ;;
       call perform (add_reference_to_stage usd_path prim_path) ;;
       say "Orange USD loaded to stage: {prim_path}" [VStr prim_path] ;;
       (* Step 2: Create a physics object using SingleRigidPrim *)
       call perform (import_module "isaacsim.core.prims") ;;
       prim <- call perform
                 (SingleRigidPrim prim_path name (Val position) mass) ;;
       orange <- call perform (scene_add prim) ;;
       say "Orange loaded: {name} at position {position} with mass {mass}kg"
           [VStr name; position; mass] ;;
       return_ (Some orange))
      (fun e =>
         if is_Exception e
         then Some (say "Failed to load orange {name}: {e}" [VStr name] ;;
                    return_ None)
         else None)).

(** One round of the loop of lines 140-155. *)
Definition load_orange_number {R : Type} (self : Fields)
           (orange_usd_paths : Value) (safe_positions : list Obj)
           (orange_mass candy_types orange_models : Value) (i : Z)
           (orange_objects_loaded : list (string * Obj))
  : Prog R (list (string * Obj)) :=
  if i <? Z.of_nat (List.length safe_positions) - 1 then
    paths <- py_len orange_usd_paths ;;
    path <- (if i <? paths then getitem orange_usd_paths i
             else getitem orange_usd_paths 0) ;;
    path <- py_str perform path ;;
    let usd_path := (project_root self ++ "/" ++ path)%string in
    let prim_path := orange_prim_path i in
    let scene_name := scene_name i in
    (* Get candy-specific mass *)
    models <- py_len orange_models ;;
    model_name <- (if i <? models then getitem orange_models i
                   else ret (VStr ("Orange00" ++ str_of_int (i + 1)))) ;;
    candy_info <- value_get candy_types model_name (VDict []) ;;
    candy_mass <- dict_get candy_info "mass" orange_mass ;;
    candy_name <- dict_get candy_info "name"
                    (VStr ("Candy " ++ str_of_int (i + 1))) ;;
    position <- match item safe_positions i with
                | Some array => call perform (tolist array)
                | None => raise IndexError
                end ;;
    orange_obj <- _load_single_orange self usd_path prim_path position
                    scene_name candy_mass ;;
    match orange_obj with
    | Some orange =>
        truthy <- call perform (object_truth orange) ;;
        if truthy then
          position <- match item safe_positions i with
                      | Some array => call perform (tolist array)
                      | None => raise IndexError
                      end ;;
          say "{candy_name} loaded successfully: Position {safe_positions[i].tolist()}, Mass {candy_mass}kg"
              [candy_name; position; candy_mass] ;;
          ret (dict_set scene_name orange orange_objects_loaded)
        else ret orange_objects_loaded
    | None => ret orange_objects_loaded
    end
  else ret orange_objects_loaded.

(** Lines 120-157. *)
Definition _load_orange_objects {R : Type} (self : Fields)
           (orange_count orange_usd_paths : Value)
           (safe_positions : list Obj) (orange_mass scene_config : Value)
  : Prog R (list (string * Obj)) :=
  function [] (
    (* Get candy type configurations *)
    scene <- dict_get scene_config "scene" (VDict []) ;;
    oranges_config <- dict_get scene "oranges" (VDict []) ;;
    candy_types <- dict_get oranges_config "candy_types" (VDict []) ;;
    orange_models <- dict_get oranges_config "models"
                       (VList [VStr "Orange001"; VStr "Orange002";
                               VStr "Orange003"]) ;;
    indices <- range_of orange_count ;;
    orange_objects_loaded <-
      for_fold indices []
        (load_orange_number self orange_usd_paths safe_positions
                            orange_mass candy_types orange_models) ;;
    return_ orange_objects_loaded).

(** Lines 249-278. *)
Definition _create_virtual_plate {R : Type} (self : Fields)
           (position radius height : Value)
  : Prog R (VirtualPlateObject.Fields Obj) :=
  virtual_plate <- VirtualPlateObject.__init__ perform position radius
                     height ;;
  say "Virtual plate object created at position: {position}" [position] ;;
  ret virtual_plate.

(** Lines 203-247. *)
Definition _load_plate_object {R : Type} (self : Fields)
           (plate_center plate_radius plate_height : Value)
  : Prog R (SceneObject Obj) :=
  returning (
    say "Loading plate USD model..." [] ;;
    say "Using plate position: {plate_center}" [plate_center] ;;
    let plate_usd_path :=
      (project_root self ++ "/assets/objects/Plate/Plate.usd")%string in
    found <- call perform (os_path_exists plate_usd_path) ;;
    (if found then
       try_except
         (say "Loading plate USD: {os.path.basename(plate_usd_path)}"
              [VStr plate_usd_path] ;;
          call perform (import_module "isaacsim.core.utils.stage") ;;
          call perform (add_reference_to_stage plate_usd_path
                                               "/World/plate") ;;
          say "Plate USD loaded to stage: /World/plate" [] ;;
          (* Create a physics object for the plate using SingleRigidPrim *)
          call perform (import_module "isaacsim.core.prims") ;;
          prim <- call perform
                    (SingleRigidPrim "/World/plate" "plate_object"
                                     (Val plate_center) (VFloat 0.2)) ;;
          plate <- call perform (scene_add prim) ;;
          say "Plate loaded: plate_object at position {plate_center} with mass 0.2kg"
              [plate_center] ;;
          return_ (Rigid plate))
         (fun e =>
            if is_Exception e
            then Some (say "Failed to load plate: {e}" [] ;;
                       say "Using a virtual plate object as a fallback..."
                           [])
            else None)
     else
       say "Plate USD file not found: {plate_usd_path}"
           [VStr plate_usd_path] ;;
       say "Using a virtual plate object as a fallback..." []) ;;
    (* Create a virtual plate object *)
    virtual_plate <- _create_virtual_plate self plate_center plate_radius
                       plate_height ;;
    return_ (Virtual virtual_plate)).

(** The paths of lines 540-556, from the model paths found. *)
Definition visual_paths_of (model_paths : list string)
           (object_path : string) : list string :=
  flat_map (fun model_path =>
              [(model_path ++ "/Visuals")%string;
               (model_path ++ "/visuals")%string;
               (model_path ++ "/mesh")%string;
               (model_path ++ "/Mesh")%string;
               (model_path ++ "/Looks")%string;
               model_path]) model_paths
  ++ [(object_path ++ "/Visuals")%string;
      (object_path ++ "/visuals")%string;
      (object_path ++ "/mesh")%string;
      (object_path ++ "/Mesh")%string].

(** Lines 509-584; [bound_count], which the handler of line 582 returns,
    is the local of the piece. *)
Definition _bind_material_to_children {R : Type} (self : Fields)
           (stage : Obj) (object_path : string) (material : Obj)
  : Prog R Z :=
  function 0 (
    with_local 0 (
      try_except
        (call perform (import_module "pxr") ;;
         (* First try to find the actual model path within the object *)
         object_prim <- call perform (GetPrimAtPath stage object_path) ;;
         valid <- call perform (IsValid object_prim) ;;
         (if negb valid then
            bound_count <- get_self ;; return_ bound_count
          else ret tt) ;;
         (* Look for the actual model (e.g., Orange001 inside orange1) *)
         children <- call perform (GetChildren object_prim) ;;
         model_paths <-
           for_fold children []
             (fun child model_paths =>
                child_path <- call perform (GetPath child) ;;
                if existsb (fun name => str_contains name child_path)
                           ["Orange"; "Plate"; "Model"; "Mesh"]
                then
                  say "Found model path: {child_path}" [VStr child_path] ;;
                  ret (model_paths ++ [child_path])
                else ret model_paths) ;;
         for_each (visual_paths_of model_paths object_path)
           (fun visual_path =>
              visual_prim <- call perform
                               (GetPrimAtPath stage visual_path) ;;
              valid <- call perform (IsValid visual_prim) ;;
              when valid (
                try_except
                  (binding_api <- call perform
                                    (MaterialBindingAPI_Apply visual_prim) ;;
                   call perform (Bind binding_api material) ;;
                   bound_count <- get_self ;;
                   set_self (bound_count + 1) ;;
                   say "Material bound to: {visual_path}"
                       [VStr visual_path])
                  (fun e =>
                     if is_Exception e
                     then Some (say "Failed to bind to {visual_path}: {e}"
                                    [VStr visual_path])
                     else None) ;;
                (* Also bind to any mesh children *)
                child_prims <- call perform (GetChildren visual_prim) ;;
                for_each child_prims
                  (fun child_prim =>
                     valid <- call perform (IsValid child_prim) ;;
                     when valid (
                       try_except
                         (binding_api <-
                            call perform
                              (MaterialBindingAPI_Apply child_prim) ;;
                          call perform (Bind binding_api material) ;;
                          bound_count <- get_self ;;
                          set_self (bound_count + 1) ;;
                          path <- call perform (GetPath child_prim) ;;
                          say "Material bound to child: {child_prim.GetPath()}"
                              [VStr path])
                         (fun e =>
                            if is_Exception e
                            then Some (
                              path <- call perform (GetPath child_prim) ;;
                              say "Failed to bind to child {child_prim.GetPath()}: {e}"
                                  [VStr path])
                            else None))))) ;;
         bound_count <- get_self ;;
         return_ bound_count)
        (fun e =>
           if is_Exception e
           then Some (say "Error binding to children: {e}" [] ;;
                      bound_count <- get_self ;;
                      return_ bound_count)
           else None))).

(** Lines 412-507; the function returns [True], [False] or, at lines 429
    and 435, [None]. *)
Definition _apply_material_to_object {R : Type} (self : Fields)
           (prim_path : string) (material_info material_name : Value)
  : Prog R (option bool) :=
  function None (
    try_except
      ((* Try to import USD modules *)
       call perform (import_module "omni.usd") ;;
       call perform (import_module "pxr") ;;
       stage <- call perform get_stage ;;
       match stage with
       | None =>
           say "No USD stage available - Isaac Sim may not be fully initialized"
               [] ;;
           return_ None
       | Some stage =>
           prim <- call perform (GetPrimAtPath stage prim_path) ;;
           valid <- call perform (IsValid prim) ;;
           (if negb valid then
              say "Prim not found: {prim_path}" [VStr prim_path] ;;
              return_ None
            else ret tt) ;;
           color <- dict_get material_info "color"
                      (floats [1.0; 0.5; 0.0]%float) ;;
           roughness <- dict_get material_info "roughness" (VFloat 0.1) ;;
           metallic <- dict_get material_info "metallic" (VFloat 0.2) ;;
           say "Creating material for {material_name} with color {color}"
               [material_name; color] ;;
           (* Create material path INSIDE the object (correct hierarchy) *)
           underscored <- replace_method material_name " " "_" ;;
           let safe_name := str_replace "-" "_" underscored in
           let object_looks_path := (prim_path ++ "/Looks")%string in
           let material_prim_path :=
             (object_looks_path ++ "/" ++ safe_name ++ "_Material")%string in
           say "Material path: {material_prim_path}"
               [VStr material_prim_path] ;;
           (* Create or get object's Looks scope *)
           looks_prim <- call perform
                           (GetPrimAtPath stage object_looks_path) ;;
           valid <- call perform (IsValid looks_prim) ;;
           (if negb valid then
              call perform (DefinePrim stage object_looks_path "Scope") ;;
              say "Created Looks scope: {object_looks_path}"
                  [VStr object_looks_path]
            else
              say "Using existing Looks scope: {object_looks_path}"
                  [VStr object_looks_path]) ;;
           (* Remove existing material if it exists *)
           existing_material <- call perform
                                  (GetPrimAtPath stage material_prim_path) ;;
           valid <- call perform (IsValid existing_material) ;;
           when valid (
             call perform (RemovePrim stage material_prim_path) ;;
             say "Removed existing material: {material_prim_path}"
                 [VStr material_prim_path]) ;;
           material_prim <- call perform
                              (DefinePrim stage material_prim_path
                                          "Material") ;;
           material <- call perform (Material material_prim) ;;
           (* Create shader inside the object's material *)
           let shader_path := (material_prim_path ++ "/Shader")%string in
           shader_prim <- call perform
                            (DefinePrim stage shader_path "Shader") ;;
           shader <- call perform (Shader shader_prim) ;;
           call perform (CreateIdAttr shader "UsdPreviewSurface") ;;
           (* Set material properties *)
           diffuse_input <- call perform
                              (CreateInput shader "diffuseColor"
                                           "Color3f") ;;
           vector <- call perform (Vec3f_of color) ;;
           call perform (Set_ diffuse_input (Ref vector)) ;;
           roughness_input <- call perform
                                (CreateInput shader "roughness" "Float") ;;
           call perform (Set_ roughness_input (Val roughness)) ;;
           metallic_input <- call perform
                               (CreateInput shader "metallic" "Float") ;;
           call perform (Set_ metallic_input (Val metallic)) ;;
           (* Connect shader to material *)
           material_surface <- call perform (CreateSurfaceOutput material) ;;
           connectable <- call perform (ConnectableAPI shader) ;;
           call perform (ConnectToSource material_surface connectable
                                         "surface") ;;
           (* Bind material to object (and its children) *)
           binding_api <- call perform (MaterialBindingAPI_Apply prim) ;;
           call perform (Bind binding_api material) ;;
           (* Also try to bind to visual/mesh children if they exist *)
           materials_bound <- _bind_material_to_children self stage
                                prim_path material ;;
           say "Applied {material_name} material (RGB: {color}) to {prim_path}"
               [material_name; color; VStr prim_path] ;;
           say "Material bindings: {materials_bound + 1} objects"
               [VInt (materials_bound + 1)] ;;
           return_ (Some true)
       end)
      (fun e =>
         if is_ImportError e
         then Some (
           say "USD libraries not available for {material_name}: {e}"
               [material_name] ;;
           say "This is expected if Isaac Sim is not fully loaded yet" [] ;;
           return_ (Some false))
         else if is_Exception e
         then Some (
           say "Failed to apply {material_name} material: {e}"
               [material_name] ;;
           say "Error details: {traceback.format_exc()}" [] ;;
           return_ (Some false))
         else None)).

(** Lines 586-614. *)
Definition _apply_material_to_ground {R : Type} (self : Fields)
           (material_info : Value) : Prog R (option bool) :=
  function None (
    try_except
      (call perform (import_module "omni.usd") ;;
       stage <- call perform get_stage ;;
       let ground_prim_path := "/World/defaultGroundPlane" in
       ground_prim <- match stage with
                      | Some stage =>
                          call perform (GetPrimAtPath stage ground_prim_path)
                      | None => raise AttributeError
                      end ;;
       valid <- call perform (IsValid ground_prim) ;;
       if valid then
         say "Applying table material to: {ground_prim_path}"
             [VStr ground_prim_path] ;;
         success <- _apply_material_to_object self ground_prim_path
                      material_info (VStr "White_Table") ;;
         return_ success
       else
         say "Ground plane not found at: {ground_prim_path}"
             [VStr ground_prim_path] ;;
         return_ (Some false))
      (fun e =>
         if is_ImportError e
         then Some (
           say "USD libraries not available for table material: {e}" [] ;;
           return_ (Some false))
         else if is_Exception e
         then Some (
           say "Failed to apply table material: {e}" [] ;;
           return_ (Some false))
         else None)).

(** [hasattr(obj, 'prim_path')] and [obj.prim_path]: the virtual plate has
    no such attribute. *)
Definition has_prim_path_attr {R : Type} (obj : SceneObject Obj)
  : Prog R bool :=
  match obj with
  | Rigid prim => call perform (has_prim_path prim)
  | Virtual _ => ret false
  end.

Definition prim_path_attr {R : Type} (obj : SceneObject Obj)
  : Prog R string :=
  match obj with
  | Rigid prim => call perform (prim_path_of prim)
  | Virtual _ => raise AttributeError
  end.

(** [if success:] for what [_apply_material_to_object] returned. *)
Definition succeeded (success : option bool) : bool :=
  match success with Some true => true | _ => false end.

(** One round of the loop of lines 327-365, on the two counters
    [(materials_applied, materials_attempted)]. *)
Definition style_object {R : Type} (self : Fields)
           (candy_types bowl_styling orange_models : Value)
           (entry : string * SceneObject Obj) (counters : Z * Z)
  : Prog R (Z * Z) :=
  let (object_name, obj) := entry in
  let (materials_applied, materials_attempted) := counters in
  has <- has_prim_path_attr obj ;;
  say "Debug: Processing object {object_name}, has prim_path: {hasattr(obj, 'prim_path')}"
      [VStr object_name; VBool has] ;;
  is_orange <- (if str_contains "orange" (str_lower object_name)
                then has_prim_path_attr obj else ret false) ;;
  if is_orange then
    let materials_attempted := materials_attempted + 1 in
    (* Determine candy type based on object index *)
    object_index <- match object_index object_name with
                    | Some n => ret n
                    | None => raise ValueError
                    end ;;
    models <- py_len orange_models ;;
    if object_index <? models then
      model_name <- getitem orange_models object_index ;;
      candy_info <- value_get candy_types model_name (VDict []) ;;
      candy_name <- dict_get candy_info "name"
                      (VStr ("Candy " ++ str_of_int (object_index + 1))) ;;
      say "Transforming {object_name} -> {candy_name}"
          [VStr object_name; candy_name] ;;
      path <- prim_path_attr obj ;;
      say "Prim path: {obj.prim_path}" [VStr path] ;;
      say "Candy info: {candy_info}" [candy_info] ;;
      if truth candy_info then
        (* Only apply if we have candy info *)
        path <- prim_path_attr obj ;;
        success <- _apply_material_to_object self path candy_info
                     candy_name ;;
        ret (if succeeded success then materials_applied + 1
             else materials_applied,
             materials_attempted)
      else
        say "No candy info found for {model_name}" [model_name] ;;
        ret (materials_applied, materials_attempted)
    else ret (materials_applied, materials_attempted)
  else if str_contains "plate" (str_lower object_name) then
    styled <- (has <- has_prim_path_attr obj ;;
               ret (has && truth bowl_styling)) ;;
    if styled then
      let materials_attempted := materials_attempted + 1 in
      color <- dict_get bowl_styling "color"
                 (floats [1.0; 1.0; 0.0]%float) ;;
      roughness <- dict_get bowl_styling "roughness" (VFloat 0.2) ;;
      metallic <- dict_get bowl_styling "metallic" (VFloat 0.0) ;;
      let bowl_info := VDict [(VStr "name", VStr "Yellow Bowl");
                              (VStr "color", color);
                              (VStr "roughness", roughness);
                              (VStr "metallic", metallic)] in
      say "Transforming plate -> Yellow Bowl" [] ;;
      path <- prim_path_attr obj ;;
      say "Prim path: {obj.prim_path}" [VStr path] ;;
      path <- prim_path_attr obj ;;
      success <- _apply_material_to_object self path bowl_info
                   (VStr "Yellow_Bowl") ;;
      ret (if succeeded success then materials_applied + 1
           else materials_applied,
           materials_attempted)
    else
      has <- has_prim_path_attr obj ;;
      say "Plate object {object_name} - prim_path: {hasattr(obj, 'prim_path')}, bowl_styling: {bool(bowl_styling)}"
          [VStr object_name; VBool has; VBool (truth bowl_styling)] ;;
      ret (materials_applied, materials_attempted)
  else ret (materials_applied, materials_attempted).

(** Lines 280-410. *)
Definition _apply_candy_materials {R : Type} (self : Fields)
           (scene_objects : list (string * SceneObject Obj))
           (scene_config : Value) : Prog R unit :=
  function tt (
    try_except
      (say "Applying candy transformations..." [] ;;
       (* Check if Isaac Sim is ready for material operations *)
       try_except
         (call perform (import_module "omni.usd") ;;
          stage <- call perform get_stage ;;
          let stage_ready := match stage with
                             | Some _ => true
                             | None => false
                             end in
          say "Isaac Sim stage ready: {stage_ready}" [VBool stage_ready] ;;
          when (negb stage_ready)
               (say "USD stage not available - materials may not be applied"
                    []))
         (fun e =>
            if is_ImportError e
            then Some (
              say "USD libraries not loaded - this is expected during early initialization"
                  [] ;;
              say "Materials will be applied when Isaac Sim is fully loaded"
                  [])
            else None) ;;
       (* Get candy type configurations *)
       scene <- dict_get scene_config "scene" (VDict []) ;;
       oranges_config <- dict_get scene "oranges" (VDict []) ;;
       candy_types <- dict_get oranges_config "candy_types" (VDict []) ;;
       keys <- keys_of candy_types ;;
       say "Debug: Found candy types: {list(candy_types.keys())}"
           [VList keys] ;;
       (* Get styling configurations *)
       scene <- dict_get scene_config "scene" (VDict []) ;;
       plate_config <- dict_get scene "plate" (VDict []) ;;
       bowl_styling <- dict_get plate_config "bowl_styling" (VDict []) ;;
       (* Look for environment config in placement section *)
       placement <- dict_get scene_config "placement" (VDict []) ;;
       env_config <- dict_get placement "environment" (VDict []) ;;
       table_styling <- dict_get env_config "table_styling" (VDict []) ;;
       say "Debug: Bowl styling: {bowl_styling}" [bowl_styling] ;;
       say "Debug: Table styling: {table_styling}" [table_styling] ;;
       (* Apply candy materials to orange objects *)
       orange_models <- dict_get oranges_config "models"
                          (VList [VStr "Orange001"; VStr "Orange002";
                                  VStr "Orange003"]) ;;
       say "Debug: Orange models: {orange_models}" [orange_models] ;;
       counters <- for_fold scene_objects (0, 0)
                     (style_object self candy_types bowl_styling
                                   orange_models) ;;
       (* Apply table styling to ground *)
       counters <-
         (let (materials_applied, materials_attempted) :=
            counters : Z * Z in
          if truth table_styling then
            let materials_attempted := materials_attempted + 1 in
            color <- dict_get table_styling "color"
                       (floats [1.0; 1.0; 1.0]%float) ;;
            roughness <- dict_get table_styling "roughness" (VFloat 0.3) ;;
            metallic <- dict_get table_styling "metallic" (VFloat 0.0) ;;
            let table_info := VDict [(VStr "name", VStr "White Table");
                                     (VStr "color", color);
                                     (VStr "roughness", roughness);
                                     (VStr "metallic", metallic)] in
            say "Transforming ground -> White Table" [] ;;
            success <- _apply_material_to_ground self table_info ;;
            ret (if succeeded success then materials_applied + 1
                 else materials_applied,
                 materials_attempted)
          else ret (materials_applied, materials_attempted)) ;;
       let (materials_applied, materials_attempted) := counters : Z * Z in
       say "Candy transformations completed!" [] ;;
       say "Materials attempted: {materials_attempted}"
           [VInt materials_attempted] ;;
       say "Materials successfully applied: {materials_applied}"
           [VInt materials_applied] ;;
       say "Materials failed: {materials_attempted - materials_applied}"
           [VInt (materials_attempted - materials_applied)] ;;
       if materials_applied =? 0 then
         say "WARNING: No materials were successfully applied!" [] ;;
         say "This could be because:" [] ;;
         say "- Isaac Sim is not fully loaded yet" [] ;;
         say "- USD stage is not ready" [] ;;
         say "- Object prim paths are incorrect" [] ;;
         say "- Material binding failed" [] ;;
         say "Try waiting a few seconds and running the script again" []
       else if materials_applied <? materials_attempted then
         say "Some materials failed to apply - check the detailed error messages above"
             []
       else
         say "All materials applied successfully!" [] ;;
         say "If you don't see visual changes, try:" [] ;;
         say "- Pressing 'G' to cycle lighting modes in Isaac Sim" [] ;;
         say "- Rotating the viewport to refresh rendering" [] ;;
         say "- Checking that Lit mode is enabled (not Unlit)" [] ;;
         say "- For WHITE TABLE: Try orbiting camera to look down at ground plane"
             [] ;;
         say "- For WHITE TABLE: Check viewport lighting settings (may appear gray in some lighting)"
             [] ;;
         say "- Press the '4' key to switch to perspective view if in orthographic mode"
             [])
      (fun e =>
         if is_Exception e
         then Some (
           say "Failed to apply some candy materials: {e}" [] ;;
           say "Objects will appear with default materials" [] ;;
           say "Error details: {traceback.format_exc()}" [])
         else None)).

(** [if plate_obj:], line 107: an instance of the class of lines 260-274
    defines neither [__bool__] nor [__len__]. *)
Definition scene_object_truth {R : Type} (obj : SceneObject Obj)
  : Prog R bool :=
  match obj with
  | Rigid prim => call perform (object_truth prim)
  | Virtual _ => ret true
  end.

(** Lines 26-118. *)
Definition create_orange_plate_scene {R : Type} (self : Fields)
           (scene_config : Value)
  : Prog R (list (string * SceneObject Obj) * list Obj * Value) :=
  returning (
    say "Creating the orange and plate scene..." [] ;;
    let scene_objects : list (string * SceneObject Obj) := [] in
    (* Get configuration parameters *)
    plate_config <- config_utils.ConfigManager.get_plate_config
                      scene_config ;;
    orange_config <- config_utils.ConfigManager.get_orange_config
                       scene_config ;;
    (* Extract parameters *)
    plate_position <- subscript plate_config "position" ;;
    plate_radius <- subscript plate_config "radius" ;;
    plate_height <- subscript plate_config "height" ;;
    orange_count <- subscript orange_config "count" ;;
    orange_mass <- subscript orange_config "mass" ;;
    orange_usd_paths <- subscript orange_config "usd_paths" ;;
    x_range <- subscript orange_config "x_range" ;;
    y_range <- subscript orange_config "y_range" ;;
    z_drop_height <- subscript orange_config "z_drop_height" ;;
    orange_radius <- subscript orange_config "orange_radius" ;;
    min_distance <- subscript orange_config "min_distance" ;;
    max_attempts <- subscript orange_config "max_attempts" ;;
    say "Configuration parameters loaded:" [] ;;
    say "Plate Position: {plate_position}" [plate_position] ;;
    say "Plate Radius: {plate_radius}m, Height: {plate_height}m"
        [plate_radius; plate_height] ;;
    say "Number of Oranges: {orange_count}, Mass: {orange_mass}kg"
        [orange_count; orange_mass] ;;
    say "Orange Generation Range: X{x_range}, Y{y_range}, Z={z_drop_height}"
        [x_range; y_range; z_drop_height] ;;
    say "Min Distance: {min_distance}m, Max Attempts: {max_attempts}"
        [min_distance; max_attempts] ;;
    (* Initialize the smart placement system *)
    call perform (import_module "src.scene.smart_placement") ;;
    smart_placement <- call perform
                         (SmartPlacement "config/scene_config.yaml"
                                         plate_position) ;;
    (* Set plate position *)
    say "Setting plate position..." [] ;;
    plate_center <- copy plate_position ;;
    say "Using plate position from configuration file: {plate_center}"
        [plate_center] ;;
    (* Generate orange positions (avoiding the plate) *)
    say "Generating orange positions (avoiding the plate)..." [] ;;
    call perform (clear_placement_history smart_placement) ;;
    position <- call perform (np_array (Val plate_center)) ;;
    call perform (placed_objects_append smart_placement position) ;;
    call perform (object_sizes_plate_radius smart_placement) ;;
    say "Plate avoidance zone: Position {plate_center}, Radius {smart_placement.object_sizes['plate']['radius']}m"
        [plate_center] ;;
    (* Generate orange positions *)
    orange_types <- repeat_of "orange" orange_count ;;
    indices <- range_of orange_count ;;
    let orange_names := map scene_name indices in
    orange_positions <- call perform
                          (generate_safe_positions smart_placement
                                                   orange_types
                                                   orange_names) ;;
    (* Combine all positions *)
    plate_array <- call perform (np_array (Val plate_center)) ;;
    let safe_positions := orange_positions ++ [plate_array] in
    say "Generated {len(orange_positions)} orange positions + 1 plate position."
        [VInt (Z.of_nat (List.length orange_positions))] ;;
    (* Load orange objects *)
    orange_objects_loaded <- _load_orange_objects self orange_count
                               orange_usd_paths safe_positions orange_mass
                               scene_config ;;
    (* Add oranges to the scene objects dictionary *)
    let scene_objects :=
      fold_left (fun objects entry =>
                   dict_set (fst entry) (Rigid (snd entry)) objects)
                orange_objects_loaded scene_objects in
    (* Load the plate object *)
    plate_obj <- _load_plate_object self plate_center plate_radius
                   plate_height ;;
    truthy <- scene_object_truth plate_obj ;;
    let scene_objects :=
      if truthy then dict_set "plate_object" plate_obj scene_objects
      else scene_objects in
    (* Apply candy materials and styling *)
    say "Applying candy materials and styling..." [] ;;
    _apply_candy_materials self scene_objects scene_config ;;
    say "Orange and plate scene created: {len(scene_objects)} objects."
        [VInt (Z.of_nat (List.length scene_objects))] ;;
    for_each (map fst scene_objects)
             (fun name => say "- {name}" [VStr name]) ;;
    return_ (scene_objects, orange_positions, plate_center)).

End Methods.

End SceneFactory.

(** Lines 618-621. *)
Definition create_orange_plate_scene {World Obj Self R : Type}
           (perform : forall A : Type, Op Obj A -> World -> Outcome A * World)
           (project_root : string) (scene_config : Value)
  : Prog World (Op Obj) Self R
         (list (string * SceneObject Obj) * list Obj * Value) :=
  returning (
    let factory := SceneFactory.mkFields project_root in
    result <- SceneFactory.create_orange_plate_scene perform factory
                scene_config ;;
    return_ result).

End scene_factory.

(** ** A scripted outside

    A stand-in for numpy, Isaac Sim and the file system: objects are
    numbers, the files that exist are listed, every operation answers. *)
Module Scripted.

Import Python Outside.

Definition Obj : Type := Z.

Record World : Type := mkWorld {
  files : list string      (* the paths that exist *)
}.

Definition perform (A : Type) (op : Op Obj A) (w : World)
  : Outcome A * World :=
  match op in Op _ T return Outcome T * World with
  | os_path_exists path => (Gives (existsb (String.eqb path) (files w)), w)
  | yaml_safe_load _ => (Gives (VDict []), w)
  | import_module _ => (Gives tt, w)
  | py_repr _ => (Gives "", w)
  | object_truth _ => (Gives true, w)
  | np_array _ => (Gives 0, w)
  | tolist a => (Gives (VList [VInt a]), w)
  | format_coordinates _ _ => (Gives tt, w)
  | add_reference_to_stage _ _ => (Gives tt, w)
  | SingleRigidPrim _ _ _ _ => (Gives 1, w)
  | scene_add prim => (Gives prim, w)
  | get_stage => (Gives (Some 3), w)
  | GetPrimAtPath _ _ => (Gives 4, w)
  | DefinePrim _ _ _ => (Gives 5, w)
  | IsValid _ => (Gives true, w)
  | Vec3f_of _ => (Gives 8, w)
  | Set_ _ _ => (Gives tt, w)
  | Material _ => (Gives 9, w)
  | Shader _ => (Gives 10, w)
  | CreateIdAttr _ _ => (Gives tt, w)
  | CreateInput _ _ _ => (Gives 11, w)
  | CreateSurfaceOutput _ => (Gives 12, w)
  | ConnectableAPI _ => (Gives 13, w)
  | ConnectToSource _ _ _ => (Gives tt, w)
  | Bind _ _ => (Gives tt, w)
  | RemovePrim _ _ => (Gives tt, w)
  | GetChildren _ => (Gives [], w)
  | GetPath _ => (Gives "", w)
  | MaterialBindingAPI_Apply _ => (Gives 14, w)
  | prim_path_of _ => (Gives "/World/orange1", w)
  | has_prim_path _ => (Gives true, w)
  | SmartPlacement _ _ => (Gives 15, w)
  | clear_placement_history _ => (Gives tt, w)
  | placed_objects_append _ _ => (Gives tt, w)
  | object_sizes_plate_radius _ => (Gives tt, w)
  | generate_safe_positions _ _ names =>
      (Gives (map (fun _ => 16) names), w)
  end.

(** A project in [/p] with the first orange model and nothing else. *)
Definition one_model : World :=
  mkWorld ["/p/assets/objects/Orange001/Orange001.usd"].

(** The memory at the call of a function: nothing done or printed yet. *)
Definition fresh (w : World) : Mem World (Op Obj) unit := mkMem w tt [].

End Scripted.


(** * Facts about the script *)

Section Facts.

Variables (W J Pos Rot : Type).
Variable handle : forall A : Type, Call J Pos Rot A -> W -> Reply A * W.

Local Abbreviation State := (State W J Pos Rot).
Local Abbreviation Event := (Event W J Pos Rot).
Local Abbreviation M := (M W J Pos Rot).

(** ** Counting events *)

Lemma count_nil (p : Event -> bool) : count p [] = 0.
Proof. reflexivity. Qed.

Lemma count_app (p : Event -> bool) (l1 l2 : list Event) :
  count p (l1 ++ l2) = count p l1 + count p l2.
Proof.
  unfold count. rewrite filter_app, length_app, Nat2Z.inj_add. reflexivity.
Qed.

Lemma count_cons (p : Event -> bool) (ev : Event) (l : list Event) :
  count p (ev :: l) = (if p ev then 1 else 0) + count p l.
Proof.
  unfold count. cbn [filter]. destruct (p ev); cbn [List.length]; lia.
Qed.

Lemma count_nonneg (p : Event -> bool) (l : list Event) : 0 <= count p l.
Proof. unfold count. lia. Qed.

Lemma count_none (p q : Event -> bool) (l : list Event) :
  Forall (fun ev => q ev = true) l ->
  (forall ev, q ev = true -> p ev = false) ->
  count p l = 0.
Proof.
  intros Hl Hpq. induction Hl as [|ev l Hev _ IH].
  - reflexivity.
  - rewrite count_cons, IH, (Hpq ev Hev). reflexivity.
Qed.

(** ** The rules of [runs] *)

Lemma same_locals_trans (st1 st2 st3 : State) :
  same_locals st1 st2 -> same_locals st2 st3 -> same_locals st1 st3.
Proof.
  unfold same_locals. intros (a1 & a2 & a3 & a4 & a5) (b1 & b2 & b3 & b4 & b5).
  repeat split; congruence.
Qed.

Lemma same_locals_counters (st st' : State) :
  same_locals st st' -> counters st' = counters st.
Proof. intros (a1 & a2 & _). unfold counters. congruence. Qed.

Lemma runs_ret (A : Type) (a : A) (allowed : Event -> bool) :
  runs (ret a : M A) allowed (fun a' evs => a' = a /\ evs = []).
Proof.
  intros st. exists []. simpl. repeat split; constructor.
Qed.

Lemma runs_weaken (A : Type) (m : M A) (allowed allowed' : Event -> bool)
      (Q Q' : A -> list Event -> Prop) :
  runs m allowed Q ->
  (forall ev, allowed ev = true -> allowed' ev = true) ->
  (forall a evs, Q a evs -> Q' a evs) ->
  runs m allowed' Q'.
Proof.
  intros Hm Ha HQ st. destruct (Hm st) as (evs & Ht & Hl & Hf & Hc).
  exists evs. repeat split; try assumption.
  - apply Hl.
  - apply Hl.
  - apply Hl.
  - apply Hl.
  - apply Hl.
  - eapply Forall_impl; [|exact Hf]. intros ev [H1 H2]. split; auto.
  - destruct (fst (m st)); try assumption. destruct Hc. split; auto.
Qed.

Lemma runs_bind (A B : Type) (m : M A) (k : A -> M B)
      (allowed : Event -> bool) (Q1 : A -> list Event -> Prop)
      (Q2 : A -> B -> list Event -> Prop) :
  runs m allowed Q1 ->
  (forall a, (exists evs1, Q1 a evs1) -> runs (k a) allowed (Q2 a)) ->
  runs (bind m k) allowed
       (fun b evs => exists a evs1 evs2,
            evs = evs2 ++ evs1 /\ Q1 a evs1 /\ Q2 a b evs2).
Proof.
  intros Hm Hk st. unfold bind.
  destruct (Hm st) as (evs1 & Ht1 & Hl1 & Hf1 & Hc1).
  destruct (m st) as [c st1]. simpl in Ht1, Hl1, Hc1.
  destruct c as [a|e|code|]; try contradiction.
  - destruct Hc1 as [Hn1 HQ1].
    destruct (Hk a (ex_intro _ evs1 HQ1) st1) as (evs2 & Ht2 & Hl2 & Hf2 & Hc2).
    exists (evs2 ++ evs1). split; [|split; [|split]].
    + rewrite Ht2, Ht1. apply app_assoc.
    + eapply same_locals_trans; eassumption.
    + apply Forall_app. split; [|assumption].
      eapply Forall_impl; [|exact Hf2]. intros ev [H1 H2]. split; [assumption|].
      rewrite H2. apply same_locals_counters. assumption.
    + destruct (fst (k a st1)) as [b|e|code|]; try contradiction.
      * destruct Hc2 as [Hn2 HQ2]. split.
        -- rewrite existsb_app, Hn1, Hn2. reflexivity.
        -- exists a, evs1, evs2. auto.
      * destruct Hc2 as (ev & rest & -> & Hev).
        exists ev, (rest ++ evs1). split; [reflexivity | assumption].
  - exists evs1. simpl. auto.
Qed.

Lemma runs_call (A : Type) (c : Call J Pos Rot A) (allowed : Event -> bool) :
  (forall s r, allowed (EvCall s c r) = true) ->
  runs (call handle c) allowed
       (fun a evs => exists s, evs = [EvCall s c (Ok a)]).
Proof.
  intros Ha st. unfold call.
  destruct (handle c (world st)) as [r w'].
  exists [EvCall (snapshot st) c r].
  assert (Hthrow : forall e, answer_of_call c (Throw e) = AThrow e)
    by (intros e; destruct c; reflexivity).
  assert (Hok : forall a, is_throw (EvCall (snapshot st) c (Ok a)) = false)
    by (intros a; unfold is_throw; simpl; destruct c; try reflexivity;
        simpl; destruct a; reflexivity).
  destruct r as [a|e]; simpl; (split; [reflexivity|]);
    (split; [repeat split|]);
    (split; [constructor; [split; [apply Ha | reflexivity] | constructor] |]).
  - split; [rewrite Hok; reflexivity | eauto].
  - eexists _, []. split; [reflexivity|]. simpl. apply Hthrow.
Qed.

Lemma runs_print (m : Message) (allowed : Event -> bool) :
  (forall s, allowed (EvPrint s m) = true) ->
  runs (print m : M unit) allowed
       (fun _ evs => exists s, evs = [EvPrint s m]).
Proof.
  intros Ha st. exists [EvPrint (snapshot st) m]. simpl.
  split; [reflexivity|]. split; [repeat split|].
  split; [constructor; [split; [apply Ha | reflexivity] | constructor] |].
  split; [reflexivity | eauto].
Qed.

Lemma runs_get (A : Type) (f : State -> A) (allowed : Event -> bool) :
  runs (get f) allowed (fun _ evs => evs = []).
Proof.
  intros st. exists []. simpl. repeat split; constructor.
Qed.

Lemma runs_incr_frame_count (allowed : Event -> bool) :
  runs (incr_frame_count : M unit) allowed (fun _ evs => evs = []).
Proof.
  intros st. exists []. simpl. repeat split; constructor.
Qed.

(** The same rules for pieces of which only the footprint matters. *)

Lemma quiet_ret (A : Type) (a : A) (allowed : Event -> bool) :
  quiet (ret a : M A) allowed.
Proof.
  eapply runs_weaken; [apply runs_ret | intros ? Hallowed; exact Hallowed | intros; exact I].
Qed.

Lemma quiet_bind (A B : Type) (m : M A) (k : A -> M B)
      (allowed : Event -> bool) :
  quiet m allowed -> (forall a, quiet (k a) allowed) ->
  quiet (bind m k) allowed.
Proof.
  intros Hm Hk.
  eapply runs_weaken; [eapply runs_bind; [exact Hm | intros a _; apply Hk]
                      | intros ? Hallowed; exact Hallowed | intros; exact I].
Qed.

Lemma quiet_call (A : Type) (c : Call J Pos Rot A) (allowed : Event -> bool) :
  (forall s r, allowed (EvCall s c r) = true) ->
  quiet (call handle c) allowed.
Proof.
  intros Ha. eapply runs_weaken; [apply runs_call; exact Ha | intros ? Hallowed; exact Hallowed | intros; exact I].
Qed.

Lemma quiet_print (m : Message) (allowed : Event -> bool) :
  (forall s, allowed (EvPrint s m) = true) ->
  quiet (print m : M unit) allowed.
Proof.
  intros Ha. eapply runs_weaken; [apply runs_print; exact Ha | intros ? Hallowed; exact Hallowed | intros; exact I].
Qed.

Lemma quiet_get (A : Type) (f : State -> A) (allowed : Event -> bool) :
  quiet (get f) allowed.
Proof.
  eapply runs_weaken; [apply runs_get | intros ? Hallowed; exact Hallowed | intros; exact I].
Qed.

Lemma quiet_incr_frame_count (allowed : Event -> bool) :
  quiet (incr_frame_count : M unit) allowed.
Proof.
  eapply runs_weaken; [apply runs_incr_frame_count | intros ? Hallowed; exact Hallowed | intros; exact I].
Qed.

Lemma quiet_when (b : bool) (m : M unit) (allowed : Event -> bool) :
  quiet m allowed -> quiet (when b m) allowed.
Proof.
  intros Hm. destruct b; [exact Hm | apply quiet_ret].
Qed.

Lemma quiet_of_runs (A : Type) (m : M A) (allowed : Event -> bool)
      (Q : A -> list Event -> Prop) :
  runs m allowed Q -> quiet m allowed.
Proof.
  intros Hm. eapply runs_weaken; [exact Hm | intros ? Hallowed; exact Hallowed | intros; exact I].
Qed.

(** [for _ in range(n)] *)
Lemma runs_for_range (body : M unit) (allowed : Event -> bool)
      (Qb : list Event -> Prop) (n : nat) :
  runs body allowed (fun _ evs => Qb evs) ->
  runs (for_range n body) allowed (fun _ evs => blocks Qb n evs).
Proof.
  intros Hb. induction n as [|n IH]; simpl.
  - eapply runs_weaken; [apply runs_ret | intros ? Hallowed; exact Hallowed |].
    intros _ evs [_ ->]. constructor.
  - eapply runs_weaken;
      [eapply runs_bind; [exact Hb | intros ? _; exact IH] | intros ? Hallowed; exact Hallowed |].
    intros _ evs (? & evs1 & evs2 & -> & H1 & H2). constructor; assumption.
Qed.

(** A bounded wait: [while poll() passes and v < T: tick; v += 1], given
    at least as many rounds as the budget leaves. *)
Lemma runs_wait (X : Type) (poll : Call J Pos Rot X) (test : X -> bool)
      (tick : Z -> M Z) (T : Z) (allowed is_poll passes : Event -> bool)
      (Qt : list Event -> Prop) :
  (forall s r, allowed (EvCall s poll r) = true) ->
  (forall s r, is_poll (EvCall s poll r) = true) ->
  (forall s x, passes (EvCall s poll (Ok x)) = test x) ->
  (forall v, runs (tick v) allowed (fun v' evs => v' = v + 1 /\ Qt evs)) ->
  forall (n : nat) (v : Z),
    T - v <= Z.of_nat n ->
    runs (while_ n (fun v => x <- call handle poll ;;
                             ret (test x && (v <? T)))
                 tick v)
         allowed
         (fun vf evs => wait_trace is_poll passes Qt T v vf evs).
Proof.
  intros Ha Hp Hpass Htick.
  assert (Hcond : forall v,
             runs (x <- call handle poll ;; ret (test x && (v <? T)))
                  allowed
                  (fun b evs => exists s x,
                       evs = [EvCall s poll (Ok x)] /\
                       b = test x && (v <? T))).
  { intros v. eapply runs_weaken;
      [eapply runs_bind; [apply runs_call; exact Ha
                         | intros x _; apply runs_ret] | intros ? Hallowed; exact Hallowed |].
    intros b evs (x & evs1 & evs2 & -> & [s ->] & -> & ->).
    exists s, x. split; reflexivity. }
  induction n as [|n IH]; intros v Hn.
  - cbn [while_].
    eapply runs_weaken with
      (Q := fun vf evs => exists b evs1 evs2, evs = evs2 ++ evs1 /\
              (exists s x, evs1 = [EvCall s poll (Ok x)] /\
                           b = test x && (v <? T)) /\
              (vf = v /\ evs2 = [])); [| intros ? Hallowed; exact Hallowed |].
    + eapply runs_bind; [apply Hcond|].
      intros b (evs1 & s & x & _ & ->).
      assert ((v <? T) = false) as -> by (apply Z.ltb_ge; lia).
      rewrite andb_false_r. apply runs_ret.
    + intros vf evs (b & evs1 & evs2 & -> & (s & x & -> & ->) & -> & ->).
      simpl. apply wait_stop; [apply Hp|].
      rewrite Hpass. assert ((v <? T) = false) as -> by (apply Z.ltb_ge; lia).
      apply andb_false_r.
  - cbn [while_].
    eapply runs_weaken with
      (Q := fun vf evs => exists b evs1 evs2, evs = evs2 ++ evs1 /\
              (exists s x, evs1 = [EvCall s poll (Ok x)] /\
                           b = test x && (v <? T)) /\
              (if b
               then exists v' t_evs rest,
                   evs2 = rest ++ t_evs /\ (v' = v + 1 /\ Qt t_evs) /\
                   wait_trace is_poll passes Qt T (v + 1) vf rest
               else vf = v /\ evs2 = [])); [| intros ? Hallowed; exact Hallowed |].
    + eapply runs_bind; [apply Hcond|].
      intros b (evs1 & s & x & _ & Hb). destruct b.
      * eapply runs_weaken;
          [eapply runs_bind with
             (Q2 := fun _ vf evs =>
                      wait_trace is_poll passes Qt T (v + 1) vf evs);
           [apply Htick|] | intros ? Hallowed; exact Hallowed |].
        -- intros v' (t_evs & -> & _). apply IH.
           symmetry in Hb. apply andb_true_iff in Hb. destruct Hb as [_ Hb].
           apply Z.ltb_lt in Hb. lia.
        -- intros vf evs (v' & t_evs & rest & -> & Ht & Hw).
           exists v', t_evs, rest. auto.
      * apply runs_ret.
    + intros vf evs (b & evs1 & evs2 & -> & (s & x & -> & Hb) & H2).
      destruct b.
      * destruct H2 as (v' & t_evs & rest & -> & (_ & Ht) & Hw).
        symmetry in Hb. apply andb_true_iff in Hb. destruct Hb as [Hx Hv].
        apply Z.ltb_lt in Hv. rewrite <- app_assoc.
        apply wait_step; try assumption; [apply Hp | rewrite Hpass; exact Hx].
      * destruct H2 as [-> ->]. simpl. apply wait_stop; [apply Hp|].
        rewrite Hpass. symmetry. exact Hb.
Qed.

Lemma runs_record_footprint (A : Type) (m : M A) (allowed : Event -> bool)
      (Q : A -> list Event -> Prop) :
  runs m allowed Q ->
  runs m allowed
       (fun a evs => Q a evs /\ Forall (fun ev => allowed ev = true) evs).
Proof.
  intros Hm st. destruct (Hm st) as (evs & Ht & Hl & Hf & Hc).
  exists evs. repeat split; try apply Hl; try assumption.
  destruct (fst (m st)); try assumption. destruct Hc as [Hn HQ].
  repeat split; try assumption.
  eapply Forall_impl; [|exact Hf]. intros ev [H _]. exact H.
Qed.

(** A piece whose value is all that matters after a quiet prefix. *)
Lemma runs_bind_value (A B : Type) (m : M A) (k : A -> M B)
      (allowed : Event -> bool) (P : B -> Prop) :
  quiet m allowed ->
  (forall a, runs (k a) allowed (fun b _ => P b)) ->
  runs (bind m k) allowed (fun b _ => P b).
Proof.
  intros Hm Hk.
  eapply runs_weaken;
    [eapply runs_bind; [exact Hm | intros a _; apply Hk]
    | intros ? Hallowed; exact Hallowed |].
  intros b evs (a & evs1 & evs2 & _ & _ & H). exact H.
Qed.

Ltac quiet_auto :=
  repeat first
    [ apply quiet_ret
    | apply quiet_get
    | apply quiet_incr_frame_count
    | apply quiet_call; intros; reflexivity
    | apply quiet_print; intros; reflexivity
    | apply quiet_when
    | apply quiet_bind; [| intros ?]
    | match goal with
      | |- quiet (match ?x with _ => _ end) _ => destruct x
      end ].

(** ** The per-tick routine *)

Lemma warmup_updates_quiet (headless : bool) :
  quiet (warmup_updates handle headless) is_update_call.
Proof. unfold warmup_updates. quiet_auto. Qed.

Lemma completion_updates_quiet (headless : bool) :
  quiet (completion_updates handle headless) is_update_call.
Proof. unfold completion_updates. quiet_auto. Qed.

Lemma idle_updates_quiet (headless : bool) :
  quiet (idle_updates handle headless) is_update_call.
Proof. unfold idle_updates. quiet_auto. Qed.

Lemma reset_updates_quiet (headless : bool) :
  quiet (reset_updates handle headless) is_update_call.
Proof. unfold reset_updates. quiet_auto. Qed.

Lemma is_update_call_tick (ev : Event) :
  is_update_call ev = true -> is_tick_call ev = true.
Proof.
  unfold is_update_call. intros H. apply andb_true_iff in H. apply H.
Qed.

Lemma is_update_call_not_step (ev : Event) :
  is_update_call ev = true -> is_step ev = false.
Proof.
  unfold is_update_call. intros H. apply andb_true_iff in H.
  destruct H as [_ H]. apply negb_true_iff in H. exact H.
Qed.

Lemma tick_shape (A : Type) (rest : M A) (headless : bool) (P : A -> Prop) :
  runs rest is_update_call (fun a _ => P a) ->
  runs (call handle (world_step (negb headless)) ;; rest) is_tick_call
       (fun a evs => P a /\ one_tick evs).
Proof.
  intros Hrest.
  eapply runs_weaken with (allowed := is_tick_call);
    [eapply runs_bind;
     [apply runs_call; intros; reflexivity
     | intros ? _; eapply runs_weaken;
       [apply runs_record_footprint; exact Hrest
       | apply is_update_call_tick
       | intros ? ? H; exact H]]
    | intros ? Hallowed; exact Hallowed |].
  intros a evs (? & evs1 & evs2 & -> & [s ->] & HP & Hf).
  split; [exact HP|]. split.
  - rewrite count_app, count_cons, count_nil.
    rewrite (@count_none is_step is_update_call evs2 Hf
                         is_update_call_not_step).
    reflexivity.
  - apply Forall_app. split.
    + eapply Forall_impl; [|exact Hf]. apply is_update_call_tick.
    + constructor; [reflexivity | constructor].
Qed.

Lemma warmup_tick_runs (headless : bool) :
  runs (warmup_tick handle headless) is_tick_call (fun _ evs => one_tick evs).
Proof.
  unfold warmup_tick.
  eapply runs_weaken;
    [apply tick_shape with (P := fun _ => True)
    | intros ? Hallowed; exact Hallowed
    | intros a evs [_ H]; exact H].
  apply quiet_bind; [apply quiet_incr_frame_count | intros _].
  apply quiet_bind; [apply quiet_call; intros; reflexivity | intros playing].
  apply quiet_when. apply warmup_updates_quiet.
Qed.

Lemma completion_tick_runs (headless : bool) (v : Z) :
  runs (completion_tick handle headless v) is_tick_call
       (fun v' evs => v' = v + 1 /\ one_tick evs).
Proof.
  unfold completion_tick. apply tick_shape.
  apply runs_bind_value; [apply quiet_incr_frame_count | intros _].
  apply runs_bind_value; [apply quiet_call; intros; reflexivity|].
  intros playing.
  apply runs_bind_value;
    [apply quiet_when; apply completion_updates_quiet | intros _].
  eapply runs_weaken;
    [apply runs_ret | intros ? Hallowed; exact Hallowed |].
  intros a evs [-> _]. reflexivity.
Qed.

Lemma idle_tick_runs (headless : bool) (v : Z) :
  runs (idle_tick handle headless v) is_tick_call
       (fun v' evs => v' = v + 1 /\ one_tick evs).
Proof.
  unfold idle_tick. apply tick_shape.
  apply runs_bind_value; [apply quiet_incr_frame_count | intros _].
  apply runs_bind_value; [apply quiet_call; intros; reflexivity|].
  intros playing.
  apply runs_bind_value;
    [apply quiet_when; apply idle_updates_quiet | intros _].
  eapply runs_weaken;
    [apply runs_ret | intros ? Hallowed; exact Hallowed |].
  intros a evs [-> _]. reflexivity.
Qed.

Lemma reset_tick_runs (headless : bool) (v : Z) :
  runs (reset_tick handle headless v) is_tick_call
       (fun v' evs => v' = v + 1 /\ one_tick evs).
Proof.
  unfold reset_tick. apply tick_shape.
  apply runs_bind_value; [apply quiet_incr_frame_count | intros _].
  apply runs_bind_value; [apply quiet_call; intros; reflexivity|].
  intros playing.
  apply runs_bind_value;
    [apply quiet_when; apply reset_updates_quiet | intros _].
  eapply runs_weaken;
    [apply runs_ret | intros ? Hallowed; exact Hallowed |].
  intros a evs [-> _]. reflexivity.
Qed.

(** ** Bounded waits *)

Section WaitTraces.

Variables (is_poll passes : Event -> bool) (Qt : list Event -> Prop) (T : Z).

Lemma wait_trace_bounds (v vf : Z) (evs : list Event) :
  wait_trace is_poll passes Qt T v vf evs -> v <= T -> v <= vf <= T.
Proof.
  induction 1 as [v ev Hp Hs | v vf ev t rest Hp Hpass Hv Ht Hw IH]; intros Hle.
  - lia.
  - specialize (IH ltac:(lia)). lia.
Qed.

(** The newest event of a wait is the poll that ended it. *)
Lemma wait_trace_newest (v vf : Z) (evs : list Event) :
  wait_trace is_poll passes Qt T v vf evs ->
  exists ev rest,
    evs = ev :: rest /\ is_poll ev = true /\
    passes ev && (vf <? T) = false.
Proof.
  induction 1 as [v ev Hp Hs | v vf ev t rest Hp Hpass Hv Ht Hw IH].
  - exists ev, []. auto.
  - destruct IH as (ev' & rest' & -> & Hp' & Hs').
    exists ev', (rest' ++ t ++ [ev]). auto.
Qed.

Lemma wait_trace_count (p : Event -> bool) (k : Z) (v vf : Z)
      (evs : list Event) :
  (forall t, Qt t -> count p t = k) ->
  (forall ev, is_poll ev = true -> p ev = false) ->
  wait_trace is_poll passes Qt T v vf evs ->
  count p evs = k * (vf - v).
Proof.
  intros Hk Hpoll.
  induction 1 as [v ev Hp Hs | v vf ev t rest Hp Hpass Hv Ht Hw IH].
  - rewrite count_cons, count_nil, (Hpoll ev Hp). lia.
  - rewrite !count_app, count_cons, count_nil, (Hpoll ev Hp), IH, (Hk t Ht).
    lia.
Qed.

End WaitTraces.

Lemma tick_in_completion_wait (ev : Event) :
  is_tick_call ev = true -> in_completion_wait ev = true.
Proof. unfold in_completion_wait. intros ->. reflexivity. Qed.

Lemma tick_in_idle_wait (ev : Event) :
  is_tick_call ev = true -> in_idle_wait ev = true.
Proof. unfold in_idle_wait. intros ->. reflexivity. Qed.

Lemma await_completion_runs (headless : bool) :
  runs (await_completion handle headless) in_completion_wait
       (fun vf evs =>
          wait_trace is_busy_poll still_busy one_tick completion_timeout
                     0 vf evs).
Proof.
  unfold await_completion.
  apply runs_wait with (test := fun busy : bool => busy).
  - intros; reflexivity.
  - intros; reflexivity.
  - intros s x. destruct x; reflexivity.
  - intros v. eapply runs_weaken;
      [apply completion_tick_runs | apply tick_in_completion_wait
      | intros ? ? H; exact H].
  - rewrite Z2Nat.id; unfold completion_timeout; lia.
Qed.

Lemma await_idle_loop_runs (headless : bool) :
  runs (await_idle_loop handle headless) in_idle_wait
       (fun vf evs =>
          wait_trace is_state_poll not_yet_idle one_tick idle_wait_timeout
                     0 vf evs).
Proof.
  unfold await_idle_loop.
  apply runs_wait
    with (test := fun state : string => negb (String.eqb state "IDLE")).
  - intros; reflexivity.
  - intros; reflexivity.
  - intros s x. reflexivity.
  - intros v. eapply runs_weaken;
      [apply idle_tick_runs | apply tick_in_idle_wait
      | intros ? ? H; exact H].
  - rewrite Z2Nat.id; unfold idle_wait_timeout; lia.
Qed.

Lemma reset_wait_loop_runs (headless : bool) :
  runs (reset_wait_loop handle headless) in_idle_wait
       (fun vf evs =>
          wait_trace is_state_poll not_yet_idle one_tick reset_timeout
                     0 vf evs).
Proof.
  unfold reset_wait_loop.
  apply runs_wait
    with (test := fun state : string => negb (String.eqb state "IDLE")).
  - intros; reflexivity.
  - intros; reflexivity.
  - intros s x. reflexivity.
  - intros v. eapply runs_weaken;
      [apply reset_tick_runs | apply tick_in_idle_wait
      | intros ? ? H; exact H].
  - rewrite Z2Nat.id; unfold reset_timeout; lia.
Qed.

(** ** The phases that leave the counters alone *)

Ltac keep_footprint := intros ? Hallowed; exact Hallowed.

Ltac same_footprint :=
  match goal with
  | |- runs _ ?f _ =>
      eapply runs_weaken with (allowed := f); [ | keep_footprint | ]
  end.

Lemma trigger_runs :
  runs (trigger handle) is_attempt_event
       (fun _ evs => exists s0 s1,
            evs = [EvCall s1 (simulate_key_press str_target_index) (Ok tt);
                   EvPrint s0 (MsgAttempting target_index)]).
Proof.
  unfold trigger.
  same_footprint;
    [eapply runs_bind;
     [apply runs_print; intros; reflexivity
     | intros ? _; apply runs_call; intros; reflexivity]
    |].
  intros [] evs (? & evs1 & evs2 & -> & [s0 ->] & [s1 ->]).
  exists s0, s1. reflexivity.
Qed.

Lemma warmup_runs (headless : bool) :
  runs (warmup handle headless) is_attempt_event
       (fun _ evs => exists s2 warm,
            evs = warm ++ [EvPrint s2 MsgWaitingForStart] /\
            blocks one_tick 10 warm).
Proof.
  unfold warmup.
  same_footprint;
    [eapply runs_bind;
     [apply runs_print; intros; reflexivity
     | intros ? _; apply runs_for_range with (Qb := one_tick);
       eapply runs_weaken;
       [apply warmup_tick_runs
       | intros ev Hev; unfold is_attempt_event, in_completion_wait;
         rewrite Hev; reflexivity
       | intros ? ? H; exact H]]
    |].
  intros [] evs (? & evs1 & evs2 & -> & [s2 ->] & Hb).
  exists s2, evs2. auto.
Qed.

Lemma handle_timeout_runs (step_count : Z) :
  runs (handle_timeout handle step_count) is_attempt_event
       (fun _ evs => timeout_tail step_count evs).
Proof.
  unfold handle_timeout, timeout_tail, when.
  destruct (completion_timeout <=? step_count).
  - same_footprint;
      [eapply runs_bind;
       [apply runs_print; intros; reflexivity
       | intros ? _; apply runs_call; intros; reflexivity]
      |].
    intros [] evs (? & evs1 & evs2 & -> & [sb ->] & [sa ->]).
    exists sa, sb. reflexivity.
  - same_footprint; [apply runs_ret |].
    intros ? evs [_ ->]. reflexivity.
Qed.

Lemma attempt_runs (headless : bool) :
  runs (attempt handle headless) is_attempt_event
       (fun _ evs => attempt_shape evs).
Proof.
  unfold attempt.
  same_footprint;
    [eapply runs_bind;
     [apply trigger_runs
     | intros ? _; eapply runs_bind;
       [apply warmup_runs
       | intros ? _; eapply runs_bind;
         [eapply runs_weaken;
          [apply await_completion_runs
          | intros ev Hev; unfold is_attempt_event; rewrite Hev; reflexivity
          | intros ? ? H; exact H]
         | intros step_count _; apply handle_timeout_runs]]]
    |].
  intros [] evs (? & trig & evs' & -> & (s0 & s1 & ->) &
                 ? & warm' & evs'' & -> & (s2 & warm & -> & Hwarm) &
                 vf & wait & tail & -> & Hwait & Htail).
  exists tail, wait, warm, s0, s1, s2, vf.
  repeat split; try assumption.
  rewrite <- !app_assoc. reflexivity.
Qed.

Lemma await_idle_runs (headless : bool) :
  runs (await_idle handle headless) is_idle_event
       (fun _ evs => idle_shape evs).
Proof.
  unfold await_idle.
  same_footprint;
    [eapply runs_bind;
     [apply runs_print; intros; reflexivity
     | intros ? _; eapply runs_bind with
         (Q2 := fun vf (_ : unit) evs =>
                  if idle_wait_timeout <=? vf
                  then exists s1, evs = [EvPrint s1 MsgIdleTimeoutWarning]
                  else evs = []);
       [eapply runs_weaken;
        [apply await_idle_loop_runs
        | intros ev Hev; unfold is_idle_event; rewrite Hev; reflexivity
        | intros ? ? H; exact H]
       | intros vf _; unfold when; destruct (idle_wait_timeout <=? vf);
         [apply runs_print; intros; reflexivity
         | same_footprint; [apply runs_ret |];
           intros ? ? [_ ->]; reflexivity]]]
    |].
  intros [] evs (? & evs1 & evs' & -> & [s0 ->] &
                 vf & wait & warning & -> & Hwait & Hwarn).
  exists warning, wait, s0, vf. repeat split; try assumption.
  rewrite <- app_assoc. reflexivity.
Qed.

Lemma reset_scene_runs (headless : bool) :
  runs (reset_scene handle headless) is_reset_event
       (fun _ evs => reset_shape evs).
Proof.
  unfold reset_scene.
  same_footprint;
    [eapply runs_bind;
     [apply runs_print; intros; reflexivity
     | intros ? _; eapply runs_bind;
       [apply runs_call; intros; reflexivity
       | intros ? _; eapply runs_bind;
         [eapply runs_weaken;
          [apply reset_wait_loop_runs
          | intros ev Hev; unfold is_reset_event; rewrite Hev; reflexivity
          | intros ? ? H; exact H]
         | intros vf _; apply runs_ret]]]
    |].
  intros [] evs (? & evs1 & evs' & -> & [s0 ->] &
                 [] & evs2 & evs'' & -> & [s1 ->] &
                 vf & wait & nothing & -> & Hwait & _ & ->).
  exists wait, s0, s1, vf. split; [|assumption].
  simpl. rewrite <- app_assoc. reflexivity.
Qed.

Lemma runs_at (A : Type) (m : M A) (allowed : Event -> bool)
      (Q : A -> list Event -> Prop) (st : State) :
  runs m allowed Q ->
  exists evs,
    trace (snd (m st)) = evs ++ trace st /\
    same_locals st (snd (m st)) /\
    match fst (m st) with
    | Normal a => completed allowed (Q a) (counters st) evs
    | Raised e => aborted allowed (counters st) e evs
    | Returned _ => False
    | OutOfFuel => False
    end.
Proof.
  intros Hm. destruct (Hm st) as (evs & Ht & Hl & Hf & Hc).
  exists evs. split; [exact Ht|]. split; [exact Hl|].
  assert (Hs : stamped (counters st) evs)
    by (eapply Forall_impl; [|exact Hf]; intros ev [_ H]; exact H).
  assert (Ha : Forall (fun ev => allowed ev = true) evs)
    by (eapply Forall_impl; [|exact Hf]; intros ev [H _]; exact H).
  destruct (fst (m st)); try assumption.
  - destruct Hc. repeat split; assumption.
  - repeat split; assumption.
Qed.

Lemma attempt_begins (headless : bool) (st : State) :
  exists rest key msg,
    trace (snd (attempt handle headless st)) = rest ++ [key; msg] ++ trace st /\
    is_trigger key = true /\
    kind msg = KPrint (MsgAttempting target_index).
Proof.
  assert (Hrest : quiet (warmup handle headless ;;
                         step_count <- await_completion handle headless ;;
                         handle_timeout handle step_count)
                        is_attempt_event).
  { apply quiet_bind; [eapply quiet_of_runs; apply warmup_runs | intros _].
    apply quiet_bind;
      [eapply quiet_of_runs; eapply runs_weaken;
       [apply await_completion_runs
       | intros ev Hev; unfold is_attempt_event; rewrite Hev; reflexivity
       | intros ? ? H; exact H]
      | intros step_count; eapply quiet_of_runs; apply handle_timeout_runs]. }
  unfold attempt, trigger, bind at 1, bind at 1, print at 1, call at 1. simpl.
  destruct (handle (simulate_key_press str_target_index) (world st))
    as [[[]|e] w].
  - match goal with
    | |- context [snd (bind ?m ?k ?st1)] =>
        destruct (Hrest st1) as (evs & Ht & _)
    end.
    eexists evs, _, _. split; [rewrite Ht; reflexivity|].
    split; reflexivity.
  - eexists [], _, _. split; [reflexivity|]. split; reflexivity.
Qed.

Lemma conclusion_cases (headless : bool) (Q : Z) (st st' : State)
      (c : Completion LoopCtl) :
  (await_idle handle headless ;;
   n <- get (@successful_grasps W J Pos Rot) ;;
   (if Q <=? n then ret Break else reset_scene handle headless ;; ret Next))
    st = (c, st') ->
  exists tail,
    trace st' = tail ++ trace st /\
    same_locals st st' /\
    conclusion Q (successful_grasps st) (total_runs st) c tail.
Proof.
  unfold bind at 1.
  destruct (runs_at st (await_idle_runs headless)) as (idle & Ht1 & Hl1 & Hc1).
  destruct (await_idle handle headless st) as [c1 st1].
  simpl in Ht1, Hl1, Hc1. change (counters st) with
    (successful_grasps st, total_runs st) in Hc1.
  destruct c1 as [[]|e| |]; try contradiction.
  2:{ intros [= <- <-]. exists idle. repeat split; try apply Hl1.
      - assumption.
      - apply concl_idle_raised. assumption. }
  unfold bind at 1, get at 1.
  destruct Hl1 as (Hs1 & Htot1 & Hcam1 & Hdcm1 & Happ1).
  rewrite Hs1. destruct (Q <=? successful_grasps st) eqn:HQ.
  { apply Z.leb_le in HQ. intros [= <- <-]. exists idle.
    repeat split; try assumption. apply concl_break; assumption. }
  apply Z.leb_gt in HQ. unfold bind at 1.
  destruct (runs_at st1 (reset_scene_runs headless))
    as (reset & Ht2 & Hl2 & Hc2).
  destruct (reset_scene handle headless st1) as [c2 st2].
  simpl in Ht2, Hl2, Hc2.
  assert (Hl : same_locals st st2)
    by (eapply same_locals_trans; [|exact Hl2]; repeat split; assumption).
  unfold counters in Hc2. rewrite Hs1, Htot1 in Hc2.
  destruct c2 as [[]|e| |]; try contradiction;
    intros [= <- <-]; exists (reset ++ idle);
    (split; [rewrite Ht2, Ht1; apply app_assoc|]);
    (split; [exact Hl|]).
  - apply concl_next; assumption.
  - apply concl_reset_raised; assumption.
Qed.

Lemma loop_body_episode (headless : bool) (Q : Z) (st st' : State)
      (c : Completion LoopCtl) :
  loop_body handle headless Q st = (c, st') ->
  exists evs,
    trace st' = evs ++ trace st /\
    total_runs st' = total_runs st + 1 /\
    camera_controller st' = camera_controller st /\
    data_collection_manager st' = data_collection_manager st /\
    simulation_app st' = simulation_app st /\
    episode Q (successful_grasps st) (total_runs st + 1) c
            (successful_grasps st') evs.
Proof.
  set (s := successful_grasps st). set (t := total_runs st + 1).
  set (st0 := set_total_runs t st).
  set (start := EvPrint (snapshot st0) (MsgStartingRun t s Q) : Event).
  set (st1 := log_event start st0).
  assert (Hstart : observed start (KPrint (MsgStartingRun t s Q)) ADone (s, t))
    by (repeat split).
  assert (Hbody : loop_body handle headless Q st
                  = (if Q <=? s then ret Break
                     else attempt handle headless ;;
                          evaluate handle headless Q) st1) by reflexivity.
  rewrite Hbody. clear Hbody.
  destruct (Q <=? s) eqn:HQ.
  { apply Z.leb_le in HQ. intros [= <- <-]. exists [start].
    repeat split. apply ep_quota_met; assumption. }
  apply Z.leb_gt in HQ.
  unfold bind at 1.
  destruct (runs_at st1 (attempt_runs headless)) as (att & Ht1 & Hl1 & Hc1).
  destruct (attempt_begins headless st1)
    as (rest0 & key0 & msg0 & Hb & Hbeg).
  rewrite Ht1, app_assoc in Hb. apply app_inv_tail in Hb.
  destruct (attempt handle headless st1) as [c1 st2]. simpl in Ht1, Hl1, Hc1.
  destruct Hl1 as (Hs2 & Ht2 & Hcam2 & Hdcm2 & Happ2).
  change (successful_grasps st1) with s in Hs2.
  change (total_runs st1) with t in Ht2.
  change (camera_controller st1) with (camera_controller st) in Hcam2.
  change (data_collection_manager st1)
    with (data_collection_manager st) in Hdcm2.
  change (simulation_app st1) with (simulation_app st) in Happ2.
  change (counters st1) with (s, t) in Hc1.
  destruct c1 as [[]|e| |]; try contradiction.
  2:{ intros [= <- <-]. exists (att ++ [start]).
      rewrite Ht1, <- app_assoc, Hs2. repeat split; try assumption.
      apply ep_attempt_raised; try assumption.
      exists rest0, key0, msg0. auto. }
  (* EVALUATE *)
  unfold evaluate, bind at 1, call at 1.
  destruct (handle get_and_clear_hard_reset_flag (world st2))
    as [rflag wflag].
  set (flag := EvCall (snapshot st2) get_and_clear_hard_reset_flag rflag).
  assert (Hsnap2 : counters_at flag = (s, t))
    by (unfold flag, counters_at; simpl; rewrite Hs2, Ht2; reflexivity).
  destruct rflag as [[|]|e].
  - (* the flag was set: the episode is void *)
    assert (Hflag : observed flag KGetAndClearHardResetFlag (ABool true) (s, t))
      by (repeat split; assumption).
    unfold bind, print, call. simpl.
    set (msg := EvPrint _ MsgHardReset : Event).
    assert (Hmsg : observed msg (KPrint MsgHardReset) ADone (s, t))
      by (repeat split; unfold msg, counters_at; simpl;
          rewrite Hs2, Ht2; reflexivity).
    destruct (handle (simulate_key_press "r") wflag) as [rkey wkey].
    set (key := EvCall _ (simulate_key_press "r") rkey : Event).
    assert (Hkey : counters_at key = (s, t))
      by (unfold key, counters_at; simpl; rewrite Hs2, Ht2; reflexivity).
    destruct rkey as [[]|e]; intros [= <- <-];
      exists (key :: msg :: flag :: att ++ [start]); simpl;
      rewrite Ht1, <- app_assoc, Hs2; repeat split; try assumption.
    + apply ep_void; try assumption. repeat split; assumption.
    + apply ep_void_raised; try assumption. repeat split; assumption.
  - (* the outcome is read *)
    assert (Hflag : observed flag KGetAndClearHardResetFlag (ABool false)
                             (s, t))
      by (repeat split; assumption).
    unfold record_outcome.
    unfold bind at 1. unfold bind at 1. unfold call at 1. simpl.
    destruct (handle get_last_attempt_status wflag) as [rstatus wstatus].
    set (status := EvCall _ get_last_attempt_status rstatus : Event).
    assert (Hstatus : counters_at status = (s, t))
      by (unfold status, counters_at; simpl; rewrite Hs2, Ht2; reflexivity).
    destruct rstatus as [was_successful|e].
    2:{ intros [= <- <-]. exists (status :: flag :: att ++ [start]). simpl.
        rewrite Ht1, <- app_assoc, Hs2. repeat split; try assumption.
        apply ep_status_raised; try assumption. repeat split; assumption. }
    assert (Hstatus' : observed status KGetLastAttemptStatus
                                (ABool was_successful) (s, t))
      by (repeat split; assumption).
    set (st3 := set_world wstatus
                  (log_event status (set_world wflag (log_event flag st2)))).
    set (s' := if was_successful then s + 1 else s).
    assert (Hverdict : exists verdict st4,
               (if was_successful
                then incr_successful_grasps ;;
                     n <- get (@successful_grasps W J Pos Rot) ;;
                     print (MsgSuccess target_index n)
                else print (MsgFailed target_index)) st3
               = (Normal tt, st4) /\
               trace st4 = verdict :: status :: flag :: trace st2 /\
               successful_grasps st4 = s' /\
               total_runs st4 = t /\
               camera_controller st4 = camera_controller st /\
               data_collection_manager st4 = data_collection_manager st /\
               simulation_app st4 = simulation_app st /\
               observed verdict
                        (KPrint (if was_successful
                                 then MsgSuccess target_index s'
                                 else MsgFailed target_index))
                        ADone (s', t)).
    { unfold s'. destruct was_successful;
        (eexists _, _; split; [reflexivity|]; simpl;
         rewrite Hs2, Ht2; repeat split; try assumption;
         unfold counters_at; simpl; rewrite ?Hs2, ?Ht2; reflexivity). }
    destruct Hverdict as (verdict & st4 & -> & Htr4 & Hs4 & Ht4 & Hcam4 &
                          Hdcm4 & Happ4 & Hv).
    intros Hrest. apply conclusion_cases in Hrest.
    destruct Hrest
      as (tail & Htr & (Hsucc & Htot & Hcam & Hdcm & Happ) & Hconcl).
    exists (tail ++ verdict :: status :: flag :: att ++ [start]).
    rewrite Hs4, Ht4 in Hconcl.
    split; [rewrite Htr, Htr4, Ht1, <- app_assoc; simpl;
            rewrite <- app_assoc; reflexivity|].
    repeat split; try congruence.
    rewrite Hsucc, Hs4.
    eapply ep_evaluated; try eassumption. reflexivity.
  - (* reading the flag threw *)
    intros [= <- <-]. exists (flag :: att ++ [start]). simpl.
    rewrite Ht1, <- app_assoc, Hs2. repeat split; try assumption.
    apply ep_flag_raised; try assumption. repeat split; assumption.
Qed.

(** ** What the episodes have in common *)

Lemma episode_successes (Q s t s' : Z) (c : Completion LoopCtl)
      (evs : list Event) :
  episode Q s t c s' evs -> s <= s' <= s + 1.
Proof.
  intros H. inversion H; subst; try lia.
  destruct was_successful; lia.
Qed.

Lemma episode_break (Q s t s' : Z) (evs : list Event) :
  episode Q s t (Normal Break) s' evs -> Q <= s'.
Proof.
  intros H. inversion H; subst.
  - assumption.
  - match goal with Hc : conclusion _ _ _ _ _ |- _ => inversion Hc end.
    assumption.
Qed.

Lemma stamped_app (c : Z * Z) (l1 l2 : list Event) :
  stamped c l1 -> stamped c l2 -> stamped c (l1 ++ l2).
Proof. intros H1 H2. apply Forall_app. split; assumption. Qed.

Lemma stamped_cons (c : Z * Z) (ev : Event) (k : Kind) (a : Answer)
      (l : list Event) :
  observed ev k a c -> stamped c l -> stamped c (ev :: l).
Proof. intros (_ & _ & H) Hl. constructor; assumption. Qed.

Lemma conclusion_stamped (Q s t : Z) (c : Completion LoopCtl)
      (tail : list Event) :
  conclusion Q s t c tail -> stamped (s, t) tail.
Proof.
  intros H. inversion H; subst;
    repeat match goal with
           | Hc : completed _ _ _ _ |- _ => destruct Hc as (? & _)
           | Ha : aborted _ _ _ _ |- _ => destruct Ha as (? & _)
           end;
    try assumption; apply stamped_app; assumption.
Qed.

(** The events of an episode fall into an older part that saw the counters
    as they were after the increment of [total_runs], and a newer part that
    saw them after the outcome was recorded. *)
Lemma episode_stamps (Q s t s' : Z) (c : Completion LoopCtl)
      (evs : list Event) :
  episode Q s t c s' evs ->
  exists newer older start,
    evs = newer ++ older ++ [start] /\
    stamped (s', t) newer /\
    stamped (s, t) (older ++ [start]) /\
    kind start = KPrint (MsgStartingRun t s Q).
Proof.
  assert (Hone : forall (ev : Event) k a c0,
             observed ev k a c0 -> stamped c0 [ev])
    by (intros ev k a c0 (_ & _ & H); constructor; [exact H | constructor]).
  intros H.
  destruct H as [ start Hstart HQ
                | e start att Hstart HQ Hatt Htrig
                | e start att flag Hstart HQ Hatt Hflag
                | start att flag msg key Hstart HQ Hatt Hflag Hmsg Hkey
                | e start att flag msg key Hstart HQ Hatt Hflag Hmsg Hkey
                | e start att flag status Hstart HQ Hatt Hflag Hstatus
                | c start att flag status was_successful s' verdict tail
                    Hstart HQ Hatt Hflag Hstatus Hs' Hverdict Hconcl ];
    repeat match goal with
           | Hc : completed _ _ _ _ |- _ => destruct Hc as (? & _)
           | Ha : aborted _ _ _ _ |- _ => destruct Ha as (? & _)
           end;
    [ exists [], [], start
    | exists [], att, start
    | exists [], (flag :: att), start
    | exists [], (key :: msg :: flag :: att), start
    | exists [], (key :: msg :: flag :: att), start
    | exists [], (status :: flag :: att), start
    | exists (tail ++ [verdict]), (status :: flag :: att), start ];
    (split; [try rewrite <- app_assoc; reflexivity|]);
    (split; [|split;
              [|match goal with
                | Hs : observed start _ _ _ |- _ => apply Hs
                end]]);
    repeat first [ apply Forall_nil
                 | assumption
                 | eapply Hone; eassumption
                 | eapply conclusion_stamped; eassumption
                 | eapply stamped_cons; [eassumption|]
                 | apply stamped_app ].
Qed.

(** ** The episode loop *)

Lemma automated_loop_unfold (fuel : nat) (headless : bool) (Q : Z)
      (st : State) :
  automated_loop handle fuel headless Q st
  = if successful_grasps st <? Q
    then match fuel with
         | O => (OutOfFuel, st)
         | S fuel' =>
             match loop_body handle headless Q st with
             | (Normal Break, st1) => (Normal tt, st1)
             | (Normal Next, st1) =>
                 automated_loop handle fuel' headless Q st1
             | (Raised e, st1) => (Raised e, st1)
             | (Returned code, st1) => (Returned code, st1)
             | (OutOfFuel, st1) => (OutOfFuel, st1)
             end
         end
    else (Normal tt, st).
Proof.
  destruct fuel; simpl; unfold bind, get; simpl;
    destruct (successful_grasps st <? Q); try reflexivity.
  destruct (loop_body handle headless Q st) as [[[]| | |] ?]; reflexivity.
Qed.

Lemma loop_body_successes (headless : bool) (Q : Z) (st : State) :
  successful_grasps st
  <= successful_grasps (snd (loop_body handle headless Q st))
  <= successful_grasps st + 1.
Proof.
  destruct (loop_body handle headless Q st) as [c st'] eqn:E.
  destruct (loop_body_episode _ _ _ E) as (evs & _ & _ & _ & _ & _ & Hep).
  simpl. eapply episode_successes. exact Hep.
Qed.

Lemma loop_body_break (headless : bool) (Q : Z) (st st' : State) :
  loop_body handle headless Q st = (Normal Break, st') ->
  Q <= successful_grasps st'.
Proof.
  intros E.
  destruct (loop_body_episode _ _ _ E) as (evs & _ & _ & _ & _ & _ & Hep).
  eapply episode_break. exact Hep.
Qed.

(** X7. Whatever the collaborators do, an episode loop that ends normally
    ends with the quota met exactly. *)
Lemma automated_loop_exact (fuel : nat) (headless : bool) (Q : Z)
      (st st' : State) :
  successful_grasps st <= Q ->
  automated_loop handle fuel headless Q st = (Normal tt, st') ->
  successful_grasps st' = Q.
Proof.
  revert st. induction fuel as [|fuel IH]; intros st Hle;
    rewrite automated_loop_unfold;
    destruct (successful_grasps st <? Q) eqn:Hlt;
    try (apply Z.ltb_ge in Hlt; intros [= <-]; lia);
    try discriminate.
  apply Z.ltb_lt in Hlt.
  pose proof (loop_body_successes headless Q st) as Hs.
  destruct (loop_body handle headless Q st) as [[[]| | |] st1] eqn:E;
    try discriminate; simpl in Hs.
  - apply IH. lia.
  - intros [= <-]. apply loop_body_break in E. lia.
Qed.

(** More fuel does not change a run that ended. *)
Lemma automated_loop_more_fuel (fuel fuel' : nat) (headless : bool) (Q : Z)
      (st st' : State) (c : Completion unit) :
  automated_loop handle fuel headless Q st = (c, st') ->
  c <> OutOfFuel ->
  (fuel <= fuel')%nat ->
  automated_loop handle fuel' headless Q st = (c, st').
Proof.
  revert fuel' st. induction fuel as [|fuel IH]; intros fuel' st;
    rewrite !automated_loop_unfold;
    destruct (successful_grasps st <? Q) eqn:Hlt; try (intros; assumption).
  - intros [= <- <-] Hc. congruence.
  - intros Hrun Hc Hle. destruct fuel' as [|fuel']; [lia|].
    destruct (loop_body handle headless Q st) as [[[]| | |] st1];
      try assumption.
    apply IH; [assumption | assumption | lia].
Qed.

(** C5. Every run of the loop body increments [total_runs] exactly once, and
    before anything else happens: the body leaves [total_runs] one higher,
    and every event of the episode, from the first printed line on, already
    sees the incremented value.  That holds for every episode, voided or
    not. *)
Theorem total_runs_incremented_at_entry (headless : bool) (Q : Z)
        (st : State) :
  let st' := snd (loop_body handle headless Q st) in
  total_runs st' = total_runs st + 1 /\
  exists evs start,
    trace st' = evs ++ [start] ++ trace st /\
    kind start = KPrint (MsgStartingRun (total_runs st + 1)
                                        (successful_grasps st) Q) /\
    Forall (fun ev => snap_total_runs (ev_snapshot ev) = total_runs st + 1)
           (evs ++ [start]).
Proof.
  destruct (loop_body handle headless Q st) as [c st'] eqn:E. simpl.
  destruct (loop_body_episode _ _ _ E)
    as (evs & Htr & Htot & _ & _ & _ & Hep).
  split; [exact Htot|].
  destruct (episode_stamps Hep)
    as (newer & older & start & -> & Hnew & Hold & Hstart).
  exists (newer ++ older), start.
  split; [rewrite Htr, <- !app_assoc; reflexivity|].
  split; [exact Hstart|].
  rewrite <- app_assoc. apply Forall_app. split.
  - eapply Forall_impl; [|exact Hnew]. intros ev Hev.
    unfold counters_at in Hev. congruence.
  - eapply Forall_impl; [|exact Hold]. intros ev Hev.
    unfold counters_at in Hev. congruence.
Qed.

(** ** Classifying events *)

Lemma new_events_app (st st' : State) (evs : list Event) :
  trace st' = evs ++ trace st -> new_events st st' = evs.
Proof.
  intros H. unfold new_events. rewrite H, length_app.
  replace (List.length evs + List.length (trace st)
           - List.length (trace st))%nat
    with (List.length evs + 0)%nat by lia.
  rewrite firstn_app_2. simpl. apply app_nil_r.
Qed.

Ltac classify :=
  unfold is_post_event, flag_was_set, reported_idle, is_attempt_event,
    is_idle_event, is_reset_event, in_completion_wait, in_idle_wait,
    is_update_call, is_tick_call, is_busy_poll, is_state_poll, is_fail,
    is_status_read, is_flag_read, is_trigger, is_key_press, is_step,
    is_warning, is_print, still_busy, not_yet_idle in *.

Ltac by_kind ev :=
  classify; destruct (kind ev) as [key| | | | | | | | | | | | | | | | | | |m];
  try destruct m; simpl in *; try discriminate; auto.

Lemma tick_call_class (ev : Event) :
  is_tick_call ev = true ->
  is_fail ev = false /\ is_busy_poll ev = false /\ is_state_poll ev = false /\
  is_key_press ev = false /\ is_print ev = false /\
  is_flag_read ev = false /\ is_status_read ev = false.
Proof. intros H. by_kind ev; repeat split. Qed.

Lemma attempt_event_class (ev : Event) :
  is_attempt_event ev = true ->
  is_flag_read ev = false /\ is_status_read ev = false /\
  is_state_poll ev = false /\ is_warning ev = false.
Proof. intros H. by_kind ev; repeat split. Qed.

Lemma post_event_class (ev : Event) :
  is_post_event ev = true ->
  is_fail ev = false /\ is_trigger ev = false /\ is_busy_poll ev = false.
Proof.
  intros H. by_kind ev; repeat split.
  rewrite orb_false_r in H. apply String.eqb_eq in H. rewrite H.
  reflexivity.
Qed.

Lemma idle_event_class (ev : Event) :
  is_idle_event ev = true ->
  is_post_event ev = true /\ is_flag_read ev = false /\
  is_status_read ev = false /\ is_key_press ev = false.
Proof. intros H. by_kind ev; repeat split. Qed.

Lemma reset_event_class (ev : Event) :
  is_reset_event ev = true ->
  is_post_event ev = true /\ is_flag_read ev = false /\
  is_status_read ev = false /\ is_warning ev = false.
Proof.
  intros H. by_kind ev; repeat split; classify; try rewrite H; auto;
    destruct (is_tick_call ev || is_state_poll ev); reflexivity.
Qed.

Lemma flag_was_set_read (ev : Event) :
  flag_was_set ev = true -> is_flag_read ev = true.
Proof. intros H. by_kind ev. Qed.

(** A poll of [is_busy] answers with a boolean or throws. *)
Lemma busy_poll_answer (ev : Event) :
  is_busy_poll ev = true ->
  is_throw ev = false ->
  reported_idle ev = false ->
  still_busy ev = true.
Proof.
  unfold is_busy_poll, is_throw, reported_idle, still_busy.
  destruct ev as [s A c r | s m]; simpl; [|discriminate].
  destruct c; simpl; try discriminate.
  destruct r as [[|]|e]; simpl; auto; discriminate.
Qed.

Lemma blocks_count (Qb : list Event -> Prop) (p : Event -> bool) (k : Z)
      (n : nat) (evs : list Event) :
  (forall b, Qb b -> count p b = k) ->
  blocks Qb n evs -> count p evs = k * Z.of_nat n.
Proof.
  intros Hk. induction 1 as [|n b rest Hb _ IH].
  - rewrite count_nil. lia.
  - rewrite count_app, IH, (Hk b Hb). lia.
Qed.

Lemma wait_trace_polls (is_poll passes : Event -> bool)
      (Qt : list Event -> Prop) (T : Z) (v vf : Z) (evs : list Event) :
  (forall t, Qt t -> count is_poll t = 0) ->
  wait_trace is_poll passes Qt T v vf evs ->
  count is_poll evs = vf - v + 1.
Proof.
  intros Ht.
  induction 1 as [v ev Hev Hs | v vf ev t rest Hev Hpass Hv Hq Hw IH].
  - rewrite count_cons, count_nil, Hev. lia.
  - rewrite !count_app, count_cons, count_nil, Hev, IH, (Ht t Hq). lia.
Qed.

Lemma one_tick_steps (t : list Event) : one_tick t -> count is_step t = 1.
Proof. intros [H _]. exact H. Qed.

Lemma one_tick_none (p : Event -> bool) (t : list Event) :
  (forall ev, is_tick_call ev = true -> p ev = false) ->
  one_tick t -> count p t = 0.
Proof.
  intros Hp [_ H]. eapply count_none; [exact H | exact Hp].
Qed.

Lemma completed_triggered (c : Z * Z) (att : list Event) :
  completed is_attempt_event attempt_shape c att -> triggered att.
Proof.
  intros (_ & _ & _ & tail & wait & warm & s0 & s1 & s2 & vf & -> & _).
  exists (tail ++ wait ++ warm ++ [EvPrint s2 MsgWaitingForStart]),
    (EvCall s1 (simulate_key_press str_target_index) (Ok tt)),
    (EvPrint s0 (MsgAttempting target_index)).
  split; [rewrite <- !app_assoc; reflexivity|].
  split; reflexivity.
Qed.

Lemma conclusion_post (Q s t : Z) (c : Completion LoopCtl)
      (tail : list Event) :
  conclusion Q s t c tail ->
  Forall (fun ev => is_post_event ev = true) tail.
Proof.
  assert (Hi : forall l : list Event,
             Forall (fun ev => is_idle_event ev = true) l ->
             Forall (fun ev => is_post_event ev = true) l)
    by (intros l; apply Forall_impl; intros ev H;
        apply idle_event_class; exact H).
  assert (Hr : forall l : list Event,
             Forall (fun ev => is_reset_event ev = true) l ->
             Forall (fun ev => is_post_event ev = true) l)
    by (intros l; apply Forall_impl; intros ev H;
        apply reset_event_class; exact H).
  intros H.
  destruct H as [e idle Hidle | idle Hidle HQ | e idle reset Hidle HQ Hreset
                | idle reset Hidle HQ Hreset];
    repeat match goal with
           | Hc : completed _ _ _ _ |- _ => destruct Hc as (_ & ? & _)
           | Ha : aborted _ _ _ _ |- _ => destruct Ha as (_ & ? & _)
           end;
    try apply Forall_app; try split; auto.
Qed.

(** The events of an episode that was entered with the quota unmet: the
    line of line 294, the attempt, and what EVALUATE and the later phases
    appended. *)
Lemma episode_parts (Q s t s' : Z) (c : Completion LoopCtl)
      (evs : list Event) :
  episode Q s t c s' evs ->
  s < Q ->
  exists post att start,
    evs = post ++ att ++ [start] /\
    is_print start = true /\
    triggered att /\
    Forall (fun ev => is_attempt_event ev = true) att /\
    Forall (fun ev => is_post_event ev = true) post /\
    (completed is_attempt_event attempt_shape (s, t) att \/
     post = [] /\ existsb is_throw att = true).
Proof.
  assert (Hobs : forall (ev : Event) k a c0 (p : Event -> bool) b,
             observed ev k a c0 ->
             (forall ev', kind ev' = k -> p ev' = b) -> p ev = b)
    by (intros ev k a c0 p b (Hk & _) Hp; apply Hp; exact Hk).
  intros H Hlt.
  destruct H as [ start Hstart HQ
                | e start att Hstart HQ Hatt Htrig
                | e start att flag Hstart HQ Hatt Hflag
                | start att flag msg key Hstart HQ Hatt Hflag Hmsg Hkey
                | e start att flag msg key Hstart HQ Hatt Hflag Hmsg Hkey
                | e start att flag status Hstart HQ Hatt Hflag Hstatus
                | c start att flag status was_successful s' verdict tail
                    Hstart HQ Hatt Hflag Hstatus Hs' Hverdict Hconcl ];
    [ lia
    | exists [], att, start
    | exists [flag], att, start
    | exists [key; msg; flag], att, start
    | exists [key; msg; flag], att, start
    | exists [status; flag], att, start
    | exists (tail ++ [verdict; status; flag]), att, start ];
    (split; [try rewrite <- app_assoc; reflexivity|]);
    (split; [eapply Hobs;
             [exact Hstart
             | intros ev' Hk; unfold is_print; rewrite Hk; reflexivity]|]);
    (split; [first [exact Htrig | eapply completed_triggered; exact Hatt]|]);
    (split; [apply Hatt|]).
  - split; [constructor|]. right. split; [reflexivity|].
    destruct Hatt as (_ & _ & ev & rest & -> & Hev). simpl.
    unfold is_throw. rewrite Hev. reflexivity.
  - split; [|left; exact Hatt].
    repeat constructor; classify.
    + destruct Hflag as (-> & _). reflexivity.
  - split; [|left; exact Hatt].
    repeat constructor; classify.
    + destruct Hkey as (-> & _). reflexivity.
    + destruct Hmsg as (-> & _). reflexivity.
    + destruct Hflag as (-> & _). reflexivity.
  - split; [|left; exact Hatt].
    repeat constructor; classify.
    + destruct Hkey as (-> & _). reflexivity.
    + destruct Hmsg as (-> & _). reflexivity.
    + destruct Hflag as (-> & _). reflexivity.
  - split; [|left; exact Hatt].
    repeat constructor; classify.
    + destruct Hstatus as (-> & _). reflexivity.
    + destruct Hflag as (-> & _). reflexivity.
  - split; [|left; exact Hatt].
    apply Forall_app. split; [eapply conclusion_post; exact Hconcl|].
    repeat constructor; classify.
    + destruct Hverdict as (-> & _). destruct was_successful; reflexivity.
    + destruct Hstatus as (-> & _). reflexivity.
    + destruct Hflag as (-> & _). reflexivity.
Qed.

(** An episode entered with the quota unmet begins with the line of line
    294, the line of line 302 and the select-target key. *)
Lemma loop_body_triggers (headless : bool) (Q : Z) (st : State) :
  successful_grasps st < Q ->
  exists rest key msg start,
    trace (snd (loop_body handle headless Q st))
    = rest ++ [key; msg; start] ++ trace st /\
    is_trigger key = true /\
    kind msg = KPrint (MsgAttempting target_index) /\
    is_print start = true.
Proof.
  intros Hlt.
  destruct (loop_body handle headless Q st) as [c st'] eqn:E. simpl.
  destruct (loop_body_episode _ _ _ E) as (evs & Htr & _ & _ & _ & _ & Hep).
  destruct (episode_parts Hep Hlt)
    as (post & att & start & -> & Hstart & (rest & key & msg & -> & Hk & Hm)
        & _).
  exists (post ++ rest), key, msg, start.
  split; [rewrite Htr, <- !app_assoc; reflexivity|]. auto.
Qed.

(** ** Voided episodes *)

Lemma existsb_false_forall (p : Event -> bool) (l : list Event) :
  Forall (fun ev => p ev = false) l -> existsb p l = false.
Proof.
  induction 1 as [|ev l Hev _ IH]; simpl; [reflexivity|].
  rewrite Hev, IH. reflexivity.
Qed.

Lemma conclusion_events (Q s t : Z) (c : Completion LoopCtl)
      (tail : list Event) :
  conclusion Q s t c tail ->
  Forall (fun ev => is_idle_event ev = true \/ is_reset_event ev = true) tail.
Proof.
  intros H.
  destruct H as [e idle Hidle | idle Hidle HQ | e idle reset Hidle HQ Hreset
                | idle reset Hidle HQ Hreset];
    repeat match goal with
           | Hc : completed _ _ _ _ |- _ => destruct Hc as (_ & ? & _)
           | Ha : aborted _ _ _ _ |- _ => destruct Ha as (_ & ? & _)
           end;
    try apply Forall_app; try split;
    try (eapply Forall_impl; [|eassumption]; intros ev Hev; auto).
Qed.

Lemma conclusion_no_read (Q s t : Z) (c : Completion LoopCtl)
      (tail : list Event) :
  conclusion Q s t c tail ->
  Forall (fun ev => is_flag_read ev = false /\ is_status_read ev = false)
         tail.
Proof.
  intros H. eapply Forall_impl; [|apply (conclusion_events H)].
  intros ev [Hev|Hev].
  - apply idle_event_class in Hev. split; apply Hev.
  - apply reset_event_class in Hev. split; apply Hev.
Qed.

Lemma not_flag_read_not_set (ev : Event) :
  is_flag_read ev = false -> flag_was_set ev = false.
Proof.
  intros H. destruct (flag_was_set ev) eqn:E; [|reflexivity].
  apply flag_was_set_read in E. congruence.
Qed.

Lemma observed_flag_was_set (ev : Event) (k : Kind) (a : Answer)
      (c : Z * Z) :
  observed ev k a c ->
  flag_was_set ev = match k, a with
                    | KGetAndClearHardResetFlag, ABool true => true
                    | _, _ => false
                    end.
Proof. intros (<- & <- & _). reflexivity. Qed.

(** An episode in which the flag was found set went the void way. *)
Lemma episode_void (Q s t s' : Z) (c : Completion LoopCtl)
      (evs : list Event) :
  episode Q s t c s' evs ->
  existsb flag_was_set evs = true ->
  s' = s /\ s < Q /\
  exists key msg flag att start,
    evs = key :: msg :: flag :: att ++ [start] /\
    kind key = KKeyPress "r" /\
    kind msg = KPrint MsgHardReset /\
    flag_was_set flag = true /\
    completed is_attempt_event attempt_shape (s, t) att /\
    is_print start = true /\
    (c = Normal Next /\ answer key = ADone \/
     exists e, c = Raised e /\ answer key = AThrow e).
Proof.
  assert (Hatt : forall att : list Event,
             Forall (fun ev => is_attempt_event ev = true) att ->
             Forall (fun ev => flag_was_set ev = false) att).
  { intros att. apply Forall_impl. intros ev Hev.
    apply not_flag_read_not_set. apply attempt_event_class. exact Hev. }
  assert (Htail : forall Q s t c tail,
             conclusion Q s t c tail ->
             Forall (fun ev : Event => flag_was_set ev = false) tail).
  { intros Q0 s0 t0 c0 tail Hc.
    eapply Forall_impl; [|apply (conclusion_no_read Hc)].
    intros ev [Hev _]. apply not_flag_read_not_set. exact Hev. }
  intros H Hset.
  destruct H as [ start Hstart HQ
                | e start att Hstart HQ Ha Htrig
                | e start att flag Hstart HQ Ha Hflag
                | start att flag msg key Hstart HQ Ha Hflag Hmsg Hkey
                | e start att flag msg key Hstart HQ Ha Hflag Hmsg Hkey
                | e start att flag status Hstart HQ Ha Hflag Hstatus
                | c start att flag status was_successful s' verdict tail
                    Hstart HQ Ha Hflag Hstatus Hs' Hverdict Hconcl ].
  1-3,6-7:
    exfalso; rewrite existsb_false_forall in Hset; [discriminate|];
    repeat first
           [ apply Forall_nil
           | apply Forall_app; split
           | apply Forall_cons
           | apply Hatt; apply Ha
           | eapply Htail; eassumption
           | match goal with
             | Ho : observed ?ev _ _ _ |- flag_was_set ?ev = false =>
                 rewrite (observed_flag_was_set Ho); try reflexivity
             end ].
  - split; [reflexivity|]. split; [assumption|].
    exists key, msg, flag, att, start.
    split; [reflexivity|]. split; [apply Hkey|]. split; [apply Hmsg|].
    split; [rewrite (observed_flag_was_set Hflag); reflexivity|].
    split; [assumption|].
    split; [destruct Hstart as (Hk & _); unfold is_print; rewrite Hk;
            reflexivity|].
    left. split; [reflexivity | apply Hkey].
  - split; [reflexivity|]. split; [assumption|].
    exists key, msg, flag, att, start.
    split; [reflexivity|]. split; [apply Hkey|]. split; [apply Hmsg|].
    split; [rewrite (observed_flag_was_set Hflag); reflexivity|].
    split; [assumption|].
    split; [destruct Hstart as (Hk & _); unfold is_print; rewrite Hk;
            reflexivity|].
    right. exists e. split; [reflexivity | apply Hkey].
Qed.

(** C2. In every episode in which the read of the critical-failure flag
    (made once the completion wait and its timeout handling are over) finds
    the flag set: [successful_grasps] is left as it was, the last-attempt
    outcome is not read, the last things the episode does are to print the
    hard-reset line and to press the reset key, and, unless that key press
    throws, the body ends by [continue]: the loop condition holds as before,
    the loop goes on with the state the episode left, and the next run of
    the body presses the select-target key again. *)
Theorem void_episode (headless : bool) (Q : Z) (st : State) :
  let r := loop_body handle headless Q st in
  let evs := new_events st (snd r) in
  existsb flag_was_set evs = true ->
  successful_grasps (snd r) = successful_grasps st /\
  existsb is_status_read evs = false /\
  (exists key msg flag rest,
      evs = key :: msg :: flag :: rest /\
      kind key = KKeyPress "r" /\
      kind msg = KPrint MsgHardReset /\
      flag_was_set flag = true /\
      (fst r = Normal Next /\ answer key = ADone \/
       exists e, fst r = Raised e /\ answer key = AThrow e)) /\
  (fst r = Normal Next ->
   successful_grasps (snd r) < Q /\
   (forall fuel,
       automated_loop handle (S fuel) headless Q st
       = automated_loop handle fuel headless Q (snd r)) /\
   exists rest key msg start,
     trace (snd (loop_body handle headless Q (snd r)))
     = rest ++ [key; msg; start] ++ trace (snd r) /\
     is_trigger key = true).
Proof.
  destruct (loop_body handle headless Q st) as [c st'] eqn:E. cbn [fst snd].
  destruct (loop_body_episode _ _ _ E) as (evs & Htr & _ & _ & _ & _ & Hep).
  rewrite (@new_events_app st st' evs Htr). intros Hset.
  destruct (episode_void Hep Hset)
    as (Hs & Hlt & key & msg & flag & att & start & -> & Hkey & Hmsg & Hflag
        & Hatt & Hstart & Hc).
  split; [exact Hs|]. split; [|split].
  - apply existsb_false_forall.
    assert (Hk : forall (ev : Event) k,
               kind ev = k ->
               match k with KGetLastAttemptStatus => False | _ => True end ->
               is_status_read ev = false)
      by (intros ev k <-; unfold is_status_read; destruct (kind ev);
          try reflexivity; contradiction).
    repeat apply Forall_cons.
    + eapply Hk; [exact Hkey | exact I].
    + eapply Hk; [exact Hmsg | exact I].
    + apply flag_was_set_read in Hflag. unfold is_flag_read in Hflag.
      unfold is_status_read. destruct (kind flag); try discriminate;
        reflexivity.
    + apply Forall_app. split.
      * eapply Forall_impl; [|apply Hatt]. intros ev Hev.
        apply attempt_event_class. exact Hev.
      * repeat constructor. unfold is_print in Hstart.
        unfold is_status_read. destruct (kind start); try discriminate;
          reflexivity.
  - exists key, msg, flag, (att ++ [start]). auto.
  - intros Hnext. rewrite Hs. split; [exact Hlt|]. split.
    + intros fuel. rewrite (automated_loop_unfold (S fuel)).
      apply Z.ltb_lt in Hlt. rewrite Hlt, E, Hnext. reflexivity.
    + destruct (@loop_body_triggers headless Q st')
        as (rest & key' & msg' & start' & Htr' & Hk' & _); [lia|].
      exists rest, key', msg', start'. auto.
Qed.

(** ** The completion wait and its timeout *)

Lemma existsb_false_in (p : Event -> bool) (l : list Event) (ev : Event) :
  existsb p l = false -> In ev l -> p ev = false.
Proof.
  intros H Hin. destruct (p ev) eqn:E; [|reflexivity].
  assert (existsb p l = true) by (apply existsb_exists; eauto). congruence.
Qed.

Lemma busy_poll_class (ev : Event) :
  is_busy_poll ev = true ->
  is_fail ev = false /\ is_step ev = false /\ is_trigger ev = false.
Proof. intros H. by_kind ev. Qed.

Lemma state_poll_class (ev : Event) :
  is_state_poll ev = true ->
  is_fail ev = false /\ is_step ev = false /\ is_trigger ev = false /\
  is_warning ev = false.
Proof. intros H. by_kind ev. Qed.

(** A completion wait none of whose polls threw or found the state machine
    idle used up its budget. *)
Lemma completion_wait_exhausted (vf : Z) (wait : list Event) :
  wait_trace is_busy_poll still_busy one_tick completion_timeout 0 vf wait ->
  existsb is_throw wait = false ->
  existsb reported_idle wait = false ->
  vf = completion_timeout.
Proof.
  intros Hw Hthrow Hidle.
  pose proof (wait_trace_bounds Hw) as Hb.
  destruct (wait_trace_newest Hw) as (ev & rest & -> & Hpoll & Hstop).
  assert (Hbusy : still_busy ev = true).
  { apply busy_poll_answer; [exact Hpoll | |].
    - eapply existsb_false_in; [exact Hthrow | left; reflexivity].
    - eapply existsb_false_in; [exact Hidle | left; reflexivity]. }
  rewrite Hbusy in Hstop. simpl in Hstop. apply Z.ltb_ge in Hstop.
  unfold completion_timeout in *. lia.
Qed.

(** C3. In an episode in which no call throws and no poll of [is_busy] finds
    the state machine idle, [fail_current_task] is called exactly once; the
    call and the timeout line before it come right after a completion wait
    of exactly 3600 steps (and 3601 polls, all the polls of the episode),
    which the 10 steps of the warm-up precede. *)
Theorem timeout_force_fails_once (headless : bool) (Q : Z) (st : State) :
  let r := loop_body handle headless Q st in
  let evs := new_events st (snd r) in
  successful_grasps st < Q ->
  existsb is_throw evs = false ->
  existsb reported_idle evs = false ->
  count is_fail evs = 1 /\
  exists later fail msg wait earlier,
    evs = later ++ [fail; msg] ++ wait ++ earlier /\
    kind fail = KFailCurrentTask /\
    kind msg = KPrint (MsgTimedOut target_index) /\
    count is_step wait = 3600 /\
    count is_busy_poll wait = 3601 /\
    count is_busy_poll later = 0 /\
    count is_busy_poll earlier = 0 /\
    count is_step earlier = 10.
Proof.
  destruct (loop_body handle headless Q st) as [c st'] eqn:E. cbn [fst snd].
  destruct (loop_body_episode _ _ _ E) as (evs & Htr & _ & _ & _ & _ & Hep).
  rewrite (@new_events_app st st' evs Htr). intros Hlt Hthrow Hidle.
  destruct (episode_parts Hep Hlt)
    as (post & att & start & -> & Hstart & _ & _ & Hpost & Hatt).
  rewrite !existsb_app in Hthrow, Hidle.
  apply orb_false_iff in Hthrow. destruct Hthrow as [_ Hthrow].
  apply orb_false_iff in Hthrow. destruct Hthrow as [Hthrow _].
  apply orb_false_iff in Hidle. destruct Hidle as [_ Hidle].
  apply orb_false_iff in Hidle. destruct Hidle as [Hidle _].
  destruct Hatt as [Hatt | [_ Habs]]; [|congruence].
  destruct Hatt as (_ & _ & _ & tail & wait & warm & s0 & s1 & s2 & vf & ->
                    & Hwarm & Hwait & Htail).
  rewrite !existsb_app in Hthrow, Hidle.
  apply orb_false_iff in Hthrow. destruct Hthrow as [_ Hthrow].
  apply orb_false_iff in Hthrow. destruct Hthrow as [Hthrow _].
  apply orb_false_iff in Hidle. destruct Hidle as [_ Hidle].
  apply orb_false_iff in Hidle. destruct Hidle as [Hidle _].
  pose proof (completion_wait_exhausted Hwait Hthrow Hidle) as ->.
  unfold timeout_tail in Htail. rewrite Z.leb_refl in Htail.
  destruct Htail as (sa & sb & ->).
  (* the counts of the parts *)
  assert (Hpost_fail : count is_fail post = 0)
    by (eapply count_none; [exact Hpost | apply post_event_class]).
  assert (Hpost_poll : count is_busy_poll post = 0)
    by (eapply count_none; [exact Hpost | apply post_event_class]).
  assert (Hwait_fail : count is_fail wait = 0).
  { replace 0 with (0 * (completion_timeout - 0)) by lia.
    eapply wait_trace_count; [| |exact Hwait].
    - intros t0. apply one_tick_none. apply tick_call_class.
    - apply busy_poll_class. }
  assert (Hwait_step : count is_step wait = 3600).
  { replace 3600 with (1 * (completion_timeout - 0)) by reflexivity.
    eapply wait_trace_count; [| |exact Hwait].
    - apply one_tick_steps.
    - apply busy_poll_class. }
  assert (Hwait_poll : count is_busy_poll wait = 3601).
  { replace 3601 with (completion_timeout - 0 + 1) by reflexivity.
    eapply wait_trace_polls; [|exact Hwait].
    intros t0. apply one_tick_none. apply tick_call_class. }
  assert (Hwarm_fail : count is_fail warm = 0).
  { replace 0 with (0 * Z.of_nat 10) by lia.
    eapply blocks_count; [|exact Hwarm].
    intros t0. apply one_tick_none. apply tick_call_class. }
  assert (Hwarm_poll : count is_busy_poll warm = 0).
  { replace 0 with (0 * Z.of_nat 10) by lia.
    eapply blocks_count; [|exact Hwarm].
    intros t0. apply one_tick_none. apply tick_call_class. }
  assert (Hwarm_step : count is_step warm = 10).
  { replace 10 with (1 * Z.of_nat 10) by reflexivity.
    eapply blocks_count; [|exact Hwarm].
    apply one_tick_steps. }
  assert (Hstart_k : is_fail start = false /\ is_busy_poll start = false /\
                     is_step start = false)
    by (unfold is_print in Hstart; unfold is_fail, is_busy_poll, is_step;
        destruct (kind start); try discriminate; auto).
  destruct Hstart_k as (Hs1 & Hs2 & Hs3).
  split.
  - rewrite !count_app, !count_cons, !count_nil, Hpost_fail, Hwait_fail,
      Hwarm_fail, Hs1. reflexivity.
  - exists post, (EvCall sa fail_current_task (Ok tt)),
      (EvPrint sb (MsgTimedOut target_index)), wait,
      (warm ++ [EvPrint s2 MsgWaitingForStart;
                EvCall s1 (simulate_key_press str_target_index) (Ok tt);
                EvPrint s0 (MsgAttempting target_index)] ++ [start]).
    split; [rewrite <- !app_assoc; reflexivity|].
    split; [reflexivity|]. split; [reflexivity|].
    split; [exact Hwait_step|]. split; [exact Hwait_poll|].
    split; [exact Hpost_poll|].
    rewrite !count_app, !count_cons, !count_nil, Hwarm_poll, Hwarm_step,
      Hs2, Hs3.
    split; reflexivity.
Qed.

(** ** The per-tick update sequence *)

Lemma bind_assoc (A B C : Type) (m : M A) (k : A -> M B) (k' : B -> M C)
      (st : State) :
  bind (bind m k) k' st = bind m (fun a => bind (k a) k') st.
Proof. unfold bind. destruct (m st) as [[a|e|code|] st1]; reflexivity. Qed.

Lemma bind_ext (A B : Type) (m : M A) (k k' : A -> M B) (st : State) :
  (forall a st1, k a st1 = k' a st1) -> bind m k st = bind m k' st.
Proof.
  intros H. unfold bind. destruct (m st) as [[a|e|code|] st1];
    try reflexivity. apply H.
Qed.

Ltac history_prefix tr base :=
  match tr with
  | base => constr:(@nil Event)
  | ?ev :: ?tr' => let p := history_prefix tr' base in constr:(ev :: p)
  end.

Lemma completion_updates_order (headless : bool) (st : State) :
  let r := completion_updates handle headless st in
  exists evs rest,
    trace (snd r) = evs ++ trace st /\
    update_sequence headless (camera_controller st)
    = map kind (rev evs) ++ rest /\
    match fst r with
    | Normal _ => rest = []
    | Raised e => exists ev evs', evs = ev :: evs' /\ answer ev = AThrow e
    | Returned _ => False
    | OutOfFuel => False
    end.
Proof.
  unfold completion_updates, update_sequence.
  destruct headless, (camera_controller st) eqn:Hcam;
    unfold bind, call, get, when, ret; cbn [fst snd]; rewrite ?Hcam;
    repeat (match goal with
            | |- context [handle ?c ?w] =>
                destruct (handle c w) as [[?|?] ?]
            | |- context [match ?p with (_, _) => _ end] =>
                destruct p as [? ?]
            end; cbn -[rev map]; rewrite ?Hcam; cbn -[rev map]);
    match goal with
    | |- exists evs rest, ?tr = evs ++ ?base /\ _ =>
        let p := history_prefix tr base in exists p
    end;
    eexists; (split; [reflexivity|]); (split; [reflexivity|]);
    try reflexivity; eexists _, _; split; reflexivity.
Qed.


(** ** Invariants of the history *)

Section Keeping.

Variable R : Z * Z -> list Event -> Prop.
Hypothesis R_extensible : extensible R.

Lemma keeps_ret (A : Type) (a : A) : keeps (lifted R) (ret a : M A).
Proof. intros st H. exact H. Qed.

Lemma keeps_raise (A : Type) (e : Exn) : keeps (lifted R) (raise e : M A).
Proof. intros st H. exact H. Qed.

Lemma keeps_return (A : Type) (code : Z) :
  keeps (lifted R) (return_ code : M A).
Proof. intros st H. exact H. Qed.

Lemma keeps_get (A : Type) (f : State -> A) : keeps (lifted R) (get f).
Proof. intros st H. exact H. Qed.

Lemma keeps_bind (A B : Type) (m : M A) (k : A -> M B) :
  keeps (lifted R) m -> (forall a, keeps (lifted R) (k a)) ->
  keeps (lifted R) (bind m k).
Proof.
  intros Hm Hk st H. unfold bind. specialize (Hm st H).
  destruct (m st) as [[a|e|code|] st1]; simpl in *; try assumption.
  apply Hk. exact Hm.
Qed.

Lemma keeps_call (A : Type) (c : Call J Pos Rot A) :
  keeps (lifted R) (call handle c).
Proof.
  intros st H. unfold call. destruct (handle c (world st)) as [[a|e] w];
    simpl; apply R_extensible; try exact H; reflexivity.
Qed.

Lemma keeps_print (m : Message) : keeps (lifted R) (print m : M unit).
Proof.
  intros st H. simpl. apply R_extensible; [exact H | reflexivity].
Qed.

Lemma keeps_modify (f : State -> State) :
  (forall st, counters (f st) = counters st /\ trace (f st) = trace st) ->
  keeps (lifted R) (modify f).
Proof.
  intros Hf st H. simpl. unfold lifted. destruct (Hf st) as [-> ->]. exact H.
Qed.

Lemma keeps_when (b : bool) (m : M unit) :
  keeps (lifted R) m -> keeps (lifted R) (when b m).
Proof. intros Hm. destruct b; [exact Hm | apply keeps_ret]. Qed.

Lemma keeps_for_range (n : nat) (body : M unit) :
  keeps (lifted R) body -> keeps (lifted R) (for_range n body).
Proof.
  intros Hb. induction n as [|n IH]; simpl.
  - apply keeps_ret.
  - apply keeps_bind; [exact Hb | intros _; exact IH].
Qed.

Lemma keeps_try_except (A : Type) (body : M A)
      (handler : Exn -> option (M A)) :
  keeps (lifted R) body ->
  (forall e h, handler e = Some h -> keeps (lifted R) h) ->
  keeps (lifted R) (try_except body handler).
Proof.
  intros Hb Hh st H. unfold try_except. specialize (Hb st H).
  destruct (body st) as [[a|e|code|] st1]; simpl in *; try assumption.
  destruct (handler e) as [h|] eqn:E; [|exact Hb].
  apply (Hh e h E). exact Hb.
Qed.

End Keeping.

Ltac keeps_auto :=
  repeat first
    [ apply keeps_ret
    | apply keeps_raise
    | apply keeps_return
    | apply keeps_get
    | apply keeps_call
    | apply keeps_print
    | apply keeps_modify; intros; split; reflexivity
    | apply keeps_when
    | apply keeps_for_range
    | apply keeps_bind; [| intros ?]
    | match goal with
      | |- keeps _ (if ?b then _ else _) => destruct b
      | |- keeps _ (match ?x with _ => _ end) => destruct x
      end
    | assumption ].

Lemma setup_keeps (R : Z * Z -> list Event -> Prop)
      (enable_data_collection : bool) :
  extensible R -> keeps (lifted R) (setup handle enable_data_collection).
Proof.
  intros HR. unfold setup.
  repeat (apply keeps_bind; [| intros ?]); keeps_auto.
  apply keeps_try_except; [keeps_auto|].
  intros e h. destruct (is_Exception e); intros [= <-]. keeps_auto.
Qed.

Lemma cleanup_keeps (R : Z * Z -> list Event -> Prop) :
  extensible R -> keeps (lifted R) (cleanup handle).
Proof.
  intros HR. unfold cleanup.
  apply keeps_bind; [apply keeps_print; assumption | intros _].
  apply keeps_try_except; [keeps_auto|].
  intros e h. destruct (is_Exception e); intros [= <-]. keeps_auto.
Qed.

Lemma at_zero_extensible : extensible (@at_zero W J Pos Rot).
Proof.
  intros c tr ev [Hc Htr] Hev. split; [exact Hc|].
  constructor; [congruence | exact Htr].
Qed.

Lemma one_step_refl (c : Z * Z) : one_step c c.
Proof. split; left; reflexivity. Qed.

Lemma in_step_extensible : extensible (@in_step W J Pos Rot).
Proof.
  intros c tr ev (Hr & Hs & _) Hev. unfold in_step. cbn [map]. rewrite Hev.
  split; [|split; [|reflexivity]].
  - inversion Hr; subst. constructor; [assumption|]. constructor; assumption.
  - constructor; [apply one_step_refl | exact Hs].
Qed.

Lemma steady_tail (c : Z * Z) (l : list (Z * Z)) :
  steady (c :: l) -> steady l.
Proof. intros H. inversion H; subst; [constructor | assumption]. Qed.

Lemma steady_plateau (c : Z * Z) (l1 l : list (Z * Z)) :
  Forall (fun c' => c' = c) l1 -> steady (c :: l) -> steady (c :: l1 ++ l).
Proof.
  intros H1 Hs. induction H1 as [|c' l1 -> _ IH]; simpl.
  - exact Hs.
  - constructor; [apply one_step_refl | exact IH].
Qed.

Lemma steady_push (c' c : Z * Z) (l : list (Z * Z)) :
  one_step c' c -> steady (c :: l) -> steady (c' :: c :: l).
Proof. intros H Hs. constructor; assumption. Qed.

Lemma at_zero_in_step (c : Z * Z) (tr : list Event) :
  at_zero c tr -> in_step c tr.
Proof.
  intros [-> Htr]. split; [|split].
  - constructor; [unfold in_range; simpl; lia|].
    induction Htr as [|ev tr Hev _ IH]; cbn [map]; constructor;
      [|exact IH].
    rewrite Hev. unfold in_range. simpl. lia.
  - replace (map counters_at tr) with (map counters_at tr ++ [])
      by apply app_nil_r.
    apply steady_plateau; [|constructor].
    induction Htr as [|ev tr Hev _ IH]; cbn [map]; constructor; assumption.
  - destruct Htr; [exact I | assumption].
Qed.

Lemma episode_newest_stamp (Q s t s' : Z) (c : Completion LoopCtl)
      (evs : list Event) :
  episode Q s t c s' evs ->
  exists ev rest, evs = ev :: rest /\ counters_at ev = (s', t).
Proof.
  intros H.
  destruct H as [ start Hstart HQ
                | e start att Hstart HQ Hatt Htrig
                | e start att flag Hstart HQ Hatt Hflag
                | start att flag msg key Hstart HQ Hatt Hflag Hmsg Hkey
                | e start att flag msg key Hstart HQ Hatt Hflag Hmsg Hkey
                | e start att flag status Hstart HQ Hatt Hflag Hstatus
                | c start att flag status was_successful s' verdict tail
                    Hstart HQ Hatt Hflag Hstatus Hs' Hverdict Hconcl ].
  - exists start, []. split; [reflexivity | apply Hstart].
  - destruct Hatt as (Hst & _ & ev & rest & -> & _).
    exists ev, (rest ++ [start]). split; [reflexivity|].
    inversion Hst; assumption.
  - exists flag, (att ++ [start]). split; [reflexivity | apply Hflag].
  - exists key, (msg :: flag :: att ++ [start]).
    split; [reflexivity | apply Hkey].
  - exists key, (msg :: flag :: att ++ [start]).
    split; [reflexivity | apply Hkey].
  - exists status, (flag :: att ++ [start]).
    split; [reflexivity | apply Hstatus].
  - pose proof (conclusion_stamped Hconcl) as Hst.
    destruct tail as [|ev tail].
    + exists verdict, (status :: flag :: att ++ [start]).
      split; [reflexivity | apply Hverdict].
    + exists ev, (tail ++ verdict :: status :: flag :: att ++ [start]).
      split; [reflexivity|]. inversion Hst; assumption.
Qed.

Lemma loop_body_keeps_in_step (headless : bool) (Q : Z) :
  keeps (lifted in_step) (loop_body handle headless Q).
Proof.
  intros st (Hr & Hs & Hsync).
  destruct (loop_body handle headless Q st) as [c st'] eqn:E. cbn [snd].
  destruct (loop_body_episode _ _ _ E)
    as (evs & Htr & Htot & _ & _ & _ & Hep).
  pose proof (episode_successes Hep) as Hsucc.
  destruct (episode_newest_stamp Hep) as (ev0 & rest0 & Hev0 & Hstamp0).
  destruct (episode_stamps Hep)
    as (newer & older & start & -> & Hnew & Hold & _).
  unfold lifted, in_step, counters in *. rewrite Htr, Htot.
  set (s := successful_grasps st) in *. set (t := total_runs st) in *.
  set (s' := successful_grasps st') in *.
  set (old := map counters_at (trace st)) in *.
  assert (Hrange : 0 <= s <= t) by (inversion Hr; assumption).
  assert (Hmap : map counters_at ((newer ++ older ++ [start]) ++ trace st)
                 = map counters_at newer
                       ++ map counters_at (older ++ [start]) ++ old)
    by (rewrite <- app_assoc, !map_app, <- !app_assoc; reflexivity).
  assert (Hn : Forall (fun c' => c' = (s', t + 1)) (map counters_at newer))
    by (apply Forall_map; exact Hnew).
  assert (Ho : Forall (fun c' => c' = (s, t + 1))
                      (map counters_at (older ++ [start])))
    by (apply Forall_map; exact Hold).
  split; [|split].
  - rewrite Hmap. constructor; [unfold in_range; simpl; lia|].
    apply Forall_app. split;
      [eapply Forall_impl; [|exact Hn]; intros c' ->;
       unfold in_range; simpl; lia|].
    apply Forall_app. split;
      [eapply Forall_impl; [|exact Ho]; intros c' ->;
       unfold in_range; simpl; lia|].
    inversion Hr; assumption.
  - rewrite Hmap.
    assert (S0 : steady ((s, t + 1) :: old)).
    { destruct (trace st) as [|ev tr] eqn:Etr; subst old; simpl in *.
      - constructor.
      - rewrite Hsync. apply steady_push.
        + split; [left | right]; reflexivity.
        + rewrite Hsync in Hs. apply steady_tail in Hs. exact Hs. }
    assert (S1 : steady ((s, t + 1)
                         :: map counters_at (older ++ [start]) ++ old))
      by (apply steady_plateau; assumption).
    assert (S2 : steady ((s', t + 1)
                         :: map counters_at (older ++ [start]) ++ old)).
    { destruct (map counters_at (older ++ [start])) as [|c1 l1] eqn:El.
      - destruct older; discriminate.
      - inversion Ho as [|c2 l2 Hc2 Hl2]. rewrite Hc2.
        rewrite Hc2 in S1. cbn [app]. apply steady_push.
        + split; cbn [fst snd]; [lia | left; reflexivity].
        + apply steady_tail in S1. exact S1. }
    apply steady_plateau; assumption.
  - rewrite Hev0. simpl. exact Hstamp0.
Qed.

Lemma automated_loop_keeps_in_step (fuel : nat) (headless : bool) (Q : Z) :
  keeps (lifted in_step) (automated_loop handle fuel headless Q).
Proof.
  induction fuel as [|fuel IH]; intros st H; rewrite automated_loop_unfold;
    destruct (successful_grasps st <? Q); try exact H.
  pose proof (loop_body_keeps_in_step headless Q H) as Hb.
  destruct (loop_body handle headless Q st) as [[[]| | |] st1];
    try exact Hb.
  apply IH. exact Hb.
Qed.

Lemma leads_bind (P P' : State -> Prop) (A B : Type) (m : M A)
      (k : A -> M B) :
  keeps P m -> (forall st, P st -> P' st) ->
  (forall a, leads P P' (k a)) ->
  leads P P' (bind m k).
Proof.
  intros Hm Hw Hk st H. unfold bind. specialize (Hm st H).
  destruct (m st) as [[a|e|code|] st1]; simpl in *; auto.
  apply Hk. exact Hm.
Qed.

Lemma leads_keeps (P P' : State -> Prop) (A : Type) (m : M A) :
  (forall st, P st -> P' st) -> keeps P' m -> leads P P' m.
Proof. intros Hw Hm st H. apply Hm. apply Hw. exact H. Qed.

Lemma leads_try_except (P P' : State -> Prop) (A : Type) (body : M A)
      (handler : Exn -> option (M A)) :
  leads P P' body ->
  (forall e h, handler e = Some h -> keeps P' h) ->
  leads P P' (try_except body handler).
Proof.
  intros Hb Hh st H. unfold try_except. specialize (Hb st H).
  destruct (body st) as [[a|e|code|] st1]; simpl in *; try assumption.
  destruct (handler e) as [h|] eqn:E; [|exact Hb].
  apply (Hh e h E). exact Hb.
Qed.

Lemma leads_try_finally (P P' : State -> Prop) (A : Type) (body : M A)
      (finalizer : M unit) :
  leads P P' body -> keeps P' finalizer ->
  leads P P' (try_finally body finalizer).
Proof.
  intros Hb Hf st H. unfold try_finally. specialize (Hb st H).
  destruct (body st) as [[a|e|code|] st1]; simpl in *; try assumption;
    specialize (Hf st1 Hb);
    destruct (finalizer st1) as [[[]|e'|code'|] st2]; simpl in *;
    assumption.
Qed.

Lemma reset_counters_keeps_at_zero :
  keeps (lifted at_zero) (modify (@set_successful_grasps W J Pos Rot 0)) /\
  keeps (lifted at_zero) (modify (@set_total_runs W J Pos Rot 0)).
Proof.
  split; intros st [Hc Htr]; unfold lifted, at_zero, counters in *; simpl;
    (split; [congruence | exact Htr]).
Qed.

Lemma collection_run_leads (fuel : nat) (headless : bool) (Q : Z) :
  leads (lifted at_zero) (lifted in_step)
        (collection_run handle fuel headless Q).
Proof.
  pose proof at_zero_extensible as Hz.
  pose proof in_step_extensible as Hi.
  assert (Hw : forall st : State, lifted at_zero st -> lifted in_step st)
    by (intros st; apply at_zero_in_step).
  unfold collection_run.
  apply leads_bind; [keeps_auto | exact Hw | intros _].
  apply leads_bind;
    [apply reset_counters_keeps_at_zero | exact Hw | intros _].
  apply leads_bind;
    [apply reset_counters_keeps_at_zero | exact Hw | intros _].
  apply leads_bind; [keeps_auto | exact Hw | intros _].
  apply leads_bind; [keeps_auto | exact Hw | intros _].
  apply leads_bind; [keeps_auto | exact Hw | intros _].
  apply leads_bind; [keeps_auto | exact Hw | intros enabled].
  apply leads_bind; [keeps_auto | exact Hw | intros _].
  apply leads_bind; [keeps_auto | exact Hw | intros _].
  apply leads_keeps; [exact Hw|].
  apply keeps_bind; [apply automated_loop_keeps_in_step | intros _].
  keeps_auto.
Qed.

Lemma main_keeps_in_step (fuel : nat) (enable_data_collection headless : bool)
      (Q : Z) :
  leads (lifted at_zero) (lifted in_step)
        (main handle fuel enable_data_collection headless Q).
Proof.
  pose proof at_zero_extensible as Hz.
  pose proof in_step_extensible as Hi.
  assert (Hw : forall st : State, lifted at_zero st -> lifted in_step st)
    by (intros st; apply at_zero_in_step).
  unfold main. intros st H. unfold bind at 1.
  assert (Htry : lifted in_step
                   (snd (try_finally
                           (try_except
                              (setup handle enable_data_collection ;;
                               collection_run handle fuel headless Q)
                              (fun e =>
                                 match e with
                                 | KeyboardInterrupt =>
                                     Some (print MsgKeyboardInterrupt)
                                 | _ => if is_Exception e
                                        then Some (print (MsgError e) ;;
                                                   return_ 1)
                                        else None
                                 end))
                           (cleanup handle) st))).
  { revert st H. apply leads_try_finally; [|apply cleanup_keeps; exact Hi].
    apply leads_try_except.
    - apply leads_bind; [apply setup_keeps; exact Hz | exact Hw | intros _].
      apply collection_run_leads.
    - intros e h He. destruct e; simpl in He; inversion He; subst;
        keeps_auto. }
  match goal with
  | |- context [try_finally ?b ?f st] =>
      destruct (try_finally b f st) as [[[]|e|code|] st1]
  end; simpl in *; try exact Htry.
  repeat (apply in_step_extensible; [|reflexivity]). exact Htry.
Qed.

Lemma loop_body_total_runs (headless : bool) (Q : Z) (st : State) :
  total_runs (snd (loop_body handle headless Q st)) = total_runs st + 1.
Proof.
  destruct (loop_body handle headless Q st) as [c st'] eqn:E.
  destruct (loop_body_episode _ _ _ E) as (evs & _ & Htot & _).
  exact Htot.
Qed.

(** C10. Along every run of [main], at every point (as every event saw the
    counters, and at the end) [0 <= successful_grasps <= total_runs], and
    from each point to the next each counter either stays or goes up by
    exactly one, so that neither ever decreases or is reset; and every run
    of the loop body raises [successful_grasps] by at most one and
    [total_runs] by exactly one. *)
Theorem counters_in_step :
  (forall (fuel : nat) (enable_data_collection headless : bool) (Q : Z)
          (w : W),
      let st' := snd (main handle fuel enable_data_collection headless Q
                           (initial_state w)) in
      Forall in_range (counter_history st') /\
      steady (counter_history st')) /\
  (forall (headless : bool) (Q : Z) (st : State),
      let st' := snd (loop_body handle headless Q st) in
      successful_grasps st <= successful_grasps st'
      <= successful_grasps st + 1 /\
      total_runs st' = total_runs st + 1).
Proof.
  split.
  - intros fuel enable_data_collection headless Q w.
    assert (H0 : lifted at_zero (initial_state w : State))
      by (split; [reflexivity | constructor]).
    destruct (main_keeps_in_step fuel enable_data_collection headless Q H0)
      as (Hr & Hs & _).
    split; assumption.
  - intros headless Q st. split; [apply loop_body_successes|].
    apply loop_body_total_runs.
Qed.

(** ** From one episode to the next *)

(** A poll of the symbolic state answers with a string or throws. *)
Lemma state_poll_answer (ev : Event) :
  is_state_poll ev = true ->
  is_throw ev = false ->
  exists s, answer ev = AString s.
Proof.
  unfold is_state_poll, is_throw.
  destruct ev as [s A c r | s m]; simpl; [|discriminate].
  destruct c; simpl; try discriminate.
  destruct r as [state|e]; simpl; [eauto | discriminate].
Qed.

(** The poll that ends a wait for IDLE found IDLE, unless the budget [T] of
    the wait was used up. *)
Lemma idle_wait_end (T vf : Z) (wait : list Event) :
  0 <= T ->
  wait_trace is_state_poll not_yet_idle one_tick T 0 vf wait ->
  existsb is_throw wait = false ->
  exists poll rest,
    wait = poll :: rest /\
    is_state_poll poll = true /\
    (answer poll = AString "IDLE" \/ vf = T) /\
    count is_step wait = vf /\
    count is_trigger wait = 0.
Proof.
  intros HT Hw Hthrow.
  pose proof (wait_trace_bounds Hw HT) as Hb.
  assert (Hsteps : count is_step wait = 1 * (vf - 0)).
  { eapply wait_trace_count; [| |exact Hw].
    - apply one_tick_steps.
    - apply state_poll_class. }
  assert (Htrig : count is_trigger wait = 0 * (vf - 0)).
  { eapply wait_trace_count; [| |exact Hw].
    - intros t0. apply one_tick_none. intros ev Hev.
      apply tick_call_class in Hev. destruct Hev as (_ & _ & _ & Hk & _).
      unfold is_key_press in Hk. unfold is_trigger.
      destruct (kind ev); try reflexivity; discriminate.
    - apply state_poll_class. }
  destruct (wait_trace_newest Hw) as (poll & rest & -> & Hpoll & Hstop).
  exists poll, rest. split; [reflexivity|]. split; [exact Hpoll|].
  split; [|split; lia].
  destruct (state_poll_answer poll Hpoll) as [s Hs].
  { eapply existsb_false_in; [exact Hthrow | left; reflexivity]. }
  apply andb_false_iff in Hstop. destruct Hstop as [Hstop|Hstop].
  - left. unfold not_yet_idle in Hstop. rewrite Hs in Hstop.
    apply negb_false_iff in Hstop. apply String.eqb_eq in Hstop.
    rewrite Hs, Hstop. reflexivity.
  - right. apply Z.ltb_ge in Hstop. lia.
Qed.

(** C7, as amended.  When an episode that was not voided ends with the quota
    unmet, the last thing it did was the RESET wait: after the reset key,
    polls of the symbolic state and ticks, up to a last poll that either
    answered IDLE or came after all 300 steps of the budget.  The loop then
    goes on from the state that poll left, and the next run of the body
    presses the select-target key after two printed lines and no other
    call. *)
Theorem next_trigger_follows_reset_wait (headless : bool) (Q : Z)
        (st : State) :
  let r := loop_body handle headless Q st in
  let evs := new_events st (snd r) in
  fst r = Normal Next ->
  existsb flag_was_set evs = false ->
  (exists poll wait key msg earlier,
      evs = poll :: wait ++ [key; msg] ++ earlier /\
      is_state_poll poll = true /\
      kind key = KKeyPress "r" /\
      kind msg = KPrint MsgResettingScene /\
      count is_trigger (poll :: wait) = 0 /\
      (answer poll = AString "IDLE" \/ count is_step (poll :: wait) = 300)) /\
  successful_grasps (snd r) < Q /\
  (forall fuel,
      automated_loop handle (S fuel) headless Q st
      = automated_loop handle fuel headless Q (snd r)) /\
  exists rest trigger_key msg start,
    trace (snd (loop_body handle headless Q (snd r)))
    = rest ++ [trigger_key; msg; start] ++ trace (snd r) /\
    is_trigger trigger_key = true /\
    is_print msg = true /\
    is_print start = true.
Proof.
  destruct (loop_body handle headless Q st) as [c st'] eqn:E. cbn [fst snd].
  destruct (loop_body_episode _ _ _ E) as (evs & Htr & _ & _ & _ & _ & Hep).
  rewrite (@new_events_app st st' evs Htr). intros -> Hflag.
  assert (Hcases :
            (exists poll wait key msg earlier,
                evs = poll :: wait ++ [key; msg] ++ earlier /\
                is_state_poll poll = true /\
                kind key = KKeyPress "r" /\
                kind msg = KPrint MsgResettingScene /\
                count is_trigger (poll :: wait) = 0 /\
                (answer poll = AString "IDLE" \/
                 count is_step (poll :: wait) = 300)) /\
            successful_grasps st < Q /\ successful_grasps st' < Q).
  { inversion Hep as [ | | | start att flag msg key Hstart HQ Hatt Hfl Hmsg
                             Hkey | | |
                       c0 start att flag status was_successful s' verdict
                          tail Hstart HQ Hatt Hfl Hstatus Hs' Hverdict
                          Hconcl ]; subst.
    - exfalso.
      assert (Hset : flag_was_set flag = true)
        by (rewrite (observed_flag_was_set Hfl); reflexivity).
      simpl in Hflag. rewrite Hset in Hflag.
      rewrite !orb_true_r in Hflag. discriminate.
    - inversion Hconcl as [ | | | idle reset Hidle HQ' Hreset ]; subst.
      destruct Hreset as (_ & _ & Hthrow & wait & s0 & s1 & vf & -> & Hw).
      rewrite existsb_app in Hthrow. apply orb_false_iff in Hthrow.
      destruct Hthrow as [Hthrow _].
      destruct (idle_wait_end (T := reset_timeout) ltac:(unfold reset_timeout; lia) Hw Hthrow)
        as (poll & rest & -> & Hpoll & Hend & Hsteps & Htrig).
      split; [|split; [assumption | exact HQ']].
      exists poll, rest, (EvCall s1 (simulate_key_press "r") (Ok tt)),
        (EvPrint s0 MsgResettingScene),
        (idle ++ verdict :: status :: flag :: att ++ [start]).
      split; [simpl; rewrite <- !app_assoc; reflexivity|].
      split; [exact Hpoll|]. split; [reflexivity|]. split; [reflexivity|].
      split; [exact Htrig|].
      destruct Hend as [Hidle'|Hvf]; [left; exact Hidle' | right].
      rewrite Hsteps, Hvf. reflexivity. }
  destruct Hcases as (Hshape & Hlt & Hlt').
  split; [exact Hshape|]. split; [exact Hlt'|]. split.
  - intros fuel. rewrite (automated_loop_unfold (S fuel)).
    apply Z.ltb_lt in Hlt. rewrite Hlt, E. reflexivity.
  - destruct (@loop_body_triggers headless Q st' Hlt')
      as (rest & key' & msg' & start' & Htr' & Hk' & Hm' & Hs').
    exists rest, key', msg', start'. repeat split; try assumption.
    unfold is_print. rewrite Hm'. reflexivity.
Qed.

(** ** Checking a history *)

Lemma trigger_off_idle_refutes (tr : list Event) :
  existsb (trigger_off_idle handle) tr = true ->
  ~ triggers_only_when_idle handle tr.
Proof.
  intros H Hall. apply existsb_exists in H. destruct H as (ev & Hin & Hev).
  unfold trigger_off_idle in Hev. apply andb_true_iff in Hev.
  destruct Hev as [Htrig Hoff].
  unfold triggers_only_when_idle in Hall. rewrite Forall_forall in Hall.
  rewrite (Hall ev Hin Htrig) in Hoff. discriminate.
Qed.

(** X10. RESET prints its own line and nothing else: whatever its wait
    does, no warning is among its events. *)
Lemma reset_scene_silent (headless : bool) (st : State) :
  count is_warning
        (new_events st (snd (reset_scene handle headless st))) = 0.
Proof.
  destruct (reset_scene_runs headless st) as (evs & Htr & _ & Hf & _).
  rewrite (@new_events_app st _ evs Htr).
  eapply count_none with (q := is_reset_event).
  - eapply Forall_impl; [|exact Hf]. intros ev [H _]. exact H.
  - apply reset_event_class.
Qed.

(** ** What decides the forced failure and the warning *)

Lemma busy_poll_idle (ev : Event) :
  is_busy_poll ev = true ->
  is_throw ev = false ->
  still_busy ev = false ->
  reported_idle ev = true.
Proof.
  unfold is_busy_poll, is_throw, reported_idle, still_busy.
  destruct ev as [s A c r | s m]; simpl; [|discriminate].
  destruct c; simpl; try discriminate.
  destruct r as [[|]|e]; simpl; auto; discriminate.
Qed.


(** X9. AWAIT_IDLE prints its warning exactly when its wait has made all
    the 300 steps of its budget. *)
Lemma idle_timeout_logged (headless : bool) (st : State) :
  let r := await_idle handle headless st in
  let evs := new_events st (snd r) in
  fst r = Normal tt ->
  count is_warning evs = 1 /\ count is_step evs = 300 \/
  count is_warning evs = 0 /\ count is_step evs < 300.
Proof.
  destruct (runs_at st (await_idle_runs headless)) as (evs & Htr & _ & Hc).
  destruct (await_idle handle headless st) as [c st']. cbn [fst snd] in *.
  rewrite (@new_events_app st st' evs Htr). intros ->.
  destruct Hc as (_ & _ & _ & warning & wait & s0 & vf & -> & Hwait & Hwarn).
  pose proof (wait_trace_bounds Hwait) as Hb.
  assert (Hsteps : count is_step wait = 1 * (vf - 0)).
  { eapply wait_trace_count; [| |exact Hwait].
    - apply one_tick_steps.
    - apply state_poll_class. }
  assert (Hw : count is_warning wait = 0 * (vf - 0)).
  { eapply wait_trace_count; [| |exact Hwait].
    - intros t0. apply one_tick_none. intros ev Hev.
      apply tick_call_class in Hev. destruct Hev as (_ & _ & _ & _ & Hp & _).
      unfold is_print in Hp. unfold is_warning.
      destruct (kind ev); try reflexivity; discriminate.
    - apply state_poll_class. }
  unfold idle_wait_timeout in *.
  destruct (60 * 5 <=? vf) eqn:Hvf.
  - left. destruct Hwarn as [s1 ->]. apply Z.leb_le in Hvf.
    rewrite !count_app, !count_cons, !count_nil, Hsteps, Hw.
    cbv [is_step is_warning kind]. lia.
  - right. subst warning. apply Z.leb_gt in Hvf.
    rewrite !count_app, !count_cons, !count_nil, Hsteps, Hw.
    cbv [is_step is_warning kind]. lia.
Qed.

(** ** The exit status *)

(** X11. However the guarded block ended, the clean-up block ends normally
    or by an exception that is not of class [Exception]. *)
Lemma cleanup_completion (st : State) :
  match fst (cleanup handle st) with
  | Normal _ => True
  | Raised e => is_Exception e = false
  | Returned _ => False
  | OutOfFuel => False
  end.
Proof.
  unfold cleanup, bind, print, try_except, get, call, raise, ret. cbn.
  destruct (data_collection_manager st) as [|[|]]; cbn;
    repeat first
           [ match goal with
             | |- context [handle ?c ?w] =>
                 destruct (handle c w) as [[[]|?] ?]; cbn
             end
           | match goal with
             | |- context [simulation_app st] =>
                 destruct (simulation_app st) as [|[]]; cbn
             end
           | match goal with
             | |- context [is_Exception ?e] =>
                 destruct (is_Exception e) eqn:?; cbn
             end ];
    auto.
Qed.

(** X12. The exit status of [main] when the clean-up block ends normally: 0 if
    the guarded block ended normally or by [KeyboardInterrupt], 1 if it
    ended by an exception of class [Exception]; any other exception leaves
    [main] without a return. *)
Lemma main_exit_code (fuel : nat) (enable_data_collection headless : bool)
      (Q : Z) (st : State) :
  let guarded := (setup handle enable_data_collection ;;
                  collection_run handle fuel headless Q) in
  (forall st1, fst (cleanup handle st1) = Normal tt) ->
  exit_code (fst (main handle fuel enable_data_collection headless Q st))
  = match fst (guarded st) with
    | Normal _ => Some 0
    | Raised KeyboardInterrupt => Some 0
    | Raised e => if is_Exception e then Some 1 else None
    | Returned code => Some code
    | OutOfFuel => None
    end.
Proof.
  intros guarded Hclean. unfold main.
  fold guarded. unfold bind at 1, try_finally, try_except.
  destruct (guarded st) as [[[]|e|code|] st1]; cbn [fst snd].
  - specialize (Hclean st1). destruct (cleanup handle st1) as [c st2].
    cbn -[cleanup] in Hclean. subst c. reflexivity.
  - destruct e; cbn -[cleanup];
      match goal with
      | |- context [cleanup handle ?s] =>
          specialize (Hclean s); destruct (cleanup handle s) as [c st2];
          cbn -[cleanup] in Hclean; subst c; reflexivity
      end.
  - specialize (Hclean st1). destruct (cleanup handle st1) as [c st2].
    cbn -[cleanup] in Hclean. subst c. reflexivity.
  - reflexivity.
Qed.

(** ** The size of an episode *)

(** Counting, over an attempt that ran to its end, the events of a class
    that holds [k] events of every tick, none of the polls, of the printed
    lines and of the forced failure, and the trigger or not. *)
Lemma attempt_count (p : Event -> bool) (k : Z) (bt : bool) (c : Z * Z)
      (att : list Event) :
  completed is_attempt_event attempt_shape c att ->
  (forall t, one_tick t -> count p t = k) ->
  (forall ev, is_tick_call ev = false -> is_key_press ev = false ->
              p ev = false) ->
  (forall ev, is_trigger ev = true -> p ev = bt) ->
  exists vf,
    0 <= vf <= completion_timeout /\
    count p att = k * (10 + vf) + (if bt then 1 else 0).
Proof.
  intros (_ & _ & _ & tail & wait & warm & s0 & s1 & s2 & vf & -> & Hwarm
          & Hwait & Htail) Hk Hother Htrig.
  exists vf. split.
  { apply (wait_trace_bounds Hwait). unfold completion_timeout. lia. }
  assert (Hw : count p wait = k * (vf - 0)).
  { eapply wait_trace_count; [exact Hk | | exact Hwait].
    intros ev Hev. apply Hother; by_kind ev. }
  assert (Hm : count p warm = k * Z.of_nat 10)
    by (eapply blocks_count; [exact Hk | exact Hwarm]).
  assert (Ht : count p tail = 0).
  { unfold timeout_tail in Htail. destruct (completion_timeout <=? vf).
    - destruct Htail as (sa & sb & ->).
      rewrite !count_cons, count_nil, !Hother; reflexivity.
    - subst tail. reflexivity. }
  rewrite !count_app, !count_cons, count_nil, Ht, Hw, Hm.
  rewrite (Hother (EvPrint s2 MsgWaitingForStart)) by reflexivity.
  rewrite (Hother (EvPrint s0 (MsgAttempting target_index))) by reflexivity.
  rewrite (Htrig (EvCall s1 (simulate_key_press str_target_index) (Ok tt)))
    by reflexivity.
  destruct bt; lia.
Qed.

Lemma idle_count (p : Event -> bool) (k : Z) (c : Z * Z)
      (idle : list Event) :
  completed is_idle_event idle_shape c idle ->
  (forall t, one_tick t -> count p t = k) ->
  (forall ev, is_tick_call ev = false -> is_key_press ev = false ->
              p ev = false) ->
  exists vf, 0 <= vf <= idle_wait_timeout /\ count p idle = k * vf.
Proof.
  intros (_ & _ & _ & warning & wait & s0 & vf & -> & Hwait & Hwarn) Hk Hother.
  exists vf. split.
  { apply (wait_trace_bounds Hwait). unfold idle_wait_timeout. lia. }
  assert (Hw : count p wait = k * (vf - 0)).
  { eapply wait_trace_count; [exact Hk | | exact Hwait].
    intros ev Hev. apply Hother; by_kind ev. }
  assert (Hn : count p warning = 0).
  { destruct (idle_wait_timeout <=? vf).
    - destruct Hwarn as [s1 ->].
      rewrite count_cons, count_nil, Hother; reflexivity.
    - subst warning. reflexivity. }
  rewrite !count_app, !count_cons, count_nil, Hn, Hw.
  rewrite (Hother (EvPrint s0 MsgWaitingForIdle)) by reflexivity. lia.
Qed.

Lemma reset_count (p : Event -> bool) (k : Z) (br : bool) (c : Z * Z)
      (reset : list Event) :
  completed is_reset_event reset_shape c reset ->
  (forall t, one_tick t -> count p t = k) ->
  (forall ev, is_tick_call ev = false -> is_key_press ev = false ->
              p ev = false) ->
  (forall ev, is_reset_key ev = true -> p ev = br) ->
  exists vf,
    0 <= vf <= reset_timeout /\
    count p reset = k * vf + (if br then 1 else 0).
Proof.
  intros (_ & _ & _ & wait & s0 & s1 & vf & -> & Hwait) Hk Hother Hkey.
  exists vf. split.
  { apply (wait_trace_bounds Hwait). unfold reset_timeout. lia. }
  assert (Hw : count p wait = k * (vf - 0)).
  { eapply wait_trace_count; [exact Hk | | exact Hwait].
    intros ev Hev. apply Hother; by_kind ev. }
  rewrite !count_app, !count_cons, count_nil, Hw.
  rewrite (Hother (EvPrint s0 MsgResettingScene)) by reflexivity.
  rewrite (Hkey (EvCall s1 (simulate_key_press "r") (Ok tt))) by reflexivity.
  destruct br; lia.
Qed.

(** The same count over an episode that was entered with the quota unmet
    and ran to its end: the ten ticks of the warm-up, the ticks of the three
    waits, the trigger, and the reset key when the loop goes on. *)
Lemma episode_count (p : Event -> bool) (k : Z) (bt br : bool)
      (Q s t s' : Z) (c : LoopCtl) (evs : list Event) :
  episode Q s t (Normal c) s' evs ->
  s < Q ->
  (forall tk, one_tick tk -> count p tk = k) ->
  (forall ev, is_tick_call ev = false -> is_key_press ev = false ->
              p ev = false) ->
  (forall ev, is_trigger ev = true -> p ev = bt) ->
  (forall ev, is_reset_key ev = true -> p ev = br) ->
  exists waited,
    0 <= waited <= completion_timeout + idle_wait_timeout + reset_timeout /\
    count p evs
    = k * (10 + waited) + (if bt then 1 else 0)
      + match c with
        | Next => if br then 1 else 0
        | Break => 0
        end.
Proof.
  intros Hep Hlt Hk Hother Htrig Hkey.
  assert (Hobs : forall (ev : Event) kd a c0,
             observed ev kd a c0 ->
             match kd with
             | KKeyPress _ | KWorldStep | KIsPlaying | KGetJointPositions
             | KForwardKinematics _ | KUpdateCalculations
             | KStateMachineUpdate | KExecuteControl | KDrawVisualizations
             | KUpdateFrameCount => False
             | _ => True
             end -> p ev = false).
  { intros ev kd a c0 (Hkd & _) Hcls.
    apply Hother; unfold is_tick_call, is_key_press; rewrite Hkd;
      destruct kd; try reflexivity; contradiction. }
  inversion Hep as [ | | | start att flag msg key Hstart HQ Hatt Hfl Hmsg
                           Hkey' | | |
                     c0 start att flag status was_successful s0 verdict
                        tail Hstart HQ Hatt Hfl Hstatus Hs0 Hverdict
                        Hconcl ]; subst.
  - lia.
  - destruct (@attempt_count p k bt _ _ Hatt Hk Hother Htrig) as (vf & Hvf & Hc).
    exists vf. split.
    { unfold completion_timeout, idle_wait_timeout, reset_timeout in *. lia. }
    rewrite !count_cons, count_app, count_cons, count_nil, Hc.
    rewrite (Hobs _ _ _ _ Hstart I), (Hobs _ _ _ _ Hfl I),
      (Hobs _ _ _ _ Hmsg I).
    assert (Hr : p key = br).
    { apply Hkey. unfold is_reset_key. destruct Hkey' as (-> & _).
      reflexivity. }
    rewrite Hr. destruct br, bt; lia.
  - destruct (@attempt_count p k bt _ _ Hatt Hk Hother Htrig) as (vf & Hvf & Hc).
    assert (Hv : p verdict = false).
    { destruct was_successful; exact (Hobs _ _ _ _ Hverdict I). }
    assert (Hrest : count p (verdict :: status :: flag :: att ++ [start])
                    = k * (10 + vf) + (if bt then 1 else 0)).
    { rewrite !count_cons, count_app, count_cons, count_nil, Hc, Hv.
      rewrite (Hobs _ _ _ _ Hstart I), (Hobs _ _ _ _ Hfl I),
        (Hobs _ _ _ _ Hstatus I). lia. }
    rewrite count_app, Hrest.
    inversion Hconcl as [ | idle Hidle HQ' | | idle reset Hidle HQ' Hreset ];
      subst.
    + destruct (@idle_count p k _ _ Hidle Hk Hother) as (vi & Hvi & Hci).
      exists (vf + vi). split.
      { unfold completion_timeout, idle_wait_timeout, reset_timeout in *.
        lia. }
      rewrite Hci. lia.
    + destruct (@idle_count p k _ _ Hidle Hk Hother) as (vi & Hvi & Hci).
      destruct (@reset_count p k br _ _ Hreset Hk Hother Hkey) as (vr & Hvr & Hcr).
      exists (vf + vi + vr). split.
      { unfold completion_timeout, idle_wait_timeout, reset_timeout in *.
        lia. }
      rewrite count_app, Hci, Hcr. destruct br; lia.
Qed.

(** X1. An episode that is entered with the quota unmet and runs to its end
    steps the world at least 10 times (the warm-up) and at most
    10 + 3600 + 300 + 300 times (the warm-up and the budgets of the three
    waits), whatever the collaborators answer. *)
Theorem episode_step_budget (headless : bool) (Q : Z) (st : State)
        (c : LoopCtl) :
  let r := loop_body handle headless Q st in
  let evs := new_events st (snd r) in
  successful_grasps st < Q ->
  fst r = Normal c ->
  10 <= count is_step evs <= 10 + 3600 + 300 + 300.
Proof.
  destruct (loop_body handle headless Q st) as [c0 st'] eqn:E. cbn [fst snd].
  destruct (loop_body_episode _ _ _ E) as (evs & Htr & _ & _ & _ & _ & Hep).
  rewrite (@new_events_app st st' evs Htr). intros Hlt ->.
  destruct (@episode_count is_step 1 false false _ _ _ _ _ _ Hep Hlt)
    as (waited & Hw & Hc).
  - apply one_tick_steps.
  - intros ev H1 H2. by_kind ev.
  - intros ev H. by_kind ev.
  - intros ev H. unfold is_reset_key in H. by_kind ev.
  - rewrite Hc.
    unfold completion_timeout, idle_wait_timeout, reset_timeout in Hw.
    destruct c; lia.
Qed.

(** X2. In an episode that is entered with the quota unmet and runs to its
    end, the select-target key is pressed exactly once; the reset key is
    pressed once when the loop goes on to another episode and not at all
    when the loop ends; no other key is pressed. *)
Theorem episode_key_presses (headless : bool) (Q : Z) (st : State)
        (c : LoopCtl) :
  let r := loop_body handle headless Q st in
  let evs := new_events st (snd r) in
  successful_grasps st < Q ->
  fst r = Normal c ->
  count is_trigger evs = 1 /\
  count is_reset_key evs = match c with Next => 1 | Break => 0 end /\
  count is_key_press evs = count is_trigger evs + count is_reset_key evs.
Proof.
  destruct (loop_body handle headless Q st) as [c0 st'] eqn:E. cbn [fst snd].
  destruct (loop_body_episode _ _ _ E) as (evs & Htr & _ & _ & _ & _ & Hep).
  rewrite (@new_events_app st st' evs Htr). intros Hlt ->.
  assert (Hnone : forall (p : Event -> bool) (tk : list Event),
             (forall ev, is_tick_call ev = true -> p ev = false) ->
             one_tick tk -> count p tk = 0)
    by (intros p tk Hp Ht; eapply one_tick_none; eassumption).
  destruct (@episode_count is_trigger 0 true false _ _ _ _ _ _ Hep Hlt)
    as (w1 & _ & H1).
  { intros tk. apply Hnone. intros ev H. by_kind ev. }
  { intros ev Ha Hb. by_kind ev. }
  { intros ev H. exact H. }
  { intros ev H. unfold is_reset_key in H. by_kind ev.
    apply String.eqb_eq in H. subst key. reflexivity. }
  destruct (@episode_count is_reset_key 0 false true _ _ _ _ _ _ Hep Hlt)
    as (w2 & _ & H2).
  { intros tk. apply Hnone. intros ev H. unfold is_reset_key. by_kind ev. }
  { intros ev Ha Hb. unfold is_reset_key. by_kind ev. }
  { intros ev H. unfold is_reset_key. by_kind ev.
    apply String.eqb_eq in H. subst key. reflexivity. }
  { intros ev H. exact H. }
  destruct (@episode_count is_key_press 0 true true _ _ _ _ _ _ Hep Hlt)
    as (w3 & _ & H3).
  { intros tk. apply Hnone. intros ev H. by_kind ev. }
  { intros ev Ha Hb. exact Hb. }
  { intros ev H. by_kind ev. }
  { intros ev H. unfold is_reset_key in H. by_kind ev. }
  rewrite H1, H2, H3. destruct c; repeat split; lia.
Qed.

(** ** Invariants of the whole script *)

Section Invariants.

Variable P : State -> Prop.

Lemma inv_ret (A : Type) (a : A) : keeps P (ret a : M A).
Proof. intros st H. exact H. Qed.

Lemma inv_raise (A : Type) (e : Exn) : keeps P (raise e : M A).
Proof. intros st H. exact H. Qed.

Lemma inv_return (A : Type) (code : Z) : keeps P (return_ code : M A).
Proof. intros st H. exact H. Qed.

Lemma inv_out_of_fuel (A : Type) : keeps P (out_of_fuel : M A).
Proof. intros st H. exact H. Qed.

Lemma inv_get (A : Type) (f : State -> A) : keeps P (get f).
Proof. intros st H. exact H. Qed.

Lemma inv_bind (A B : Type) (m : M A) (k : A -> M B) :
  keeps P m -> (forall a, keeps P (k a)) -> keeps P (bind m k).
Proof.
  intros Hm Hk st H. unfold bind. specialize (Hm st H).
  destruct (m st) as [[a|e|code|] st1]; simpl in *; try assumption.
  apply Hk. exact Hm.
Qed.

(** What follows the reading of a local may rely on the value read. *)
Lemma inv_bind_get (A B : Type) (f : State -> A) (k : A -> M B) :
  (forall a, leads (fun st => P st /\ f st = a) P (k a)) ->
  keeps P (bind (get f) k).
Proof. intros Hk st H. unfold bind, get. apply (Hk (f st)). auto. Qed.

Lemma inv_call (A : Type) (c : Call J Pos Rot A) :
  (forall st r w, P st ->
                  P (set_world w (log_event (EvCall (snapshot st) c r) st))) ->
  keeps P (call handle c).
Proof.
  intros Hc st H. unfold call. destruct (handle c (world st)) as [[a|e] w];
    simpl; apply Hc; exact H.
Qed.

Lemma inv_print (m : Message) :
  (forall st, P st -> P (log_event (EvPrint (snapshot st) m) st)) ->
  keeps P (print m : M unit).
Proof. intros Hm st H. simpl. apply Hm. exact H. Qed.

Lemma inv_modify (f : State -> State) :
  (forall st, P st -> P (f st)) -> keeps P (modify f).
Proof. intros Hf st H. simpl. apply Hf. exact H. Qed.

Lemma inv_when (b : bool) (m : M unit) :
  keeps P m -> keeps P (when b m).
Proof. intros Hm. destruct b; [exact Hm | apply inv_ret]. Qed.

Lemma inv_for_range (n : nat) (body : M unit) :
  keeps P body -> keeps P (for_range n body).
Proof.
  intros Hb. induction n as [|n IH]; simpl.
  - apply inv_ret.
  - apply inv_bind; [exact Hb | intros _; exact IH].
Qed.

Lemma inv_while (V : Type) (cond : V -> M bool) (body : V -> M V)
      (fuel : nat) (v : V) :
  (forall v, keeps P (cond v)) -> (forall v, keeps P (body v)) ->
  keeps P (while_ fuel cond body v).
Proof.
  intros Hc Hb. revert v. induction fuel as [|fuel IH]; intros v; cbn [while_];
    (apply inv_bind; [apply Hc | intros [|]]);
    try apply inv_ret; try apply inv_out_of_fuel.
  apply inv_bind; [apply Hb | intros v'; apply IH].
Qed.

Lemma inv_try_except (A : Type) (body : M A)
      (handler : Exn -> option (M A)) :
  keeps P body ->
  (forall e h, handler e = Some h -> keeps P h) ->
  keeps P (try_except body handler).
Proof.
  intros Hb Hh st H. unfold try_except. specialize (Hb st H).
  destruct (body st) as [[a|e|code|] st1]; simpl in *; try assumption.
  destruct (handler e) as [h|] eqn:E; [|exact Hb].
  apply (Hh e h E). exact Hb.
Qed.

Lemma inv_try_finally (A : Type) (body : M A) (finalizer : M unit) :
  keeps P body -> keeps P finalizer ->
  keeps P (try_finally body finalizer).
Proof.
  intros Hb Hf st H. unfold try_finally. specialize (Hb st H).
  destruct (body st) as [[a|e|code|] st1]; simpl in *; try assumption;
    specialize (Hf st1 Hb);
    destruct (finalizer st1) as [[[]|e'|code'|] st2]; simpl in *;
    assumption.
Qed.

Lemma inv_automated_loop (fuel : nat) (headless : bool) (Q : Z) :
  keeps P (loop_body handle headless Q) ->
  keeps P (automated_loop handle fuel headless Q).
Proof.
  intros Hb. induction fuel as [|fuel IH]; intros st H;
    rewrite automated_loop_unfold;
    destruct (successful_grasps st <? Q); try exact H.
  specialize (Hb st H).
  destruct (loop_body handle headless Q st) as [[[]| | |] st1];
    try exact Hb.
  apply IH. exact Hb.
Qed.

End Invariants.

(** Walking a piece of the script, by the shape of the piece: [special]
    settles the pieces that need a lemma of their own, [side] what the
    invariant asks of a call, of a printed line and of an assignment. *)
Ltac inv_walk_node special side :=
  lazymatch goal with
  | |- keeps _ (bind _ _) => first [ special | apply inv_bind; [| intros ?] ]
  | |- keeps _ (ret _) => apply inv_ret
  | |- keeps _ (raise _) => apply inv_raise
  | |- keeps _ (return_ _) => apply inv_return
  | |- keeps _ out_of_fuel => apply inv_out_of_fuel
  | |- keeps _ (get _) => apply inv_get
  | |- keeps _ (call _ _) => first [ special | apply inv_call; side ]
  | |- keeps _ (print _) => apply inv_print; side
  | |- keeps _ (modify _) => apply inv_modify; side
  | |- keeps _ (for_range _ _) => apply inv_for_range
  | |- keeps _ (while_ _ _ _ _) => apply inv_while; intros ?
  | |- keeps _ (when ?b _) => destruct b; cbn [when]
  | |- keeps _ (if ?b then _ else _) => destruct b
  | |- keeps _ (match ?x with _ => _ end) => destruct x
  | |- keeps _ _ => first [ progress cbv beta | special ]
  end.

Ltac inv_walk_with special side := repeat inv_walk_node special side.

Ltac inv_walk side := inv_walk_with fail side.

(** ** Headless runs *)

Ltac unrendered_side :=
  unfold unrendered; intros;
  cbn [trace set_world log_event set_successful_grasps set_total_runs
       set_frame_count set_camera_controller set_data_collection_manager
       set_simulation_app existsb renders orb];
  assumption.

Lemma loop_body_unrendered (Q : Z) :
  keeps unrendered (loop_body handle true Q).
Proof.
  unfold loop_body, attempt, evaluate, trigger, warmup, await_completion,
    handle_timeout, record_outcome, await_idle, await_idle_loop, reset_scene,
    reset_wait_loop, warmup_tick, completion_tick, idle_tick, reset_tick,
    warmup_updates, completion_updates, idle_updates, reset_updates,
    incr_total_runs, incr_successful_grasps, incr_frame_count.
  cbn [negb when].
  inv_walk unrendered_side.
Qed.

Lemma main_unrendered (fuel : nat) (enable_data_collection : bool) (Q : Z) :
  keeps unrendered (main handle fuel enable_data_collection true Q).
Proof.
  unfold main, setup, collection_run, cleanup.
  apply inv_bind; [| intros ?; inv_walk unrendered_side].
  apply inv_try_finally.
  - apply inv_try_except.
    + apply inv_bind; [| intros ?].
      * repeat (apply inv_bind; [| intros ?]);
          try (apply inv_try_except;
               [| intros e h; destruct (is_Exception e); intros [= <-]]);
          inv_walk unrendered_side.
      * repeat (apply inv_bind; [| intros ?]);
          try (apply inv_automated_loop; apply loop_body_unrendered);
          cbn [negb]; inv_walk unrendered_side.
    + intros e h He. destruct e; simpl in He; inversion He; subst;
        inv_walk unrendered_side.
  - apply inv_bind; [inv_walk unrendered_side | intros ?].
    apply inv_try_except;
      [| intros e h; destruct (is_Exception e); intros [= <-]];
      inv_walk unrendered_side.
Qed.


(** ** The camera bookkeeping *)

Ltac camera_side :=
  unfold camera_sound; intros;
  cbn [trace set_world log_event set_successful_grasps set_total_runs
       set_frame_count set_camera_controller set_data_collection_manager
       set_simulation_app camera_controller camera_updates_follow_creation
       existsb is_camera_update kind kind_of_call camera_created
       negb orb andb] in *;
  match goal with H : _ /\ _ |- _ => destruct H as [? ?] end;
  split; [assumption | intros; try discriminate; auto].

Lemma camera_tail_sound :
  keeps camera_sound
        (cam <- get (@camera_controller W J Pos Rot) ;;
         when cam (call handle update_frame_count)).
Proof.
  apply inv_bind_get. intros [|] st [[Hord Hcam] Hc]; cbn [when].
  - specialize (Hcam Hc). unfold call.
    destruct (handle update_frame_count (world st)) as [[[]|e] w];
      unfold camera_sound; cbn [snd trace set_world log_event
                                 camera_controller
                                 camera_updates_follow_creation existsb];
      rewrite Hcam, Hord, !orb_true_r; split; reflexivity.
  - split; assumption.
Qed.

Lemma camera_creation_sound :
  keeps camera_sound
        (call handle create_camera_controller ;;
         modify (@set_camera_controller W J Pos Rot true)).
Proof.
  intros st [Hord Hcam]. unfold bind, call, modify.
  destruct (handle create_camera_controller (world st)) as [[[]|e] w];
    unfold camera_sound;
    cbn [snd trace set_world log_event camera_controller
         set_camera_controller camera_updates_follow_creation existsb
         is_camera_update kind kind_of_call camera_created negb orb andb];
    rewrite Hord; split; auto.
Qed.

Ltac camera_walk :=
  inv_walk_with ltac:(first [apply camera_tail_sound
                            | apply camera_creation_sound])
                camera_side.

Lemma loop_body_camera_sound (headless : bool) (Q : Z) :
  keeps camera_sound (loop_body handle headless Q).
Proof.
  unfold loop_body, attempt, evaluate, trigger, warmup, await_completion,
    handle_timeout, record_outcome, await_idle, await_idle_loop, reset_scene,
    reset_wait_loop, warmup_tick, completion_tick, idle_tick, reset_tick,
    warmup_updates, completion_updates, idle_updates, reset_updates,
    incr_total_runs, incr_successful_grasps, incr_frame_count.
  camera_walk.
Qed.

Lemma main_camera_sound (fuel : nat) (enable_data_collection headless : bool)
      (Q : Z) :
  keeps camera_sound (main handle fuel enable_data_collection headless Q).
Proof.
  unfold main, setup, collection_run, cleanup.
  apply inv_bind; [| intros ?; camera_walk].
  apply inv_try_finally.
  - apply inv_try_except.
    + apply inv_bind; [| intros ?].
      * repeat (apply inv_bind; [| intros ?]);
          try (apply inv_try_except;
               [| intros e h; destruct (is_Exception e); intros [= <-]]);
          camera_walk.
      * repeat (apply inv_bind; [| intros ?]);
          try (apply inv_automated_loop; apply loop_body_camera_sound);
          camera_walk.
    + intros e h He. destruct e; simpl in He; inversion He; subst;
        camera_walk.
  - apply inv_bind; [camera_walk | intros ?].
    apply inv_try_except;
      [| intros e h; destruct (is_Exception e); intros [= <-]];
      camera_walk.
Qed.

(** X4. The camera bookkeeping needs a camera controller: along the whole
    of [main], every call of [camera_controller.update_frame_count()] comes
    after a creation of the camera controller that returned, so a run whose
    camera controller could not be created (lines 194-196) never makes the
    call. *)
Theorem camera_updates_after_creation (fuel : nat)
        (enable_data_collection headless : bool) (Q : Z) (w : W) :
  camera_updates_follow_creation
    (trace (snd (main handle fuel enable_data_collection headless Q
                      (initial_state w))))
  = true.
Proof.
  apply (main_camera_sound fuel enable_data_collection headless Q
                           (st := initial_state w)).
  split; [reflexivity | discriminate].
Qed.

(** ** The frame counter *)

Section Frames.

Variable st0 : State.

Lemma frames_sound_log (st : State) (ev : Event) :
  frames_sound st0 st ->
  completed_step ev = false ->
  match frame_of ev with
  | Some n => n = frame_count st
  | None => True
  end ->
  forall st',
    trace st' = ev :: trace st -> frame_count st' = frame_count st ->
    frames_sound st0 st'.
Proof.
  intros (evs & Htr & Hfc & Hfr) Hstep Hframe st' Htr' Hfc'.
  exists (ev :: evs). split; [rewrite Htr', Htr; reflexivity|].
  split; [rewrite Hfc', count_cons, Hstep; cbv iota; lia|].
  cbn [frames_in_step]. rewrite Hfr, andb_true_r.
  destruct (frame_of ev) as [n|]; [|reflexivity].
  apply Z.eqb_eq. lia.
Qed.

Ltac frames_side :=
  intros;
  match goal with
  | H : frames_sound st0 ?st
    |- frames_sound st0 (set_world _ (log_event ?ev ?st)) =>
      apply (@frames_sound_log st ev H);
      [reflexivity | exact I | reflexivity | reflexivity]
  | H : frames_sound st0 ?st |- frames_sound st0 (log_event ?ev ?st) =>
      apply (@frames_sound_log st ev H);
      [reflexivity | exact I | reflexivity | reflexivity]
  | H : frames_sound st0 ?st |- _ => exact H
  end.

(** A step of the world and the increment that follows it. *)
Lemma frames_sound_step (A : Type) (render : bool) (k : M A) :
  keeps (frames_sound st0) k ->
  keeps (frames_sound st0)
        (call handle (world_step render) ;; incr_frame_count ;; k).
Proof.
  intros Hk st (evs & Htr & Hfc & Hfr).
  unfold bind at 1, call.
  destruct (handle (world_step render) (world st)) as [[[]|e] w];
    cbn [fst snd].
  - unfold bind, incr_frame_count, modify. apply Hk.
    set (ev := EvCall (snapshot st) (world_step render) (Ok tt) : Event).
    exists (ev :: evs).
    cbn [fst snd trace frame_count set_frame_count set_world log_event].
    split; [rewrite Htr; reflexivity|].
    split.
    + rewrite count_cons. change (completed_step ev) with true. cbv iota. lia.
    + cbn [frames_in_step]. change (frame_of ev) with (@None Z).
      exact Hfr.
  - set (ev := EvCall (snapshot st) (world_step render) (Throw e) : Event).
    exists (ev :: evs).
    cbn [fst snd trace frame_count set_frame_count set_world log_event].
    split; [rewrite Htr; reflexivity|].
    split.
    + rewrite count_cons. change (completed_step ev) with false. cbv iota. lia.
    + cbn [frames_in_step]. change (frame_of ev) with (@None Z).
      exact Hfr.
Qed.

(** The two calls that are handed the frame counter read just before. *)
Lemma frames_sound_update (A : Type) (ik_data : IkData Pos Rot) (k : M A) :
  keeps (frames_sound st0) k ->
  keeps (frames_sound st0)
        (fc <- get (@frame_count W J Pos Rot) ;;
         call handle (update_calculations ik_data fc) ;; k).
Proof.
  intros Hk. apply inv_bind_get. intros fc.
  intros st [H Hfc]. unfold bind, call.
  destruct (handle (update_calculations ik_data fc) (world st)) as [r w].
  assert (H1 : frames_sound st0
                 (set_world w
                    (log_event
                       (EvCall (snapshot st)
                               (update_calculations ik_data fc) r) st))).
  { apply (@frames_sound_log
             st (EvCall (snapshot st) (update_calculations ik_data fc) r) H);
      [reflexivity | simpl; congruence | reflexivity | reflexivity]. }
  destruct r as [[]|e]; cbn [fst snd]; [apply Hk|]; exact H1.
Qed.

Lemma frames_sound_draw :
  keeps (frames_sound st0)
        (fc <- get (@frame_count W J Pos Rot) ;;
         call handle (draw_visualizations fc)).
Proof.
  apply inv_bind_get. intros fc.
  intros st [H Hfc]. unfold call.
  destruct (handle (draw_visualizations fc) (world st)) as [r w].
  assert (H1 : frames_sound st0
                 (set_world w
                    (log_event
                       (EvCall (snapshot st) (draw_visualizations fc) r)
                       st))).
  { apply (@frames_sound_log
             st (EvCall (snapshot st) (draw_visualizations fc) r) H);
      [reflexivity | simpl; congruence | reflexivity | reflexivity]. }
  destruct r as [[]|e]; exact H1.
Qed.

Ltac frames_walk :=
  inv_walk_with ltac:(first [ apply frames_sound_step
                            | apply frames_sound_update
                            | apply frames_sound_draw ])
                frames_side.

Lemma loop_body_frames_sound (headless : bool) (Q : Z) :
  keeps (frames_sound st0) (loop_body handle headless Q).
Proof.
  unfold loop_body, attempt, evaluate, trigger, warmup, await_completion,
    handle_timeout, record_outcome, await_idle, await_idle_loop, reset_scene,
    reset_wait_loop, warmup_tick, completion_tick, idle_tick, reset_tick,
    warmup_updates, completion_updates, idle_updates, reset_updates,
    incr_total_runs, incr_successful_grasps.
  frames_walk.
Qed.

End Frames.

(** X5. In the episode loop the frame counter counts the completed steps of
    the world: from any state, however long the loop runs and however it
    ends, [frame_count] has grown by the number of calls of [world.step]
    that returned, and every frame number handed to
    [update_calculations] or [draw_visualizations] was the counter's value
    at the entry of the loop plus the number of steps completed before the
    call. *)
Theorem frame_numbers_count_steps (fuel : nat) (headless : bool) (Q : Z)
        (st : State) :
  let st' := snd (automated_loop handle fuel headless Q st) in
  let evs := new_events st st' in
  frame_count st' = frame_count st + count completed_step evs /\
  frames_in_step (frame_count st) evs = true.
Proof.
  assert (H0 : frames_sound st st)
    by (exists []; repeat split; rewrite ?count_nil; try reflexivity; lia).
  pose proof (@inv_automated_loop (frames_sound st) fuel headless Q
                (@loop_body_frames_sound st headless Q) st H0)
    as (evs & Htr & Hfc & Hfr).
  cbn zeta. rewrite (@new_events_app st _ evs Htr). split; assumption.
Qed.

(** ** Episodes that the state machine reports as successes *)

Lemma observed_is_throw (ev : Event) (k : Kind) (a : Answer) (c : Z * Z) :
  observed ev k a c ->
  is_throw ev = match a with AThrow _ => true | _ => false end.
Proof. intros (_ & <- & _). reflexivity. Qed.

Lemma aborted_throws (allowed : Event -> bool) (c : Z * Z) (e : Exn)
      (evs older : list Event) :
  aborted allowed c e evs -> existsb is_throw (evs ++ older) = true.
Proof.
  intros (_ & _ & ev & rest & -> & Hev). cbn [app existsb].
  unfold is_throw at 1. rewrite Hev. reflexivity.
Qed.

(** An episode in which no call raises, the critical-failure flag is found
    clear and [get_last_attempt_status] answers with a success is counted:
    it leaves [successful_grasps] one higher, and ends by [break] when that
    meets the quota and by going on to the next episode otherwise. *)
Lemma reported_success_counted (headless : bool) (Q : Z) (st : State) :
  let r := loop_body handle headless Q st in
  let evs := new_events st (snd r) in
  successful_grasps st < Q ->
  existsb is_throw evs = false ->
  existsb flag_was_set evs = false ->
  existsb reported_failure evs = false ->
  successful_grasps (snd r) = successful_grasps st + 1 /\
  fst r = Normal (if Q <=? successful_grasps st + 1 then Break else Next).
Proof.
  destruct (loop_body handle headless Q st) as [c st'] eqn:E. cbn [fst snd].
  destruct (loop_body_episode _ _ _ E) as (evs & Htr & _ & _ & _ & _ & Hep).
  rewrite (@new_events_app st st' evs Htr). intros Hlt Hthrow Hflag Hfail.
  destruct Hep as [ start Hstart HQ
                  | e start att Hstart HQ Ha Htrig
                  | e start att flag Hstart HQ Ha Hfl
                  | start att flag msg key Hstart HQ Ha Hfl Hmsg Hkey
                  | e start att flag msg key Hstart HQ Ha Hfl Hmsg Hkey
                  | e start att flag status Hstart HQ Ha Hfl Hstatus
                  | c start att flag status was_successful s' verdict tail
                      Hstart HQ Ha Hfl Hstatus Hs' Hverdict Hconcl ].
  - lia.
  - rewrite (aborted_throws _ Ha) in Hthrow. discriminate.
  - cbn [existsb] in Hthrow. rewrite (observed_is_throw Hfl) in Hthrow.
    discriminate.
  - cbn [existsb] in Hflag. rewrite (observed_flag_was_set Hfl) in Hflag.
    rewrite !orb_true_r in Hflag. discriminate.
  - cbn [existsb] in Hthrow. rewrite (observed_is_throw Hkey) in Hthrow.
    discriminate.
  - cbn [existsb] in Hthrow. rewrite (observed_is_throw Hstatus) in Hthrow.
    discriminate.
  - assert (Hwas : was_successful = true).
    { destruct was_successful; [reflexivity|]. exfalso.
      assert (Hrep : reported_failure status = true).
      { destruct Hstatus as (Hk & Hans & _). unfold reported_failure.
        rewrite Hk, Hans. reflexivity. }
      rewrite existsb_app in Hfail. cbn [existsb] in Hfail.
      rewrite Hrep, !orb_true_r in Hfail. discriminate. }
    subst was_successful. subst s'. split; [reflexivity|].
    destruct Hconcl as [ e idle Hidle | idle Hidle HQ'
                       | e idle reset Hidle HQ' Hreset
                       | idle reset Hidle HQ' Hreset ].
    + rewrite (aborted_throws _ Hidle) in Hthrow. discriminate.
    + apply Z.leb_le in HQ'. rewrite HQ'. reflexivity.
    + rewrite <- app_assoc in Hthrow.
      rewrite (aborted_throws _ Hreset) in Hthrow. discriminate.
    + apply Z.leb_gt in HQ'. rewrite HQ'. reflexivity.
Qed.

(** X6. A state machine that reports a success in every episode meets the
    quota:
    if from every state the loop can be in (the states of [good], which the
    episodes preserve) an episode is one in which no call raises, the flag
    is found clear and the reported outcome is a success, then the episode
    loop ends normally after exactly as many episodes as successes were
    missing, with the quota met. *)
Lemma quota_reached_after_successes (headless : bool) (Q : Z)
      (good : State -> Prop) (st : State) :
  successful_grasps st <= Q ->
  good st ->
  (forall st1, good st1 -> successful_grasps st1 < Q ->
     let r := loop_body handle headless Q st1 in
     let evs := new_events st1 (snd r) in
     existsb is_throw evs = false /\
     existsb flag_was_set evs = false /\
     existsb reported_failure evs = false /\
     good (snd r)) ->
  exists st',
    (forall fuel, (Z.to_nat (Q - successful_grasps st) <= fuel)%nat ->
                  automated_loop handle fuel headless Q st
                  = (Normal tt, st')) /\
    successful_grasps st' = Q /\
    total_runs st' = total_runs st + (Q - successful_grasps st).
Proof.
  intros Hle Hgood Hstep.
  remember (Z.to_nat (Q - successful_grasps st)) as n eqn:Hn.
  revert st Hle Hgood Hn.
  induction n as [|n IH]; intros st Hle Hgood Hn.
  - exists st. assert (Heq : successful_grasps st = Q) by lia.
    split; [|split; [exact Heq | lia]].
    intros fuel _. rewrite automated_loop_unfold.
    assert (Hge : (successful_grasps st <? Q) = false)
      by (apply Z.ltb_ge; lia).
    rewrite Hge. destruct fuel; reflexivity.
  - assert (Hlt : successful_grasps st < Q) by lia.
    destruct (Hstep st Hgood Hlt) as (Hthrow & Hflag & Hfail & Hgood').
    destruct (@reported_success_counted headless Q st Hlt Hthrow Hflag Hfail)
      as (Hs & Hc).
    pose proof (loop_body_total_runs headless Q st) as Ht.
    destruct (loop_body handle headless Q st) as [c st1] eqn:E.
    cbn [fst snd] in *. subst c.
    destruct (Z.leb_spec Q (successful_grasps st + 1)) as [Hmet|Hnot].
    + exists st1. split; [|split; [lia | lia]].
      intros fuel Hfuel. destruct fuel as [|fuel]; [lia|].
      rewrite automated_loop_unfold.
      apply Z.ltb_lt in Hlt. rewrite Hlt, E. reflexivity.
    + destruct (IH st1) as (st' & Hrun & Hq & Hruns);
        [lia | exact Hgood' | lia |].
      exists st'. split; [|split; [exact Hq | lia]].
      intros fuel Hfuel. destruct fuel as [|fuel]; [lia|].
      rewrite automated_loop_unfold.
      apply Z.ltb_lt in Hlt. rewrite Hlt, E. apply Hrun. lia.
Qed.

End Facts.

(** * Runs of the scripted state machine *)

(** An episode voided by the critical-failure flag. *)
Lemma void_episode_witness :
  existsb flag_was_set
          (new_events Mock.void_then_success
                      (snd (loop_body Mock.handle true 1
                                      Mock.void_then_success))) = true /\
  successful_grasps (snd (loop_body Mock.handle true 1
                                    Mock.void_then_success))
  = successful_grasps Mock.void_then_success.
Proof.
  assert (H : existsb flag_was_set
                (new_events Mock.void_then_success
                            (snd (loop_body Mock.handle true 1
                                            Mock.void_then_success)))
              = true) by (vm_compute; reflexivity).
  split; [exact H|].
  apply (@void_episode Mock.World Z unit unit Mock.handle true 1
                       Mock.void_then_success H).
Defined.

(** An episode whose task never ends. *)
Lemma timeout_force_fails_once_witness :
  successful_grasps Mock.never_idle < 1 /\
  existsb is_throw
          (new_events Mock.never_idle
                      (snd (loop_body Mock.handle true 1 Mock.never_idle)))
  = false /\
  existsb reported_idle
          (new_events Mock.never_idle
                      (snd (loop_body Mock.handle true 1 Mock.never_idle)))
  = false /\
  count is_fail
        (new_events Mock.never_idle
                    (snd (loop_body Mock.handle true 1 Mock.never_idle)))
  = 1.
Proof.
  assert (H1 : successful_grasps Mock.never_idle < 1) by (vm_compute; reflexivity).
  assert (H2 : existsb is_throw
                 (new_events Mock.never_idle
                    (snd (loop_body Mock.handle true 1 Mock.never_idle)))
               = false) by (vm_compute; reflexivity).
  assert (H3 : existsb reported_idle
                 (new_events Mock.never_idle
                    (snd (loop_body Mock.handle true 1 Mock.never_idle)))
               = false) by (vm_compute; reflexivity).
  split; [exact H1|]. split; [exact H2|]. split; [exact H3|].
  apply (@timeout_force_fails_once Mock.World Z unit unit Mock.handle true 1
                                   Mock.never_idle H1 H2 H3).
Defined.

(** C7 as stated fails: with scene resets that outlast the budget of the
    RESET wait, the loop still ends normally with the quota met, and the
    trigger of its second episode was emitted in a world whose symbolic
    state was not IDLE. *)
Lemma trigger_while_resetting :
  fst (automated_loop Mock.handle 2 true 2 Mock.slow_reset) = Normal tt /\
  ~ triggers_only_when_idle
      Mock.handle
      (trace (snd (automated_loop Mock.handle 2 true 2 Mock.slow_reset))).
Proof.
  split; [vm_compute; reflexivity|].
  apply trigger_off_idle_refutes. vm_compute. reflexivity.
Qed.

(** An episode that is evaluated and leaves the quota unmet. *)
Lemma next_trigger_follows_reset_wait_witness :
  fst (loop_body Mock.handle true 2 Mock.quick_reset) = Normal Next /\
  existsb flag_was_set
          (new_events Mock.quick_reset
                      (snd (loop_body Mock.handle true 2 Mock.quick_reset)))
  = false /\
  successful_grasps (snd (loop_body Mock.handle true 2 Mock.quick_reset)) < 2.
Proof.
  assert (H1 : fst (loop_body Mock.handle true 2 Mock.quick_reset)
               = Normal Next) by (vm_compute; reflexivity).
  assert (H2 : existsb flag_was_set
                 (new_events Mock.quick_reset
                    (snd (loop_body Mock.handle true 2 Mock.quick_reset)))
               = false) by (vm_compute; reflexivity).
  split; [exact H1|]. split; [exact H2|].
  apply (@next_trigger_follows_reset_wait
           Mock.World Z unit unit Mock.handle true 2 Mock.quick_reset H1 H2).
Defined.

(** C4 at its failing input: a task that ends, successfully, on the last
    update of the completion wait.  The poll that ends the wait finds the
    state machine idle, no call throws, and still the script prints the
    timeout line and calls [fail_current_task]: the success is recorded as
    a failure. *)
Lemma force_failed_although_idle :
  let r := loop_body Mock.handle true 1 Mock.done_on_last_tick in
  let evs := new_events Mock.done_on_last_tick (snd r) in
  existsb is_throw evs = false /\
  count reported_idle evs = 1 /\
  count is_fail evs = 1 /\
  force_failed_idle evs = true /\
  Mock.succeeds (Mock.current (world (snd r))) = true /\
  successful_grasps (snd r) = 0.
Proof. vm_compute. repeat split. Qed.

(** One episode of a run without camera controller in which the task
    triggered succeeds on its 3610th update: the state machine is found
    idle once, in a world in which it reports a success; the script calls
    [fail_current_task] once; nothing is counted, and the episode leaves
    the state machine at rest with the remaining tasks. *)
Lemma episode_on_last_tick (q : positive) (ps : list Mock.Plan)
      (last : Mock.Plan) (tr : list (Event Mock.World Z unit unit))
      (t fc : Z) :
  let st := mkState (Mock.at_rest (Mock.mkPlan 3610 true false 0 :: ps) last)
                    tr 0 t fc false (Bound false) (Bound tt) in
  let r := loop_body Mock.handle true (Z.pos q) st in
  fst r = Normal Next /\
  world (snd r) = Mock.at_rest ps (Mock.mkPlan 3610 true false 0) /\
  successful_grasps (snd r) = 0 /\
  total_runs (snd r) = t + 1 /\
  camera_controller (snd r) = false /\
  data_collection_manager (snd r) = Bound false /\
  simulation_app (snd r) = Bound tt /\
  List.length (filter (idle_with_success Mock.handle) (trace (snd r)))
  = S (List.length (filter (idle_with_success Mock.handle) tr)) /\
  List.length (filter is_fail (trace (snd r)))
  = S (List.length (filter is_fail tr)).
Proof. vm_compute. repeat split. Qed.


(** C8 at its failing input: scene resets that take 1000 updates.  The
    RESET wait of the first episode makes its 300 steps without any poll
    answering IDLE; the episode goes on to the next one and the loop ends
    normally with the quota met, but no warning was ever printed. *)
Lemma reset_timeout_not_logged :
  let r := loop_body Mock.handle true 2 Mock.slow_reset in
  let evs := new_events Mock.slow_reset (snd r) in
  let waited := newest_until is_reset_key evs in
  let run := automated_loop Mock.handle 2 true 2 Mock.slow_reset in
  fst r = Normal Next /\
  count is_step waited = 300 /\
  existsb is_idle_poll waited = false /\
  count is_warning evs = 0 /\
  fst run = Normal tt /\
  successful_grasps (snd run) = 2 /\
  count is_warning (trace (snd run)) = 0.
Proof. vm_compute. repeat split. Qed.

(** A keyboard interrupt during the episode loop: [main] returns 0, after
    the clean-up block has closed the data collection manager and the
    simulation application. *)
Lemma keyboard_interrupt_exits_cleanly :
  let r := main Mock.handle 1 true true 1 Mock.interrupted in
  exit_code (fst r) = Some 0 /\
  map kind (firstn 5 (trace (snd r)))
  = [KPrint MsgExitedNormally; KCloseApp; KCloseManager;
     KPrint MsgCleaningUp; KPrint MsgKeyboardInterrupt].
Proof. vm_compute. repeat split. Qed.

(** C9 at its failing input: a scene without the robot.  Line 132 raises,
    [main] returns 1, and the clean-up block, finding
    [data_collection_manager] unassigned, prints its own error and leaves
    the simulation application, which is bound, unclosed. *)
Lemma cleanup_skips_simulation_app :
  let r := main Mock.handle 1 true true 1 Mock.no_robot in
  exit_code (fst r) = Some 1 /\
  simulation_app (snd r) = Bound tt /\
  data_collection_manager (snd r) = Unbound /\
  count is_close_app (trace (snd r)) = 0 /\
  map kind (firstn 3 (trace (snd r)))
  = [KPrint (MsgCleanupError (UnboundLocalError "data_collection_manager"));
     KPrint MsgCleaningUp;
     KPrint (MsgError (RuntimeError "Robot object not found"))].
Proof. vm_compute. repeat split. Qed.

(** * More runs of the scripted state machine *)

(** The first episode of two tasks that succeed. *)
Lemma episode_step_budget_witness :
  successful_grasps Mock.quick_reset < 2 /\
  10 <= count is_step
              (new_events Mock.quick_reset
                 (snd (loop_body Mock.handle true 2 Mock.quick_reset)))
     <= 10 + 3600 + 300 + 300.
Proof.
  split; [vm_compute; reflexivity|].
  apply (@episode_step_budget
           Mock.World Z unit unit Mock.handle true 2 Mock.quick_reset Next);
    vm_compute; reflexivity.
Defined.

Lemma episode_key_presses_witness :
  fst (loop_body Mock.handle true 2 Mock.quick_reset) = Normal Next /\
  count is_reset_key
        (new_events Mock.quick_reset
           (snd (loop_body Mock.handle true 2 Mock.quick_reset)))
  = 1.
Proof.
  split; [vm_compute; reflexivity|].
  apply (@episode_key_presses
           Mock.World Z unit unit Mock.handle true 2 Mock.quick_reset Next);
    vm_compute; reflexivity.
Defined.

(** A run with quota 2 against two tasks that succeed. *)
Lemma quota_reached_after_successes_witness :
  exists st',
    (forall fuel, (2 <= fuel)%nat ->
                  automated_loop Mock.handle fuel true 2 Mock.quick_reset
                  = (Normal tt, st')) /\
    successful_grasps st' = 2 /\
    total_runs st' = 0 + (2 - 0).
Proof.
  pose (s1 := snd (loop_body Mock.handle true 2 Mock.quick_reset)).
  pose (s2 := snd (loop_body Mock.handle true 2 s1)).
  apply (@quota_reached_after_successes
           Mock.World Z unit unit Mock.handle true 2
           (fun st => st = Mock.quick_reset \/ st = s1 \/ st = s2)
           Mock.quick_reset).
  - vm_compute. discriminate.
  - left. reflexivity.
  - intros st1 [ -> | [ -> | -> ] ] Hlt.
    + split; [vm_compute; reflexivity|].
      split; [vm_compute; reflexivity|].
      split; [vm_compute; reflexivity|].
      right. left. reflexivity.
    + split; [vm_compute; reflexivity|].
      split; [vm_compute; reflexivity|].
      split; [vm_compute; reflexivity|].
      right. right. reflexivity.
    + exfalso. vm_compute in Hlt. discriminate.
Defined.

Lemma automated_loop_exact_witness :
  successful_grasps
    (snd (automated_loop Mock.handle 2 true 2 Mock.quick_reset)) = 2.
Proof.
  assert (H : fst (automated_loop Mock.handle 2 true 2 Mock.quick_reset)
              = Normal tt) by (vm_compute; reflexivity).
  apply (@automated_loop_exact
           Mock.World Z unit unit Mock.handle 2 true 2 Mock.quick_reset).
  - vm_compute. discriminate.
  - destruct (automated_loop Mock.handle 2 true 2 Mock.quick_reset)
      as [c st']. cbn [fst snd] in *. rewrite H. reflexivity.
Defined.


(** AWAIT_IDLE on a state machine at rest. *)
Lemma idle_timeout_logged_witness :
  count is_warning
        (new_events Mock.quick_reset
           (snd (await_idle Mock.handle true Mock.quick_reset))) = 0 /\
  (count is_warning
         (new_events Mock.quick_reset
            (snd (await_idle Mock.handle true Mock.quick_reset))) = 1 /\
   count is_step
         (new_events Mock.quick_reset
            (snd (await_idle Mock.handle true Mock.quick_reset))) = 300 \/
   count is_warning
         (new_events Mock.quick_reset
            (snd (await_idle Mock.handle true Mock.quick_reset))) = 0 /\
   count is_step
         (new_events Mock.quick_reset
            (snd (await_idle Mock.handle true Mock.quick_reset))) < 300).
Proof.
  split; [vm_compute; reflexivity|].
  apply (@idle_timeout_logged
           Mock.World Z unit unit Mock.handle true Mock.quick_reset).
  vm_compute. reflexivity.
Defined.

(** The scripted collaborators never throw in the clean-up block; the run
    is the one of a scene without the robot. *)
Lemma main_exit_code_witness :
  exit_code (fst (main Mock.handle 1 true true 1 Mock.no_robot)) = Some 1.
Proof.
  rewrite (@main_exit_code
             Mock.World Z unit unit Mock.handle 1 true true 1 Mock.no_robot).
  - vm_compute. reflexivity.
  - intros [w tr s t fc cam [|[|]] [|[]]]; reflexivity.
Defined.

(** * Facts about the configuration utilities *)

Section ConfigFacts.

Import Python Outside config_utils.
Local Open Scope prog_scope.

Variables (World Obj Self : Type).

Local Abbreviation Mem := (Mem World (Op Obj) Self).
Local Abbreviation Prog := (Prog World (Op Obj) Self).

Lemma str_split_not_nil (sep : ascii) (s : string) : str_split sep s <> [].
Proof.
  induction s as [|c s IH]; simpl; [discriminate|].
  destruct (Ascii.eqb c sep); [discriminate|].
  destruct (str_split sep s); [contradiction | discriminate].
Qed.

Lemma str_split_app (sep : ascii) (p q : string) :
  str_split sep (p ++ String sep q)%string
  = str_split sep p ++ str_split sep q.
Proof.
  induction p as [|c p IH]; simpl.
  - rewrite Ascii.eqb_refl. reflexivity.
  - destruct (Ascii.eqb c sep); [rewrite IH; reflexivity|].
    rewrite IH. pose proof (str_split_not_nil sep p) as Hp.
    destruct (str_split sep p); [contradiction | reflexivity].
Qed.

Lemma stored_app (keys1 keys2 : list string) (current : Value) :
  stored (keys1 ++ keys2) current
  = match stored keys1 current with
    | Some v => stored keys2 v
    | None => None
    end.
Proof.
  revert current. induction keys1 as [|key keys1 IH]; intros current; simpl.
  - reflexivity.
  - destruct (entry key current); [apply IH | reflexivity].
Qed.

(** The loop ends with what is stored, or leaves with the default. *)
Lemma follow_stored (key_path : string) (default_value : Value)
      (keys : list string) (current : Value) (m : Mem) :
  match stored keys current with
  | Some v =>
      ConfigManager.follow key_path default_value keys current m
      = (Done v, m)
  | None =>
      fst (ConfigManager.follow key_path default_value keys current m)
      = Returns default_value
  end.
Proof.
  revert current. induction keys as [|key keys IH]; intros current; simpl.
  - reflexivity.
  - destruct (entry key current) as [v|]; [apply IH | reflexivity].
Qed.

Lemma get_config_with_defaults_value (R : Type) (config : Value)
      (key_path : string) (default_value : Value) (m : Mem) :
  fst (ConfigManager.get_config_with_defaults (R := R) config key_path
         default_value m)
  = Done (value_at config key_path default_value).
Proof.
  unfold ConfigManager.get_config_with_defaults, function, bind, value_at.
  pose proof (follow_stored key_path default_value
                            (str_split "." key_path) config m) as H.
  destruct (stored (str_split "." key_path) config) as [v|].
  - rewrite H. reflexivity.
  - destruct (ConfigManager.follow key_path default_value
                (str_split "." key_path) config m) as [c m'].
    simpl in H. subst c. reflexivity.
Qed.

(** X13. Looking a dotted path up is looking its first part up and then the
    rest in what was found: [get_config_with_defaults(config, p.q, d)]
    returns what [get_config_with_defaults(v, q, d)] returns for
    [v = get_config_with_defaults(config, p, None)], whatever the
    configuration and the paths are. *)
Theorem lookup_by_parts (R : Type) (config : Value) (p q : string)
        (d : Value) (m : Mem) :
  fst (ConfigManager.get_config_with_defaults (R := R) config
         (p ++ "." ++ q) d m)
  = fst ((v <- ConfigManager.get_config_with_defaults config p VNone ;;
          ConfigManager.get_config_with_defaults v q d) m).
Proof.
  rewrite get_config_with_defaults_value.
  unfold bind.
  pose proof (@get_config_with_defaults_value R config p VNone m) as Hp.
  destruct (ConfigManager.get_config_with_defaults config p VNone m)
    as [c m1].
  simpl in Hp. subst c.
  rewrite get_config_with_defaults_value. unfold value_at.
  change (p ++ "." ++ q)%string with (p ++ String "." q)%string.
  rewrite str_split_app, stored_app.
  destruct (stored (str_split "." p) config) as [v|]; [reflexivity|].
  pose proof (str_split_not_nil "." q) as Hq.
  destruct (str_split "." q) as [|key keys]; [contradiction | reflexivity].
Qed.


(** One lookup in a chain of them. *)
Ltac lookup_step R :=
  unfold bind at 1;
  match goal with
  | |- context [ConfigManager.get_config_with_defaults ?c ?p ?d ?m] =>
      let H := fresh "H" in
      let c0 := fresh "c" in
      let m0 := fresh "m" in
      pose proof (@get_config_with_defaults_value R c p d m) as H;
      destruct (@ConfigManager.get_config_with_defaults World Obj Self R
                  c p d m) as [c0 m0];
      cbn [fst] in H; subst c0
  end.

Lemma get_plate_config_value (R : Type) (config : Value) (m : Mem) :
  fst (ConfigManager.get_plate_config (R := R) config m)
  = Done (VDict
            [(VStr "position",
              value_at config "scene.plate.position"
                       (floats [0.28; 0.0; 0.1]%float));
             (VStr "radius",
              value_at config "scene.plate.virtual_config.radius"
                       (VFloat 0.1));
             (VStr "height",
              value_at config "scene.plate.virtual_config.height"
                       (VFloat 0.02));
             (VStr "scale",
              value_at config "scene.plate.scale" (VFloat 1.0))]).
Proof.
  unfold ConfigManager.get_plate_config, function.
  do 4 lookup_step Value. reflexivity.
Qed.

Lemma get_target_configs_value (R : Type) (config : Value) (m : Mem) :
  exists v, fst (ConfigManager.get_target_configs (R := R) config m) = Done v.
Proof.
  unfold ConfigManager.get_target_configs, function.
  lookup_step Value. eexists. reflexivity.
Qed.

Lemma get_orange_config_value (R : Type) (config : Value) (m : Mem) :
  fst (ConfigManager.get_orange_config (R := R) config m)
  = match value_at config "scene.oranges.generation" (VDict []) with
    | VDict generation =>
        let setting key default :=
          match find_entry key generation with
          | Some v => v
          | None => default
          end in
        Done (VDict
                [(VStr "count",
                  value_at config "scene.oranges.count" (VInt 1));
                 (VStr "mass",
                  value_at config "scene.oranges.physics.mass"
                           (VFloat 0.15));
                 (VStr "models",
                  value_at config "scene.oranges.models"
                           (VList [VStr "Orange001"]));
                 (VStr "usd_paths",
                  value_at config "scene.oranges.usd_paths"
                    (VList
                       [VStr "assets/objects/Orange001/Orange001.usd"]));
                 (VStr "x_range",
                  setting "x_range" (floats [0.1; 0.2]%float));
                 (VStr "y_range",
                  setting "y_range" (floats [0.03; 0.23]%float));
                 (VStr "z_drop_height",
                  setting "z_drop_height" (VFloat 0.1));
                 (VStr "orange_radius",
                  setting "orange_radius" (VFloat 0.025));
                 (VStr "min_distance",
                  setting "min_distance" (VFloat 0.06));
                 (VStr "max_attempts",
                  setting "max_attempts" (VInt 50))])
    | _ => Failed AttributeError
    end.
Proof.
  unfold ConfigManager.get_orange_config, function.
  do 5 lookup_step Value.
  destruct (value_at config "scene.oranges.generation" (VDict []));
    reflexivity.
Qed.

Lemma value_at_missing (config : Value) (key : string) (rest : string)
      (default : Value) :
  entry key config = None ->
  (forall c, In c (list_ascii_of_string key) -> c <> "."%char) ->
  value_at config (key ++ String "." rest) default = default.
Proof.
  intros Hmiss Hkey. unfold value_at. rewrite str_split_app, stored_app.
  assert (Hsplit : str_split "." key = [key]).
  { clear Hmiss. induction key as [|c key IH]; [reflexivity|]. simpl.
    destruct (Ascii.eqb_spec c ".") as [->|_].
    - exfalso. apply (Hkey "."%char); [left|]; reflexivity.
    - rewrite IH; [reflexivity|]. intros c' Hin. apply Hkey. right.
      exact Hin. }
  rewrite Hsplit. simpl. rewrite Hmiss. reflexivity.
Qed.

(** X14. A configuration without the section [scene] (in particular [None],
    what [load_scene_config] returns when the file is missing, and any
    value that is not a mapping) gives the plate and the oranges their
    default parameters, and one without [target_configs] gives the default
    target. *)
Theorem defaults_without_sections (R : Type) (config : Value) (m : Mem) :
  entry "scene" config = None ->
  entry "target_configs" config = None ->
  fst (ConfigManager.get_plate_config (R := R) config m)
  = Done (VDict [(VStr "position", floats [0.28; 0.0; 0.1]%float);
                 (VStr "radius", VFloat 0.1);
                 (VStr "height", VFloat 0.02);
                 (VStr "scale", VFloat 1.0)]) /\
  fst (ConfigManager.get_orange_config (R := R) config m)
  = Done (VDict
            [(VStr "count", VInt 1);
             (VStr "mass", VFloat 0.15);
             (VStr "models", VList [VStr "Orange001"]);
             (VStr "usd_paths",
              VList [VStr "assets/objects/Orange001/Orange001.usd"]);
             (VStr "x_range", floats [0.1; 0.2]%float);
             (VStr "y_range", floats [0.03; 0.23]%float);
             (VStr "z_drop_height", VFloat 0.1);
             (VStr "orange_radius", VFloat 0.025);
             (VStr "min_distance", VFloat 0.06);
             (VStr "max_attempts", VInt 50)]) /\
  fst (ConfigManager.get_target_configs (R := R) config m)
  = Done (VDict
            [(VStr "/World/orange1",
              VDict [(VStr "name", VStr "orange1_object");
                     (VStr "draw_aabb", VBool true);
                     (VStr "aabb_color",
                      VTuple (map VFloat [1.0; 1.0; 0.0; 0.5]%float));
                     (VStr "draw_obb", VBool true);
                     (VStr "obb_color",
                      VTuple (map VFloat [0.0; 1.0; 1.0; 1.0]%float))])]).
Proof.
  intros Hscene Htargets.
  assert (Hs : forall rest default,
             value_at config ("scene" ++ String "." rest) default = default).
  { intros rest default. apply value_at_missing; [exact Hscene|].
    intros c Hin Hc. subst c. simpl in Hin.
    repeat (destruct Hin as [Hin|Hin]; [discriminate|]). contradiction. }
  split; [|split].
  - rewrite get_plate_config_value.
    rewrite (Hs "plate.position"), (Hs "plate.virtual_config.radius"),
      (Hs "plate.virtual_config.height"), (Hs "plate.scale").
    reflexivity.
  - rewrite get_orange_config_value.
    rewrite (Hs "oranges.generation"), (Hs "oranges.count"),
      (Hs "oranges.physics.mass"), (Hs "oranges.models"),
      (Hs "oranges.usd_paths").
    reflexivity.
  - unfold ConfigManager.get_target_configs, function.
    lookup_step Value. unfold value_at.
    change (str_split "." "target_configs") with ["target_configs"].
    cbn [stored]. rewrite Htargets. reflexivity.
Qed.

(** X15. The plate and target parameters are read without ever raising,
    whatever the configuration holds; the orange parameters are too, except
    that [get_orange_config] raises [AttributeError] exactly when something
    that is not a mapping is stored under [scene.oranges.generation]. *)
Theorem getters_errors (R : Type) (config : Value) (m : Mem) :
  (exists v, fst (ConfigManager.get_plate_config (R := R) config m)
             = Done v) /\
  (exists v, fst (ConfigManager.get_target_configs (R := R) config m)
             = Done v) /\
  match stored ["scene"; "oranges"; "generation"] config with
  | Some generation =>
      if is_dict generation
      then exists v, fst (ConfigManager.get_orange_config (R := R) config m)
                     = Done v
      else fst (ConfigManager.get_orange_config (R := R) config m)
           = Failed AttributeError
  | None =>
      exists v, fst (ConfigManager.get_orange_config (R := R) config m)
                = Done v
  end.
Proof.
  split; [eexists; apply get_plate_config_value|].
  split; [apply get_target_configs_value|].
  rewrite get_orange_config_value. unfold value_at.
  change (str_split "." "scene.oranges.generation")
    with ["scene"; "oranges"; "generation"].
  destruct (stored ["scene"; "oranges"; "generation"] config) as [g|].
  - destruct g; simpl; try reflexivity; eexists; reflexivity.
  - eexists. reflexivity.
Qed.

End ConfigFacts.

(** * Facts about the scene factory *)

Section NameFacts.

Import Python scene_factory.

Lemma digit_char (c : ascii) :
  is_digit c = true ->
  is_space c = false /\ c <> "o"%char /\ c <> "_"%char /\
  c <> "+"%char /\ c <> "-"%char.
Proof.
  destruct c as [[] [] [] [] [] [] [] []]; intros H;
    try discriminate H; repeat split; try reflexivity; discriminate.
Qed.

(** The characters of a string. *)
Lemma string_of_uint_digits (u : Decimal.uint) :
  forallb is_digit (list_ascii_of_string (NilEmpty.string_of_uint u)) = true.
Proof. induction u; simpl; try reflexivity; exact IHu. Qed.

Lemma replace_from_other (c0 : ascii) (old new d rest : string) :
  forallb (fun c => negb (Ascii.eqb c c0)) (list_ascii_of_string d) = true ->
  replace_from (String c0 old) new 0 (d ++ rest)
  = (d ++ replace_from (String c0 old) new 0 rest)%string.
Proof.
  induction d as [|c d IH]; intros H; [reflexivity|].
  simpl in H. apply andb_true_iff in H. destruct H as [Hc Hd].
  change ((String c d ++ rest)%string) with (String c (d ++ rest)%string).
  cbn [replace_from String.prefix].
  destruct (ascii_dec c0 c) as [->|_].
  - rewrite Ascii.eqb_refl in Hc. discriminate.
  - rewrite (IH Hd). reflexivity.
Qed.

Lemma strip_nothing (s : string) :
  forallb (fun c => negb (is_space c)) (list_ascii_of_string s) = true ->
  lstrip s = s /\ rstrip s = s.
Proof.
  induction s as [|c s IH]; intros H; [split; reflexivity|].
  simpl in H. apply andb_true_iff in H. destruct H as [Hc Hs].
  apply negb_true_iff in Hc. destruct (IH Hs) as [_ Hr].
  split; simpl; rewrite ?Hc, ?Hr; [reflexivity|].
  destruct s; reflexivity.
Qed.

Lemma digits_of_digits (s : string) :
  forallb is_digit (list_ascii_of_string s) = true ->
  digits_of true s = Some s.
Proof.
  induction s as [|c s IH]; intros H; [reflexivity|].
  simpl in H. apply andb_true_iff in H. destruct H as [Hc Hs].
  simpl. rewrite Hc, (IH Hs). reflexivity.
Qed.

(** Reading back the digits of a number. *)
Lemma unsigned_of_str_digits (u : Decimal.uint) :
  u <> Decimal.Nil ->
  unsigned_of_str (NilEmpty.string_of_uint u) = Some (Z.of_uint u).
Proof.
  intros Hu. unfold unsigned_of_str.
  pose proof (string_of_uint_digits u) as Hd.
  pose proof (NilZero.usu u Hu) as Hback.
  assert (Hsame : NilZero.string_of_uint u = NilEmpty.string_of_uint u)
    by (destruct u; [contradiction | reflexivity ..]).
  rewrite Hsame in Hback.
  destruct (NilEmpty.string_of_uint u) as [|c s] eqn:E.
  - destruct u; discriminate || contradiction.
  - simpl in Hd. apply andb_true_iff in Hd. destruct Hd as [Hc Hs].
    cbn [digits_of]. rewrite Hc, (digits_of_digits _ Hs). cbn [option_map].
    rewrite Hback. reflexivity.
Qed.

Lemma digits_not (c0 : ascii) (s : string) :
  is_digit c0 = false ->
  forallb is_digit (list_ascii_of_string s) = true ->
  forallb (fun c => negb (Ascii.eqb c c0)) (list_ascii_of_string s) = true.
Proof.
  intros H0. induction s as [|c s IH]; intros H; [reflexivity|].
  simpl in *. apply andb_true_iff in H. destruct H as [Hc Hs].
  rewrite (IH Hs), andb_true_r. apply negb_true_iff.
  destruct (Ascii.eqb_spec c c0) as [->|_]; [congruence | reflexivity].
Qed.

Lemma digits_no_space (s : string) :
  forallb is_digit (list_ascii_of_string s) = true ->
  forallb (fun c => negb (is_space c)) (list_ascii_of_string s) = true.
Proof.
  induction s as [|c s IH]; intros H; [reflexivity|].
  simpl in *. apply andb_true_iff in H. destruct H as [Hc Hs].
  rewrite (IH Hs), andb_true_r. apply negb_true_iff.
  apply (digit_char c Hc).
Qed.

(** [int] of the digits of a number, with or without a sign. *)
Lemma int_of_str_digits (u : Decimal.uint) :
  u <> Decimal.Nil ->
  int_of_str (NilEmpty.string_of_uint u) = Some (Z.of_uint u) /\
  int_of_str (String "-" (NilEmpty.string_of_uint u))
  = Some (- Z.of_uint u).
Proof.
  intros Hu. pose proof (string_of_uint_digits u) as Hd.
  pose proof (unsigned_of_str_digits Hu) as Hn.
  destruct (strip_nothing _ (digits_no_space _ Hd)) as [Hl Hr].
  split.
  - unfold int_of_str. rewrite Hl, Hr.
    destruct (NilEmpty.string_of_uint u) as [|c s] eqn:E;
      [exact Hn|].
    simpl in Hd. apply andb_true_iff in Hd. destruct Hd as [Hc _].
    destruct c as [[] [] [] [] [] [] [] []]; try discriminate Hc; exact Hn.
  - unfold int_of_str.
    change (lstrip (String "-" (NilEmpty.string_of_uint u)))
      with (String "-" (NilEmpty.string_of_uint u)).
    assert (Hr' : rstrip (String "-" (NilEmpty.string_of_uint u))
                  = String "-" (NilEmpty.string_of_uint u)).
    { cbn [rstrip]. rewrite Hr.
      destruct (NilEmpty.string_of_uint u); reflexivity. }
    rewrite Hr', Hn. reflexivity.
Qed.

Lemma int_of_str_of_int (n : Z) : int_of_str (str_of_int n) = Some n.
Proof.
  unfold str_of_int. destruct n as [|p|p]; [reflexivity| |];
    cbn [Z.to_int NilZero.string_of_int];
    pose proof (DecimalPos.Unsigned.to_uint_nonnil p) as Hp;
    destruct (int_of_str_digits Hp) as [H1 H2];
    assert (Hsame : NilZero.string_of_uint (Pos.to_uint p)
                    = NilEmpty.string_of_uint (Pos.to_uint p))
      by (destruct (Pos.to_uint p); [contradiction | reflexivity ..]);
    rewrite Hsame, ?H1, ?H2; unfold Z.of_uint;
    rewrite DecimalPos.Unsigned.of_to; reflexivity.
Qed.

(** The characters of [str(n)]: digits, after a minus sign at most. *)
Lemma str_of_int_chars (n : Z) (c0 : ascii) :
  is_digit c0 = false -> c0 <> "-"%char ->
  forallb (fun c => negb (Ascii.eqb c c0))
          (list_ascii_of_string (str_of_int n)) = true.
Proof.
  intros H0 Hm. unfold str_of_int.
  assert (Hu : forall u,
             forallb (fun c => negb (Ascii.eqb c c0))
                     (list_ascii_of_string (NilZero.string_of_uint u))
             = true).
  { intros u.
    assert (Hcase : u = Decimal.Nil \/
                    NilZero.string_of_uint u = NilEmpty.string_of_uint u)
      by (destruct u; auto).
    destruct Hcase as [-> | ->].
    - cbn [NilZero.string_of_uint list_ascii_of_string forallb].
      destruct (Ascii.eqb_spec "0"%char c0) as [<-|_];
        [discriminate H0 | reflexivity].
    - apply digits_not; [exact H0|]. apply string_of_uint_digits. }
  destruct n as [|p|p]; cbn [Z.to_int NilZero.string_of_int].
  - apply Hu.
  - apply Hu.
  - cbn [list_ascii_of_string forallb]. rewrite Hu, andb_true_r.
    apply negb_true_iff. destruct (Ascii.eqb_spec "-"%char c0) as [<-|_];
      [contradiction Hm; reflexivity | reflexivity].
Qed.

(** Reading the index back from a name. *)
Lemma index_of_name (i : Z) : object_index (scene_name i) = Some i.
Proof.
  unfold object_index, scene_name.
  set (d := str_of_int (i + 1)).
  assert (H1 : str_replace "orange" "" ("orange" ++ d ++ "_object")
               = (d ++ "_object")%string).
  { unfold str_replace. cbn.
    assert (Hp : String.prefix "" (d ++ "_object") = true)
      by (destruct (d ++ "_object")%string; reflexivity).
    rewrite Hp.
    rewrite replace_from_other by (apply str_of_int_chars;
                                   [reflexivity | discriminate]).
    reflexivity. }
  rewrite H1.
  assert (H2 : str_replace "_object" "" (d ++ "_object") = d).
  { change (str_replace "_object" "" (d ++ "_object"))
      with (replace_from "_object" "" 0 (d ++ "_object")).
    rewrite replace_from_other by (apply str_of_int_chars;
                                   [reflexivity | discriminate]).
    cbn. clear. induction d; simpl; congruence. }
  rewrite H2. unfold d. rewrite int_of_str_of_int. cbn [option_map].
  f_equal. lia.
Qed.

Lemma scene_name_inj (i j : Z) : scene_name i = scene_name j -> i = j.
Proof.
  intros H. pose proof (index_of_name i) as Hi.
  rewrite H, index_of_name in Hi. congruence.
Qed.

(** X16. The name that the factory gives to the orange of index [i] is read
    back as [i]: the index that [_apply_candy_materials] computes at line
    333 from a name built at lines 89 and 144 is the index the name was
    built from, for every integer; so no two indices share a name. *)
Theorem object_index_of_scene_name (i : Z) :
  object_index (scene_name i) = Some i /\
  forall j, scene_name j = scene_name i -> j = i.
Proof.
  split; [apply index_of_name | intros j; apply scene_name_inj].
Qed.

End NameFacts.

(** * Rules for running a piece *)

Section Rules.

Import Python Outside.
Local Open Scope prog_scope.

Variables (World : Type) (Op : Type -> Type) (Self : Type).
Variable perform : forall A : Type, Op A -> World -> Outcome A * World.

Local Abbreviation Mem := (Mem World Op Self).
Local Abbreviation Prog := (Prog World Op Self).

Lemma post_mono (R A : Type) (p : Prog R A) (m : Mem)
      (Q Q' : Ending R A -> Mem -> Prop) :
  post p m Q -> (forall ending m', Q ending m' -> Q' ending m') ->
  post p m Q'.
Proof. unfold post. intros H HQ. apply HQ. exact H. Qed.

Lemma post_ret (R A : Type) (a : A) (m : Mem)
      (Q : Ending R A -> Mem -> Prop) :
  Q (Done a) m -> post (ret a) m Q.
Proof. intros H. exact H. Qed.

Lemma post_raise (R A : Type) (e : Error) (m : Mem)
      (Q : Ending R A -> Mem -> Prop) :
  Q (Failed e) m -> post (raise e) m Q.
Proof. intros H. exact H. Qed.

Lemma post_return (R A : Type) (r : R) (m : Mem)
      (Q : Ending R A -> Mem -> Prop) :
  Q (Returns r) m -> post (return_ r) m Q.
Proof. intros H. exact H. Qed.

Lemma post_say (R : Type) (template : string) (args : list Value)
      (w : World) (s : Self) (l : list (Entry Op))
      (Q : Ending R unit -> Mem -> Prop) :
  Q (Done tt) (mkMem w s (Said (Printed template args) :: l)) ->
  post (say template args) (mkMem w s l) Q.
Proof. intros H. exact H. Qed.

Lemma post_get_self (R : Type) (w : World) (s : Self)
      (l : list (Entry Op)) (Q : Ending R Self -> Mem -> Prop) :
  Q (Done s) (mkMem w s l) -> post get_self (mkMem w s l) Q.
Proof. intros H. exact H. Qed.

Lemma post_set_self (R : Type) (s' : Self) (w : World) (s : Self)
      (l : list (Entry Op)) (Q : Ending R unit -> Mem -> Prop) :
  Q (Done tt) (mkMem w s' l) -> post (set_self s') (mkMem w s l) Q.
Proof. intros H. exact H. Qed.

Lemma post_bind (R A B : Type) (p : Prog R A) (k : A -> Prog R B) (m : Mem)
      (Q : Ending R B -> Mem -> Prop) :
  post p m (fun ending m' =>
              match ending with
              | Done a => post (k a) m' Q
              | Failed e => Q (Failed e) m'
              | Returns r => Q (Returns r) m'
              end) ->
  post (bind p k) m Q.
Proof.
  unfold post, bind. destruct (p m) as [[a|e|r] m']; intros H; exact H.
Qed.

Lemma post_call (R A : Type) (op : Op A) (w : World) (s : Self)
      (l : list (Entry Op)) (Q : Ending R A -> Mem -> Prop) :
  (forall a w', perform op w = (Gives a, w') ->
                Q (Done a) (mkMem w' s (Did op (Gives a) :: l))) ->
  (forall e w', perform op w = (Throws e, w') ->
                Q (Failed e) (mkMem w' s (Did op (Throws e) :: l))) ->
  post (call perform op) (mkMem w s l) Q.
Proof.
  unfold post, call. cbn [world self log]. intros Ha He.
  destruct (perform op w) as [[a|e] w']; [apply Ha | apply He];
    reflexivity.
Qed.

Lemma post_function (R R' : Type) (default : R) (body : Prog R unit)
      (m : Mem) (Q : Ending R' R -> Mem -> Prop) :
  post body m (fun ending m' =>
                 match ending with
                 | Done _ => Q (Done default) m'
                 | Failed e => Q (Failed e) m'
                 | Returns r => Q (Done r) m'
                 end) ->
  post (function default body) m Q.
Proof.
  unfold post, function. destruct (body m) as [[a|e|r] m']; intros H;
    exact H.
Qed.

Lemma post_returning (R R' : Type) (body : Prog R R) (m : Mem)
      (Q : Ending R' R -> Mem -> Prop) :
  post body m (fun ending m' =>
                 match ending with
                 | Done r => Q (Done r) m'
                 | Failed e => Q (Failed e) m'
                 | Returns r => Q (Done r) m'
                 end) ->
  post (returning body) m Q.
Proof.
  unfold post, returning. destruct (body m) as [[a|e|r] m']; intros H;
    exact H.
Qed.

Lemma post_try_except (R A : Type) (body : Prog R A)
      (handler : Error -> option (Prog R A)) (m : Mem)
      (Q : Ending R A -> Mem -> Prop) :
  post body m (fun ending m' =>
                 match ending with
                 | Failed e =>
                     match handler e with
                     | Some h => post h m' Q
                     | None => Q (Failed e) m'
                     end
                 | other => Q other m'
                 end) ->
  post (try_except body handler) m Q.
Proof.
  unfold post, try_except. destruct (body m) as [[a|e|r] m']; intros H;
    try exact H.
  cbn [fst snd] in H. destruct (handler e) as [h|]; exact H.
Qed.

Lemma post_with_local (R A L : Type) (init : L)
      (body : Python.Prog World Op L R A) (w : World) (s : Self)
      (l : list (Entry Op)) (Q : Ending R A -> Mem -> Prop) :
  post body (mkMem w init l)
       (fun ending m' => Q ending (mkMem (world m') s (log m'))) ->
  post (with_local init body) (mkMem w s l) Q.
Proof.
  unfold post, with_local. cbn [world self log].
  destruct (body (mkMem w init l)) as [ending m']. intros H. exact H.
Qed.

(** A loop keeps what every round keeps. *)
Lemma post_for_each (R X : Type) (xs : list X) (body : X -> Prog R unit)
      (I : Mem -> Prop) (Q : Ending R unit -> Mem -> Prop) (m : Mem) :
  I m ->
  (forall x m0, In x xs -> I m0 ->
                post (body x) m0
                     (fun ending m' =>
                        match ending with
                        | Done _ => I m'
                        | other => Q other m'
                        end)) ->
  (forall m', I m' -> Q (Done tt) m') ->
  post (for_each xs body) m Q.
Proof.
  intros Hm Hbody Hend. revert m Hm.
  induction xs as [|x xs IH]; intros m Hm; cbn [for_each].
  - apply post_ret. apply Hend. exact Hm.
  - apply post_bind. eapply post_mono; [apply (Hbody x m); [left|]; auto|].
    intros [[]|e|r] m' H; try exact H.
    apply IH; [|exact H]. intros x' m0 Hin. apply Hbody. right. exact Hin.
Qed.

Lemma post_for_fold (R X S : Type) (xs : list X) (acc : S)
      (body : X -> S -> Prog R S) (I : S -> Mem -> Prop)
      (Q : Ending R S -> Mem -> Prop) (m : Mem) :
  I acc m ->
  (forall x acc0 m0, In x xs -> I acc0 m0 ->
                     post (body x acc0) m0
                          (fun ending m' =>
                             match ending with
                             | Done acc' => I acc' m'
                             | other => Q other m'
                             end)) ->
  (forall acc' m', I acc' m' -> Q (Done acc') m') ->
  post (for_fold xs acc body) m Q.
Proof.
  intros Hm Hbody Hend. revert acc m Hm.
  induction xs as [|x xs IH]; intros acc m Hm; cbn [for_fold].
  - apply post_ret. apply Hend. exact Hm.
  - apply post_bind. eapply post_mono; [apply (Hbody x acc m); [left|]; auto|].
    intros [acc'|e|r] m' H; try exact H.
    apply IH; [|exact H]. intros x' acc0 m0 Hin. apply Hbody. right.
    exact Hin.
Qed.

(** The operations on values end with a value or with their error, in the
    memory they started from. *)
Lemma post_dict_get (R : Type) (d : Value) (key : string) (default : Value)
      (m : Mem) (Q : Ending R Value -> Mem -> Prop) :
  (forall entries, d = VDict entries ->
                   Q (Done (match find_entry key entries with
                            | Some v => v
                            | None => default
                            end)) m) ->
  (is_dict d = false -> Q (Failed AttributeError) m) ->
  post (dict_get d key default) m Q.
Proof.
  intros Hd He. destruct d; try (apply He; reflexivity).
  apply (Hd entries). reflexivity.
Qed.

(** By cases on a test. *)
Lemma post_if (R A : Type) (b : bool) (p q : Prog R A) (m : Mem)
      (Q : Ending R A -> Mem -> Prop) :
  (b = true -> post p m Q) -> (b = false -> post q m Q) ->
  post (if b then p else q) m Q.
Proof. destruct b; intros Hp Hq; [apply Hp | apply Hq]; reflexivity. Qed.

Lemma post_when (R : Type) (b : bool) (p : Prog R unit) (m : Mem)
      (Q : Ending R unit -> Mem -> Prop) :
  (b = true -> post p m Q) -> (b = false -> Q (Done tt) m) ->
  post (when b p) m Q.
Proof. destruct b; intros Hp Hq; [apply Hp | apply Hq]; reflexivity. Qed.

(** A handler that catches a class of exceptions. *)
Lemma handler_cases (R A : Type) (b : bool) (h : Prog R A) (m : Mem)
      (Q : Ending R A -> Mem -> Prop) (otherwise : Prop) :
  (b = true -> post h m Q) -> (b = false -> otherwise) ->
  match (if b then Some h else None) with
  | Some h' => post h' m Q
  | None => otherwise
  end.
Proof. destruct b; intros Hp Hq; [apply Hp | apply Hq]; reflexivity. Qed.

Lemma handlers_cases (R A : Type) (b : bool) (h : Prog R A)
      (others : option (Prog R A)) (m : Mem)
      (Q : Ending R A -> Mem -> Prop) (otherwise : Prop) :
  (b = true -> post h m Q) ->
  (b = false -> match others with
                | Some h' => post h' m Q
                | None => otherwise
                end) ->
  match (if b then Some h else others) with
  | Some h' => post h' m Q
  | None => otherwise
  end.
Proof. destruct b; intros Hp Hq; [apply Hp | apply Hq]; reflexivity. Qed.

Lemma post_subscript (R : Type) (entries : list (Value * Value))
      (key : string) (v : Value) (m : Mem)
      (Q : Ending R Value -> Mem -> Prop) :
  find_entry key entries = Some v ->
  Q (Done v) m ->
  post (subscript (VDict entries) key) m Q.
Proof. intros Hv H. unfold post, subscript. rewrite Hv. exact H. Qed.

(** A piece whose value is known, whatever it prints. *)
Lemma post_value (R A : Type) (p : Prog R A) (v : A) (m : Mem)
      (Q : Ending R A -> Mem -> Prop) :
  fst (p m) = Done v ->
  (forall m', Q (Done v) m') ->
  post p m Q.
Proof. unfold post. intros -> H. apply H. Qed.

(** What a piece ends with, whatever the memory it ends in. *)
Lemma post_ending (R A : Type) (p : Prog R A) (m : Mem)
      (G : Ending R A -> Prop) :
  post p m (fun ending _ => G ending) -> G (fst (p m)).
Proof. intros H. exact H. Qed.

End Rules.

(** Running a piece statement by statement. *)
Ltac run_statement :=
  cbv beta iota;
  try match goal with
      | |- Python.post _ ?m _ => is_var m; destruct m as [? ? ?]
      end;
  lazymatch goal with
  | |- Python.post (Python.bind _ _) _ _ => simple apply post_bind
  | |- Python.post (Python.ret _) _ _ => simple apply post_ret
  | |- Python.post (Python.raise _) _ _ => simple apply post_raise
  | |- Python.post (Python.return_ _) _ _ => simple apply post_return
  | |- Python.post (Python.say _ _) _ _ => simple apply post_say
  | |- Python.post Python.get_self _ _ => simple apply post_get_self
  | |- Python.post (Python.set_self _) _ _ => simple apply post_set_self
  | |- Python.post (Python.call _ _) _ _ =>
      simple apply post_call; intros ? ? ?
  | |- Python.post (Python.function _ _) _ _ => simple apply post_function
  | |- Python.post (Python.returning _) _ _ => simple apply post_returning
  | |- Python.post (Python.try_except _ _) _ _ =>
      simple apply post_try_except
  | |- Python.post (Python.with_local _ _) _ _ =>
      simple apply post_with_local
  | |- Python.post (Python.when _ _) _ _ => simple apply post_when; intros ?
  | |- Python.post (Python.dict_get _ _ _) _ _ =>
      simple apply post_dict_get; intros
  | |- Python.post (Python.subscript (Python.VDict _) _) _ _ =>
      simple eapply post_subscript; [reflexivity|]
  | |- Python.post (Python.copy _) _ _ =>
      progress cbn [Python.copy Python.floats]
  | |- Python.post (Python.repeat_of _ _) _ _ =>
      progress cbn [Python.repeat_of]
  | |- Python.post (Python.range_of _) _ _ => progress cbn [Python.range_of]
  | |- Python.post (if _ then _ else _) _ _ => simple apply post_if; intros ?
  | |- Python.post (match ?x with _ => _ end) _ _ => destruct x eqn:?
  | |- match (if _ then Some _ else None) with _ => _ end =>
      simple apply handler_cases; intros ?
  | |- match (if _ then Some _ else _) with _ => _ end =>
      simple apply handlers_cases; intros ?
  end.

Ltac run := repeat run_statement.

(** From what a piece ends with to a run of it. *)
Ltac run_ending :=
  lazymatch goal with
  | |- context [fst (?p ?m)] =>
      pattern (fst (p m)); apply post_ending
  end.

Section LoaderFacts.

Import Python Outside scene_factory.
Local Open Scope prog_scope.

Variables (World Obj Self : Type).
Variable perform : forall A : Type, Op Obj A -> World -> Outcome A * World.

Local Abbreviation Mem := (Mem World (Op Obj) Self).

(** A function call ends with a value or an exception. *)
Lemma function_falls (R R' : Type) (default : R)
      (body : Prog World (Op Obj) Self R unit) (m : Mem) (r : R') :
  fst (function default body m) <> Returns r.
Proof.
  unfold function. destruct (body m) as [[a|e|r0] m']; discriminate.
Qed.

Lemma returning_falls (R R' : Type)
      (body : Prog World (Op Obj) Self R R) (m : Mem) (r : R') :
  fst (returning body m) <> Returns r.
Proof.
  unfold returning. destruct (body m) as [[a|e|r0] m']; discriminate.
Qed.

(** A new key goes to the end of a dict. *)
Lemma dict_set_new (X : Type) (key : string) (v : X)
      (entries : list (string * X)) :
  ~ In key (map fst entries) ->
  dict_set key v entries = entries ++ [(key, v)].
Proof.
  induction entries as [|[k x] rest IH]; intros H; [reflexivity|].
  simpl in *. destruct (String.eqb_spec k key) as [->|_].
  - exfalso. apply H. left. reflexivity.
  - rewrite IH; [reflexivity|]. intros Hin. apply H. right. exact Hin.
Qed.

(** The pieces that hold no [return] statement. *)
Ltac no_return E :=
  exfalso;
  lazymatch type of E with
  | SceneFactory._load_single_orange _ _ _ _ _ _ _ _ = _ =>
      apply (f_equal fst) in E; exact (function_falls _ _ _ E)
  | _ =>
      cbv [py_len getitem py_str value_get dict_get subscript copy
           range_of repeat_of keys_of replace_method say ret raise
           call get_self set_self] in E;
      repeat match type of E with
             | context [match ?x with _ => _ end] => destruct x
             end;
      discriminate E
  end.

(** Running a piece statement by statement: every statement ends with a
    value, or by an exception that ends the piece. *)
Ltac round_statement :=
  lazymatch goal with
  | |- match fst (ret _ _) with _ => _ end => cbn [ret fst]
  | |- match fst (bind ?p _ ?m) with _ => _ end =>
      let E := fresh "E" in
      unfold bind at 1;
      destruct (p m) as [[?|?|?] ?] eqn:E; cbn [fst];
      [ | exact I | no_return E ]
  | |- match fst (match ?x with _ => _ end ?m) with _ => _ end =>
      destruct x
  | |- match fst ((if ?x then _ else _) ?m) with _ => _ end =>
      destruct x
  end.

(** One round of the loop leaves the dict as it is or adds the orange of
    the round. *)
Lemma load_orange_number_adds (R : Type) (self : SceneFactory.Fields)
      (orange_usd_paths : Value) (safe_positions : list Obj)
      (orange_mass candy_types orange_models : Value) (i : Z)
      (loaded : list (string * Obj)) (m : Mem) :
  match fst (SceneFactory.load_orange_number
               perform (R := R) self orange_usd_paths safe_positions
               orange_mass candy_types orange_models i loaded m) with
  | Done loaded' =>
      loaded' = loaded \/
      (i + 1 < Z.of_nat (List.length safe_positions) /\
       exists orange, loaded' = dict_set (scene_name i) orange loaded)
  | Failed _ => True
  | Returns _ => False
  end.
Proof.
  unfold SceneFactory.load_orange_number.
  destruct (Z.ltb_spec i (Z.of_nat (List.length safe_positions) - 1))
    as [Hi|_]; [| left; reflexivity].
  repeat round_statement; try (left; reflexivity).
  right. split; [lia | eexists; reflexivity].
Qed.

(** The indices from [a] on, [k] of them. *)
Lemma loop_names (R : Type) (self : SceneFactory.Fields)
      (orange_usd_paths : Value) (safe_positions : list Obj)
      (orange_mass candy_types orange_models : Value) (n : Z) (k a : nat)
      (loaded : list (string * Obj)) (indices : list Z) (m : Mem) :
  Z.of_nat (a + k) <= Z.max n 0 ->
  map fst loaded = map scene_name indices ->
  StronglySorted Z.lt indices ->
  Forall (fun i => 0 <= i < Z.of_nat a /\ i < n /\
                   i + 1 < Z.of_nat (List.length safe_positions))
         indices ->
  match fst (for_fold (map Z.of_nat (seq a k)) loaded
               (SceneFactory.load_orange_number
                  perform (R := R) self orange_usd_paths safe_positions
                  orange_mass candy_types orange_models) m) with
  | Done loaded' =>
      exists indices',
        map fst loaded' = map scene_name indices' /\
        StronglySorted Z.lt indices' /\
        Forall (fun i => 0 <= i < n /\
                         i + 1 < Z.of_nat (List.length safe_positions))
               indices'
  | Failed _ => True
  | Returns _ => False
  end.
Proof.
  revert a loaded indices m.
  induction k as [|k IH]; intros a loaded indices m Hn Hkeys Hsorted Hall.
  - cbn [seq map for_fold ret fst]. exists indices.
    split; [exact Hkeys|]. split; [exact Hsorted|].
    eapply Forall_impl; [|exact Hall]. cbn beta. intros i H. lia.
  - cbn [seq map for_fold]. unfold bind at 1.
    pose proof (load_orange_number_adds
                  R self orange_usd_paths safe_positions orange_mass
                  candy_types orange_models (Z.of_nat a) loaded m) as Hone.
    destruct (SceneFactory.load_orange_number
                perform self orange_usd_paths safe_positions orange_mass
                candy_types orange_models (Z.of_nat a) loaded m)
      as [[loaded1|e|r] m1]; cbn [fst] in *; [| exact I | exact Hone].
    destruct Hone as [->|[Hpos [orange ->]]].
    + apply (IH (S a) loaded indices m1); [lia | exact Hkeys | exact Hsorted|].
      eapply Forall_impl; [|exact Hall]. cbn beta. intros i H. lia.
    + assert (Hnew : ~ In (scene_name (Z.of_nat a)) (map fst loaded)).
      { rewrite Hkeys. intros Hin. apply in_map_iff in Hin.
        destruct Hin as (j & Hj & Hin). apply scene_name_inj in Hj.
        rewrite Forall_forall in Hall. specialize (Hall j Hin). lia. }
      rewrite (dict_set_new _ _ _ Hnew).
      apply (IH (S a) _ (indices ++ [Z.of_nat a]) m1); [lia | | |].
      * rewrite !map_app, Hkeys. reflexivity.
      * clear - Hsorted Hall. induction Hsorted as [|j js Hs IHs Hj].
        { repeat constructor. }
        { inversion Hall as [|? ? Hj0 Hjs]; subst. cbn [app].
          constructor; [apply IHs; exact Hjs|].
          apply Forall_app. split; [exact Hj|]. repeat constructor. lia. }
      * apply Forall_app. split.
        { eapply Forall_impl; [|exact Hall]. cbn beta. intros i H. lia. }
        { repeat constructor; lia. }
Qed.

(** X17. The oranges that [_load_orange_objects] returns are registered
    under the names [orange{i+1}_object] of indices [i] that grow along the
    dict, each of them below the number of oranges asked for and below the
    number of orange positions (the positions without the last one, the
    plate's): no name is used twice and no more oranges are loaded than
    were asked for or have a position. *)
Theorem loaded_oranges_named (R : Type) (self : SceneFactory.Fields)
        (n : Z) (orange_usd_paths : Value) (safe_positions : list Obj)
        (orange_mass scene_config : Value) (m m' : Mem)
        (loaded : list (string * Obj)) :
  SceneFactory._load_orange_objects
    perform (R := R) self (VInt n) orange_usd_paths safe_positions
    orange_mass scene_config m = (Done loaded, m') ->
  exists indices,
    map fst loaded = map scene_name indices /\
    StronglySorted Z.lt indices /\
    Forall (fun i => 0 <= i < n /\
                     i + 1 < Z.of_nat (List.length safe_positions))
           indices.
Proof.
  unfold SceneFactory._load_orange_objects, function. intros H.
  repeat
    (unfold bind at 1 in H;
     match type of H with
     | context [dict_get ?d ?k ?v ?m0] =>
         let E := fresh "E" in
         destruct (dict_get (World := World) (Op := Op Obj) (Self := Self)
                            (R := list (string * Obj)) d k v m0)
           as [[?|?|?] ?] eqn:E; [| discriminate H | no_return E]
     end).
  unfold bind at 1 in H. cbn [range_of ret] in H.
  unfold bind at 1 in H. unfold range in H.
  match type of H with
  | context [for_fold _ _
               (SceneFactory.load_orange_number _ _ _ _ _ ?types ?models)
               ?m0] =>
      pose proof (@loop_names (list (string * Obj)) self orange_usd_paths
                    safe_positions orange_mass types models n (Z.to_nat n)
                    0 [] [] m0) as Hloop;
      destruct (for_fold (map Z.of_nat (seq 0 (Z.to_nat n))) []
                  (SceneFactory.load_orange_number
                     perform self orange_usd_paths safe_positions
                     orange_mass types models) m0)
        as [[loaded1|e|r] mf]
  end; cbn [fst] in Hloop.
  - cbn [return_] in H. injection H as <- _.
    apply Hloop; [lia | reflexivity | constructor | constructor].
  - discriminate H.
  - exfalso. apply Hloop; [lia | reflexivity | constructor | constructor].
Qed.


(** A configuration that is not a mapping holds nothing. *)
Lemma value_at_no_mapping (config : Value) (key_path : string)
      (default : Value) :
  is_dict config = false ->
  config_utils.value_at config key_path default = default.
Proof.
  intros H. unfold config_utils.value_at.
  pose proof (str_split_not_nil "." key_path) as Hkeys.
  destruct (str_split "." key_path) as [|key keys]; [contradiction|].
  cbn [config_utils.stored]. destruct config; try reflexivity.
  discriminate H.
Qed.

(** The oranges cannot be loaded from a configuration that is not a
    mapping: line 136 raises before anything is looked for. *)
Lemma load_orange_objects_no_mapping (R : Type)
      (self : SceneFactory.Fields) (orange_count orange_usd_paths : Value)
      (safe_positions : list Obj) (orange_mass scene_config : Value)
      (m : Mem) :
  is_dict scene_config = false ->
  SceneFactory._load_orange_objects
    perform (R := R) self orange_count orange_usd_paths safe_positions
    orange_mass scene_config m
  = (Failed AttributeError, m).
Proof.
  intros H. destruct scene_config; try discriminate H; reflexivity.
Qed.

(** The scene cannot be created from a configuration that is not a
    mapping: the plate and the oranges get their default parameters, the
    placement is computed, and then the loading of the oranges raises. *)
Lemma create_scene_no_mapping (R : Type) (self : SceneFactory.Fields)
      (scene_config : Value) (m : Mem) :
  is_dict scene_config = false ->
  match fst (SceneFactory.create_orange_plate_scene
               perform (R := R) self scene_config m) with
  | Failed e =>
      e = AttributeError \/
      exists (A : Type) (op : Op Obj A) (w : World),
        fst (perform op w) = Throws e
  | _ => False
  end.
Proof.
  intros Hcfg. run_ending.
  unfold SceneFactory.create_orange_plate_scene.
  repeat first
    [ lazymatch goal with
      | |- post (config_utils.ConfigManager.get_plate_config _) _ _ =>
          eapply post_value;
          [ rewrite get_plate_config_value,
              !(value_at_no_mapping scene_config _ _ Hcfg); reflexivity
          | intros ? ]
      | |- post (config_utils.ConfigManager.get_orange_config _) _ _ =>
          eapply post_value;
          [ rewrite get_orange_config_value,
              !(value_at_no_mapping scene_config _ _ Hcfg); reflexivity
          | intros ? ]
      | |- post (SceneFactory._load_orange_objects _ _ _ _ _ _ _) ?m0 _ =>
          unfold post;
          rewrite load_orange_objects_no_mapping by exact Hcfg;
          cbn [fst snd]
      end
    | run_statement ];
    try (left; reflexivity);
    right;
    match goal with
    | H : perform ?op ?w = (Throws _, _) |- _ =>
        exists _, op, w; rewrite H; reflexivity
    end.
Qed.

(** X19. Without its configuration file the scene is never created.
    When the file system answers that [config/scene_config.yaml] is not
    there, [load_scene_config] returns [None], and
    [create_orange_plate_scene], called on it as the script does, raises:
    [AttributeError] from line 136, after the defaults were reported and
    the placement computed, unless a collaborator raised before. *)
Theorem scene_needs_configuration_file (R : Type) (project_root : string)
        (m : Mem) :
  fst (perform
         (os_path_exists
            (config_utils.ConfigManager.config_path
               (config_utils.ConfigManager.__init__ project_root)))
         (world m)) = Gives false ->
  match fst ((scene_config <-
                config_utils.load_scene_config perform project_root ;;
              SceneFactory.create_orange_plate_scene
                perform (R := R) (SceneFactory.mkFields project_root)
                scene_config) m) with
  | Failed e =>
      e = AttributeError \/
      exists (A : Type) (op : Op Obj A) (w : World),
        fst (perform op w) = Throws e
  | _ => False
  end.
Proof.
  intros Hmissing. destruct m as [w s l].
  unfold bind at 1.
  unfold config_utils.load_scene_config,
    config_utils.ConfigManager.load_scene_config, function, bind, call,
    return_, say.
  cbn [world self log] in *.
  destruct (perform
              (os_path_exists
                 (config_utils.ConfigManager.config_path
                    (config_utils.ConfigManager.__init__ project_root))) w)
    as [found w'] eqn:Hfound.
  cbn [fst] in Hmissing. subst found. cbn [fst snd].
  apply create_scene_no_mapping. reflexivity.
Qed.

End LoaderFacts.

(** * Runs against the scripted outside *)

(** A configuration that is [None], as [load_scene_config] returns it when
    the file is missing. *)
Lemma defaults_without_sections_witness :
  Python.Done
    (Python.VDict
       [(Python.VStr "position", Python.floats [0.28; 0.0; 0.1]%float);
        (Python.VStr "radius", Python.VFloat 0.1);
        (Python.VStr "height", Python.VFloat 0.02);
        (Python.VStr "scale", Python.VFloat 1.0)])
  = fst (config_utils.ConfigManager.get_plate_config
           (Obj := Scripted.Obj) (R := unit) Python.VNone
           (Scripted.fresh Scripted.one_model)).
Proof.
  symmetry.
  apply (@defaults_without_sections
           Scripted.World Scripted.Obj unit unit Python.VNone
           (Scripted.fresh Scripted.one_model));
    reflexivity.
Defined.

(** Two oranges asked for, one model path, positions for two oranges and
    the plate: both oranges are loaded from the first model. *)
Lemma loaded_oranges_named_witness :
  let r := scene_factory.SceneFactory._load_orange_objects
             Scripted.perform (R := unit)
             (scene_factory.SceneFactory.mkFields "/p") (Python.VInt 2)
             (Python.VList
                [Python.VStr "assets/objects/Orange001/Orange001.usd"])
             [20; 21; 22] (Python.VFloat 0.15) (Python.VDict [])
             (Scripted.fresh Scripted.one_model) in
  map fst (match fst r with Python.Done loaded => loaded | _ => [] end)
  = ["orange1_object"; "orange2_object"] /\
  exists indices,
    map fst (match fst r with Python.Done loaded => loaded | _ => [] end)
    = map scene_factory.scene_name indices /\
    StronglySorted Z.lt indices /\
    Forall (fun i => 0 <= i < 2 /\ i + 1 < Z.of_nat 3) indices.
Proof.
  split; [vm_compute; reflexivity|].
  eapply (@loaded_oranges_named
            Scripted.World Scripted.Obj unit Scripted.perform unit
            (scene_factory.SceneFactory.mkFields "/p") 2
            (Python.VList
               [Python.VStr "assets/objects/Orange001/Orange001.usd"])
            [20; 21; 22] (Python.VFloat 0.15) (Python.VDict [])
            (Scripted.fresh Scripted.one_model)).
  vm_compute. reflexivity.
Defined.

(** A project whose [config] directory is missing. *)
Lemma scene_needs_configuration_file_witness :
  let scene :=
    Python.bind
      (config_utils.load_scene_config Scripted.perform "/p")
      (fun scene_config =>
         scene_factory.SceneFactory.create_orange_plate_scene
           Scripted.perform (R := unit)
           (scene_factory.SceneFactory.mkFields "/p") scene_config)
      (Scripted.fresh Scripted.one_model) in
  fst scene = Python.Failed Python.AttributeError /\
  match fst scene with
  | Python.Failed e =>
      e = Python.AttributeError \/
      exists (A : Type) (op : Outside.Op Scripted.Obj A)
             (w : Scripted.World),
        fst (Scripted.perform op w) = Python.Throws e
  | _ => False
  end.
Proof.
  split; [vm_compute; reflexivity|].
  apply (@scene_needs_configuration_file
           Scripted.World Scripted.Obj unit Scripted.perform unit "/p"
           (Scripted.fresh Scripted.one_model)).
  reflexivity.
Defined.
